(** * The tracking-queue store of br2_vision

    A shallow embedding of [br2_vision/data_structure/tracking_data.py]:
    the [FlowQueue] dataclass with its validating [__setattr__], and the
    [TrackingData] store with its context-manager lifecycle, its record table
    and its per-record pixel trajectories kept in one HDF5 container.  The
    command-line scripts [script/crop_video.py] and
    [script/undistort_rotate_video.py] and the search-path helper of
    [script/visualize_smoothing.py] are embedded after the store.

    Python integers are [Z], Python [str] values are [string], attribute
    dictionaries and the datasets of the container are [gmap string _].
    A method that can raise is a function from the state before the call to
    the state after it together with either the raised exception or the
    returned value: a Python exception does not undo the assignments made
    before it was raised. *)

From Stdlib Require Import ZArith Ascii String Lia.
From stdpp Require Import gmap strings list fin_maps pretty sorting.

Set Warnings "-register-all".

Local Open Scope Z_scope.

(** ** Python values and exceptions *)

(** The values a caller can pass to the constructor or assign to an
    attribute.  [bool] is a subclass of [int] in Python. *)
Inductive value : Type :=
  | VNone
  | VBool (b : bool)
  | VInt (z : Z)
  | VStr (s : string)
  | VTuple (items : list value)
  | VList (items : list value).

Definition isinstance_int (v : value) : bool :=
  match v with VInt _ | VBool _ => true | _ => false end.

Definition isinstance_str (v : value) : bool :=
  match v with VStr _ => true | _ => false end.

Definition isinstance_bool (v : value) : bool :=
  match v with VBool _ => true | _ => false end.

(** The exception classes raised by the module and by the numpy and h5py
    calls it makes.  [Exception] is the bare [Exception] raised by
    [raise_if_outside_context]. *)
Inductive exn : Type :=
  | TypeError
  | AssertionError
  | AttributeError
  | Exception
  | KeyError
  | ValueError
  | OSError
  | OverflowError
  | UnicodeEncodeError
  | UnicodeDecodeError
  | FileNotFoundError.

Inductive outcome (A : Type) : Type :=
  | Raise (e : exn)
  | Return (a : A).
Arguments Raise {A} e.
Arguments Return {A} a.

(** Stateful computations that may raise. *)
Definition Py (S A : Type) : Type := S -> S * outcome A.

Definition ret {S A} (a : A) : Py S A := fun s => (s, Return a).
Definition raise {S A} (e : exn) : Py S A := fun s => (s, Raise e).
Definition bind {S A B} (m : Py S A) (k : A -> Py S B) : Py S B :=
  fun s => match m s with
           | (s', Return a) => k a s'
           | (s', Raise e) => (s', Raise e)
           end.
Definition get {S} : Py S S := fun s => (s, Return s).
Definition modify {S} (f : S -> S) : Py S unit := fun s => (f s, Return tt).
Definition assert {S} (b : bool) : Py S unit :=
  if b then ret tt else raise AssertionError.

Declare Scope py_scope.
Delimit Scope py_scope with py.
Notation "x <- m ;; k" := (bind m (fun x => k))
  (at level 100, m at next level, right associativity) : py_scope.
Notation "m ;; k" := (bind m (fun _ => k))
  (at level 100, right associativity) : py_scope.
Local Open Scope py_scope.

(** ** FlowQueue: the object and its [__setattr__] *)

(** An instance is its attribute dictionary.  Attributes that are not in the
    instance dictionary are looked up in the class: [__initialized__ = False]
    and the dataclass default [done = False]. *)
Abbreviation object := (gmap string value).

Definition class_attr (name : string) : option value :=
  if decide (name = "__initialized__") then Some (VBool false)
  else if decide (name = "done") then Some (VBool false)
  else None.

Definition getattr (self : object) (name : string) : option value :=
  match self !! name with
  | Some v => Some v
  | None => class_attr name
  end.

Definition static_variables : list string :=
  ["point"; "camera"; "z_index"; "label"].

(** The truth value of an attribute in a condition ([if self.x:]): [None],
    [False], zero and an empty string, tuple or list are false, every other
    value is true.  An attribute that is not there (it cannot be, for
    [__initialized__], which the class defines) counts as false. *)
Definition truthy (v : option value) : bool :=
  match v with
  | Some (VBool b) => b
  | Some (VInt z) => negb (z =? 0)
  | Some (VStr s) => negb (bool_decide (s = EmptyString))
  | Some (VTuple items) | Some (VList items) =>
      negb (Nat.eqb (length items) 0)
  | Some VNone | None => false
  end.

(** The type check at the head of [__setattr__]: [None] when the value is
    accepted, otherwise the exception raised. *)
Definition type_check (name : string) (v : value) : option exn :=
  if decide (name = "point") then
    match v with
    | VTuple items =>
        if negb (Nat.eqb (length items) 2) then Some AssertionError
        else if forallb isinstance_int items then None
        else Some TypeError
    | _ => Some TypeError
    end
  else if decide (name ∈ ["start_frame"; "end_frame"; "camera"; "z_index"]) then
    if isinstance_int v then None else Some TypeError
  else if decide (name = "label") then
    if isinstance_str v then None else Some TypeError
  else if decide (name = "done") then
    if isinstance_bool v then None else Some TypeError
  else None.

(** [FlowQueue.__setattr__]: the type check, then the assignment proper
    ([super().__setattr__]), then the immutability check on the object as it
    is after the assignment. *)
Definition setattr (name : string) (v : value) : Py object unit :=
  match type_check name v with
  | Some e => raise e
  | None =>
      modify (fun self => <[name := v]> self) ;;
      self <- get ;;
      if truthy (getattr self "__initialized__")
         && bool_decide (name ∈ static_variables)
      then raise AttributeError
      else ret tt
  end.

Definition post_init : Py object unit :=
  setattr "__initialized__" (VBool true).

(** The [__init__] that [@dataclass] generates: one assignment per field in
    declaration order, then [__post_init__]. *)
Definition init (point start_frame end_frame camera z_index label done : value)
  : Py object unit :=
  setattr "point" point ;;
  setattr "start_frame" start_frame ;;
  setattr "end_frame" end_frame ;;
  setattr "camera" camera ;;
  setattr "z_index" z_index ;;
  setattr "label" label ;;
  setattr "done" done ;;
  post_init.

(** [FlowQueue(point, start_frame, end_frame, camera, z_index, label, done)]:
    a fresh object is initialised; when [__init__] raises no object is
    returned. *)
Definition new_FlowQueue
    (point start_frame end_frame camera z_index label done : value)
  : outcome object :=
  match init point start_frame end_frame camera z_index label done ∅ with
  | (self, Return _) => Return self
  | (_, Raise e) => Raise e
  end.

(** ** FlowQueue: the record of validated fields *)

(** The fields as the dataclass declares them: integers, a string and a
    boolean.  The store only reads the fields of its records and assigns
    integers to [start_frame] and [end_frame], so it is written over this
    record; [to_object] gives the attribute dictionary of the instance it
    stands for.  (A [bool] passes the integer check of [__setattr__] too;
    instances that hold one in an integer field are covered by the object
    model above and not by this record.)  A character of [label] below 128
    is the ASCII character; the others stand for non-ASCII text. *)
Record FlowQueue : Type := mkFlowQueue {
  point : Z * Z;
  start_frame : Z;
  end_frame : Z;
  camera : Z;
  z_index : Z;
  label : string;
  done : bool
}.

Definition to_object (q : FlowQueue) : object :=
  <["__initialized__" := VBool true]>
  (<["done" := VBool (done q)]>
  (<["label" := VStr (label q)]>
  (<["z_index" := VInt (z_index q)]>
  (<["camera" := VInt (camera q)]>
  (<["end_frame" := VInt (end_frame q)]>
  (<["start_frame" := VInt (start_frame q)]>
  (<["point" := VTuple [VInt (fst (point q)); VInt (snd (point q))]]> ∅))))))).

Definition set_start_frame (frame : Z) (q : FlowQueue) : FlowQueue :=
  mkFlowQueue (point q) frame (end_frame q) (camera q) (z_index q)
    (label q) (done q).

Definition set_end_frame (frame : Z) (q : FlowQueue) : FlowQueue :=
  mkFlowQueue (point q) (start_frame q) frame (camera q) (z_index q)
    (label q) (done q).

Definition set_done (b : bool) (q : FlowQueue) : FlowQueue :=
  mkFlowQueue (point q) (start_frame q) (end_frame q) (camera q) (z_index q)
    (label q) b.

(** [FlowQueue.__eq__]: every field but [done]. *)
Definition FlowQueue_eq (self other : FlowQueue) : bool :=
  forallb id
    [ fst (point self) =? fst (point other);
      snd (point self) =? snd (point other);
      start_frame self =? start_frame other;
      end_frame self =? end_frame other;
      camera self =? camera other;
      z_index self =? z_index other;
      bool_decide (label self = label other) ].

(** [str(n)] for an integer, as an f-string formats it. *)
Definition str_of_int (n : Z) : string := pretty n.

(** The [h5_directory] property. *)
Definition h5_directory (self : FlowQueue) : string :=
  "/trajectory/camera_" +:+ str_of_int (camera self)
  +:+ "/z_" +:+ str_of_int (z_index self)
  +:+ "/label_" +:+ label self.

Definition get_tag (self : FlowQueue) : string :=
  "z" +:+ str_of_int (z_index self) +:+ "-" +:+ label self.

(** ** The row of the record table *)

(** One element of the structured dtype [FlowQueue.dtype]: two [i4] for the
    point, four [<i4], one [S10] and one [?].  The [S10] field is its ten
    bytes. *)
Record QRow : Type := mkQRow {
  row_point : Z * Z;
  row_start_frame : Z;
  row_end_frame : Z;
  row_camera : Z;
  row_z_index : Z;
  row_label : list ascii;
  row_done : bool
}.

Definition NUL : ascii := Ascii.zero.

(** What a freshly created or resized dataset holds. *)
Definition zero_row : QRow :=
  mkQRow (0, 0) 0 0 0 0 (replicate 10 NUL) false.

(** Assigning a Python integer to an [i4] field: numpy refuses an integer
    that does not fit in 32 signed bits with [OverflowError] (releases
    before NumPy 2 stored it wrapped around instead, with a deprecation
    warning; no property below depends on what happens out of range, other
    than that the integer is not stored as it is). *)
Definition fits_i4 (n : Z) : bool := (- 2 ^ 31 <=? n) && (n <? 2 ^ 31).

Definition to_i4 {S} (n : Z) : Py S Z :=
  if fits_i4 n then ret n else raise OverflowError.

Definition is_ascii (c : ascii) : bool := (N_of_ascii c <? 128)%N.

Definition ascii_text (s : string) : bool :=
  forallb is_ascii (list_ascii_of_string s).

(** The ten bytes of an [S10] field for the given text: the text cut after
    ten bytes and padded with NUL bytes. *)
Definition S10_bytes (s : string) : list ascii :=
  let bytes := list_ascii_of_string s in
  take 10 (bytes ++ replicate (10 - length bytes)%nat NUL).

(** Assigning a Python [str] to an [S10] field: the text is encoded as
    ASCII, which fails on any other character, and stored in ten bytes. *)
Definition to_S10 {S} (s : string) : Py S (list ascii) :=
  if ascii_text s then ret (S10_bytes s) else raise UnicodeEncodeError.

(** [FlowQueue.__array__]: the one-element record array, filled field by
    field. *)
Definition FlowQueue_array {S} (self : FlowQueue) : Py S QRow :=
  px <- to_i4 (fst (point self)) ;;
  py <- to_i4 (snd (point self)) ;;
  sf <- to_i4 (start_frame self) ;;
  ef <- to_i4 (end_frame self) ;;
  cam <- to_i4 (camera self) ;;
  z <- to_i4 (z_index self) ;;
  lbl <- to_S10 (label self) ;;
  ret (mkQRow (px, py) sf ef cam z lbl (done self)).

(** Reading an [S10] field gives its bytes without the trailing NUL
    bytes. *)
Fixpoint strip_nul (field : list ascii) : list ascii :=
  match field with
  | [] => []
  | c :: rest =>
      match strip_nul rest with
      | [] => if Ascii.eqb c NUL then [] else [c]
      | rest' => c :: rest'
      end
  end.

(** [bytes.decode()].  Bytes above 127 are never written by
    [FlowQueue_array]; a field that holds them was written by something
    else and decodes to an error or to text beyond the ASCII reading of
    [string], and the embedding reports the error. *)
Definition decode {S} (bytes : list ascii) : Py S string :=
  if forallb is_ascii bytes then ret (string_of_list_ascii bytes)
  else raise UnicodeDecodeError.

(** The body of the loop of [TrackingData.load]: one row of
    [dset[...].tolist()] turned back into a [FlowQueue]. *)
Definition FlowQueue_of_row {S} (vals : QRow) : Py S FlowQueue :=
  lbl <- decode (strip_nul (row_label vals)) ;;
  ret (mkFlowQueue (row_point vals) (row_start_frame vals)
         (row_end_frame vals) (row_camera vals) (row_z_index vals)
         lbl (row_done vals)).

(** ** The container file *)

(** Modelled from the spec: [br2_vision/data_structure/marker_positions.py]
    is not among the sources.  The marker-position metadata is an opaque
    blob that is stored alongside the record table and read back as it was
    written. *)
Definition MarkerPositions : Type := string.

(** An array of shape [(n, 2)] of integers, one pixel coordinate pair per
    frame: what a caller passes to the store and what the store returns. *)
Abbreviation trajectory := (list (Z * Z)).

Definition sentinel : Z * Z := (-1, -1).

(** A trajectory dataset has shape [(n, 2)] and dtype [np.int_], a signed
    integer of 64 bits.  HDF5 converts the integers written to a dataset to
    its type; an integer outside the range of the type is stored as the
    nearest bound. *)
Definition int64_min : Z := - 2 ^ 63.
Definition int64_max : Z := 2 ^ 63 - 1.

Definition fits_int64 (z : Z) : bool := (int64_min <=? z) && (z <=? int64_max).

Definition clip_int64 (z : Z) : Z := Z.max int64_min (Z.min z int64_max).

Definition fits_int64_row (row : Z * Z) : bool :=
  fits_int64 (fst row) && fits_int64 (snd row).

Definition clip_row (row : Z * Z) : Z * Z :=
  (clip_int64 (fst row), clip_int64 (snd row)).

(** A row of a trajectory dataset. *)
Definition int64_row : Type := { row : Z * Z | Is_true (fits_int64_row row) }.

(** The evidence that a converted row is a row of the dataset. *)
Definition clip_row_fits (row : Z * Z) :
  Is_true (fits_int64_row (clip_row row)).
Proof.
  apply Is_true_true. unfold fits_int64_row, clip_row, fits_int64, clip_int64,
    int64_min, int64_max. simpl fst. simpl snd.
  rewrite !andb_true_iff, !Z.leb_le. lia.
Qed.

(** The conversion of a row that is written. *)
Definition to_int64_row (row : Z * Z) : int64_row :=
  exist _ (clip_row row) (clip_row_fits row).

(** The rows of a dataset as integers: [np.array(dset[...])]. *)
Definition dataset_rows (dset : list int64_row) : trajectory :=
  map (@proj1_sig _ _) dset.

(** What a dataset holds after the rows of an array have been written to
    it. *)
Definition clip_rows (data : trajectory) : trajectory := map clip_row data.

(** The HDF5 file at [self.path]: the resizable dataset ["queues"] when it
    exists, the trajectory datasets by their full name, and the
    marker-position blob.  Groups carry no data of their own and are not
    represented; names are compared as strings, as HDF5 does for labels
    and prefixes without the separator ["/"]. *)
Record H5File : Type := mkH5File {
  h5_queues : option (list QRow);
  h5_datasets : gmap string (list int64_row);
  h5_markers : option MarkerPositions
}.

Definition empty_h5 : H5File := mkH5File None ∅ None.

Record TrackingData : Type := mkTrackingData {
  queues : list FlowQueue;
  marker_positions : MarkerPositions;
  inside_context : bool
}.

(** The state a method runs in: the store object and what is on disk at
    its path ([None] when there is no file). *)
Record World : Type := mkWorld {
  self : TrackingData;
  disk : option H5File
}.

Definition set_queues (qs : list FlowQueue) (w : World) : World :=
  mkWorld (mkTrackingData qs (marker_positions (self w))
             (inside_context (self w))) (disk w).

Definition set_inside_context (b : bool) (w : World) : World :=
  mkWorld (mkTrackingData (queues (self w)) (marker_positions (self w)) b)
    (disk w).

Definition set_disk (f : H5File) (w : World) : World :=
  mkWorld (self w) (Some f).

(** [h5py.File(self.path, "a")]: the file is created when it is absent. *)
Definition open_append : Py World H5File :=
  modify (fun w => set_disk (default empty_h5 (disk w)) w) ;;
  w <- get ;;
  ret (default empty_h5 (disk w)).

(** [h5py.File(self.path, "r")]. *)
Definition open_read : Py World H5File :=
  w <- get ;;
  match disk w with
  | Some h5f => ret h5f
  | None => raise OSError
  end.

(** [h5f[name][...]]: the rows of the dataset of that name, if there is
    one. *)
Definition read_dataset (h5f : H5File) (name : string) : option trajectory :=
  dataset_rows <$> h5_datasets h5f !! name.

(** The dataset [name] holds the rows [dset], converted to its type, from
    now on. *)
Definition put_dataset (name : string) (dset : trajectory) (w : World)
  : World :=
  let h5f := default empty_h5 (disk w) in
  set_disk (mkH5File (h5_queues h5f)
              (<[name := map to_int64_row dset]> (h5_datasets h5f))
              (h5_markers h5f)) w.

Definition put_queues (rows : list QRow) (w : World) : World :=
  let h5f := default empty_h5 (disk w) in
  set_disk (mkH5File (Some rows) (h5_datasets h5f) (h5_markers h5f)) w.

Definition write_dataset (name : string) (dset : trajectory) : Py World unit :=
  modify (put_dataset name dset).

Definition write_queues (rows : list QRow) : Py World unit :=
  modify (put_queues rows).

(** ** Slices *)

(** [slice(start, stop).indices(n)] for step 1, as offset and count. *)
Definition clamp_index (i : Z) (n : nat) : Z :=
  if i <? 0 then Z.max (i + Z.of_nat n) 0 else Z.min i (Z.of_nat n).

Definition slice_bounds (start stop : Z) (n : nat) : nat * nat :=
  let s := clamp_index start n in
  let e := clamp_index stop n in
  (Z.to_nat s, Z.to_nat (e - s)).

(** [dset[start:stop]]. *)
Definition read_slice (start stop : Z) (dset : trajectory) : trajectory :=
  let '(s, c) := slice_bounds start stop (length dset) in
  take c (drop s dset).

(** [dset[start:stop] = data] in h5py.  [Dataset.__setitem__] returns as
    soon as it finds that the selection has no element, before it compares
    the shape of the data with it, so an empty selection writes nothing
    whatever the data; otherwise the data must have as many rows as the
    selection, or a single row, which is repeated. *)
Definition write_slice {S} (start stop : Z) (data dset : trajectory)
  : Py S trajectory :=
  let '(s, c) := slice_bounds start stop (length dset) in
  if Nat.eqb c 0 then ret dset
  else if Nat.eqb (length data) c
  then ret (take s dset ++ data ++ drop (s + c) dset)
  else match data with
       | [row] => ret (take s dset ++ replicate c row ++ drop (s + c) dset)
       | _ => raise TypeError
       end.

(** [trajectory[:k] = -1] and [trajectory[k:] = -1] on a numpy array. *)
Definition fill_before (k : Z) (traj : trajectory) : trajectory :=
  let c := Z.to_nat (clamp_index k (length traj)) in
  replicate c sentinel ++ drop c traj.

Definition fill_from (k : Z) (traj : trajectory) : trajectory :=
  let s := Z.to_nat (clamp_index k (length traj)) in
  take s traj ++ replicate (length traj - s)%nat sentinel.

(** ** Paths *)

(** ["/" in s]. *)
Fixpoint has_slash (s : string) : bool :=
  match s with
  | EmptyString => false
  | String c rest => Ascii.eqb c "/" || has_slash rest
  end.

(** [p[:p.rfind("/") + 1]]. *)
Fixpoint up_to_last_slash (p : string) : string :=
  match p with
  | EmptyString => EmptyString
  | String c rest =>
      if has_slash rest then String c (up_to_last_slash rest)
      else if Ascii.eqb c "/" then String c EmptyString
      else EmptyString
  end.

(** [head == "/" * len(head)]. *)
Fixpoint all_slashes (head : string) : bool :=
  match head with
  | EmptyString => true
  | String c rest => Ascii.eqb c "/" && all_slashes rest
  end.

(** [head.rstrip("/")]. *)
Fixpoint rstrip_slash (head : string) : string :=
  match head with
  | EmptyString => EmptyString
  | String c rest =>
      match rstrip_slash rest with
      | EmptyString =>
          if Ascii.eqb c "/" then EmptyString else String c EmptyString
      | stripped => String c stripped
      end
  end.

(** [os.path.dirname] of [posixpath]. *)
Definition dirname (p : string) : string :=
  let head := up_to_last_slash p in
  if negb (bool_decide (head = EmptyString)) && negb (all_slashes head)
  then rstrip_slash head
  else head.

(** [os.makedirs(name, exist_ok=True)]: the directories of [name] are made
    if they are missing; an empty name, which is what [dirname] gives for a
    path without a directory part, is refused with [FileNotFoundError].
    Directories hold nothing that the store reads, and are not
    represented. *)
Definition makedirs {S} (name : string) : Py S unit :=
  if bool_decide (name = EmptyString) then raise FileNotFoundError
  else ret tt.

(** ** TrackingData *)

(** The decorator: the wrapped method runs only inside the context. *)
Definition raise_if_outside_context {A} (method : Py World A) : Py World A :=
  w <- get ;;
  if negb (inside_context (self w)) then raise Exception else method.

Definition all_done : Py World bool :=
  raise_if_outside_context (
    w <- get ;;
    if Nat.eqb (length (queues (self w))) 0 then ret true
    else ret (forallb done (queues (self w)))).

(** [sorted(set(...))]. *)
Definition iter_cameras : Py World (list Z) :=
  raise_if_outside_context (
    w <- get ;;
    ret (merge_sort Z.le (remove_dups (map camera (queues (self w)))))).

Definition dataset_name (flow_queue : FlowQueue) (prefix : string) : string :=
  h5_directory flow_queue +:+ "/" +:+ prefix.

Definition save_pixel_flow_trajectory (data : trajectory)
    (flow_queue : FlowQueue) (size : option Z) (prefix : string)
    (full_trajectory : bool) : Py World unit :=
  raise_if_outside_context (
    h5f <- open_append ;;
    let name := dataset_name flow_queue prefix in
    dset <- match read_dataset h5f name with
            | Some dset =>
                match size with
                | Some n => assert (Z.of_nat (length dset) =? n)
                | None => ret tt
                end ;;
                ret dset
            | None =>
                assert (bool_decide (size ≠ None)) ;;
                let n := default 0 size in
                if n <? 0 then raise ValueError
                else
                  let dset := replicate (Z.to_nat n) sentinel in
                  write_dataset name dset ;;
                  ret dset
            end ;;
    if full_trajectory then
      assert (Nat.eqb (length dset) (length data)) ;;
      write_dataset name data
    else
      assert (end_frame flow_queue - start_frame flow_queue
              =? Z.of_nat (length data)) ;;
      dset' <- write_slice (start_frame flow_queue) (end_frame flow_queue)
                 data dset ;;
      write_dataset name dset').

Definition load_pixel_flow_trajectory (flow_queue : FlowQueue)
    (prefix : string) (full_trajectory : bool) : Py World trajectory :=
  raise_if_outside_context (
    h5f <- open_read ;;
    match read_dataset h5f (dataset_name flow_queue prefix) with
    | None => raise KeyError
    | Some dset =>
        if full_trajectory then ret dset
        else ret (read_slice (start_frame flow_queue) (end_frame flow_queue)
                    dset)
    end).

(** The loop of [trim_trajectory] from position [idx] on.  [todo] is the
    part of [self.queues] not yet visited; the assignment to the visited
    record's frame is an update of the list at its position, since the list
    holds the object itself. *)
Fixpoint trim_loop (tag : string) (frame : Z) (prefix : string)
    (reverse : bool) (idx : nat) (todo : list FlowQueue) : Py World unit :=
  match todo with
  | [] => ret tt
  | q :: rest =>
      (if bool_decide (get_tag q = tag)
          && (frame >=? start_frame q) && (frame <=? end_frame q)
       then
         let relative_frame := frame - start_frame q in
         traj <- load_pixel_flow_trajectory q prefix false ;;
         if reverse then
           save_pixel_flow_trajectory (fill_before relative_frame traj) q
             None prefix false ;;
           modify (fun w =>
             set_queues (<[idx := set_start_frame frame q]> (queues (self w))) w)
         else
           save_pixel_flow_trajectory (fill_from relative_frame traj) q
             None prefix false ;;
           modify (fun w =>
             set_queues (<[idx := set_end_frame frame q]> (queues (self w))) w)
       else ret tt) ;;
      trim_loop tag frame prefix reverse (S idx) rest
  end.

Definition trim_trajectory (tag : string) (frame : Z) (prefix : string)
    (reverse : bool) : Py World unit :=
  raise_if_outside_context (
    w <- get ;;
    trim_loop tag frame prefix reverse 0 (queues (self w))).

(** Modelled from the spec: [MarkerPositions.from_h5] and [to_h5] are not
    among the sources; they read and write the blob kept in the file. *)
Definition from_h5 {S} (h5f : H5File) : Py S MarkerPositions :=
  match h5_markers h5f with
  | Some m => ret m
  | None => raise KeyError
  end.

Fixpoint load_rows {S} (rows : list QRow) : Py S (list FlowQueue) :=
  match rows with
  | [] => ret []
  | vals :: rest =>
      fq <- FlowQueue_of_row vals ;;
      fqs <- load_rows rest ;;
      ret (fq :: fqs)
  end.

(** The class method [load], given what is on disk at [path]. *)
Definition load (on_disk : option H5File) : outcome TrackingData :=
  match on_disk with
  | None => Raise AssertionError
  | Some h5f =>
      snd ((m <- from_h5 h5f ;;
            match h5_queues h5f with
            | None => raise KeyError
            | Some rows =>
                qs <- load_rows rows ;;
                ret (mkTrackingData qs m false)
            end) tt)
  end.


(** [create_template]; [path] is [self.path], which no method assigns. *)
Definition create_template (path : string) : Py World unit :=
  raise_if_outside_context (
    makedirs (dirname path) ;;
    modify (fun w => set_disk (mkH5File (Some [zero_row]) ∅ None) w) ;;
    modify (fun w => set_disk (mkH5File (Some [zero_row]) ∅
                                 (Some (marker_positions (self w)))) w)).

Definition enter (path : string) : Py World unit :=
  modify (set_inside_context true) ;;
  w <- get ;;
  match disk w with
  | None => create_template path
  | Some _ => ret tt
  end.

(** [dset.resize((n,))]: rows beyond [n] are dropped, missing rows are
    filled with the default. *)
Definition resize (n : nat) (rows : list QRow) : list QRow :=
  take n (rows ++ replicate (n - length rows)%nat zero_row).

Fixpoint flush_loop (idx : nat) (todo : list FlowQueue) : Py World unit :=
  match todo with
  | [] => ret tt
  | q :: rest =>
      row <- FlowQueue_array q ;;
      h5f <- open_append ;;
      write_queues (<[idx := row]> (default [] (h5_queues h5f))) ;;
      flush_loop (S idx) rest
  end.

(** [__exit__]. *)
Definition exit : Py World unit :=
  h5f <- open_append ;;
  match h5_queues h5f with
  | None => raise KeyError
  | Some rows =>
      w <- get ;;
      write_queues (resize (length (queues (self w))) rows) ;;
      flush_loop 0 (queues (self w)) ;;
      modify (set_inside_context false)
  end.

(** [self.queues.index(value)]: the position of the first equal element. *)
Fixpoint index (value : FlowQueue) (l : list FlowQueue) : option nat :=
  match l with
  | [] => None
  | x :: rest =>
      if FlowQueue_eq x value then Some 0%nat
      else S <$> index value rest
  end.

Definition append (value : FlowQueue) : Py World unit :=
  raise_if_outside_context (
    w <- get ;;
    if existsb (fun x => FlowQueue_eq x value) (queues (self w)) then
      match index value (queues (self w)) with
      | Some idx => modify (set_queues (<[idx := value]> (queues (self w))))
      | None => raise ValueError
      end
    else modify (set_queues (queues (self w) ++ [value]))).

Fixpoint filter_loop (camera_ start_frame_ : option Z) (force_run_all : bool)
    (tag_ : option string) (todo ret_ : list FlowQueue) : list FlowQueue :=
  match todo with
  | [] => ret_
  | queue :: rest =>
      let continue := filter_loop camera_ start_frame_ force_run_all tag_ rest in
      if bool_decide (camera_ ≠ None)
         && negb (camera queue =? default 0 camera_)
      then continue ret_
      else if bool_decide (start_frame_ ≠ None)
         && negb (start_frame queue =? default 0 start_frame_)
      then continue ret_
      else if bool_decide (tag_ ≠ None)
         && negb (bool_decide (get_tag queue = default "" tag_))
      then continue ret_
      else if done queue && negb force_run_all
      then continue ret_
      else continue (ret_ ++ [queue])
  end.

Definition get_flow_queues (camera_ start_frame_ : option Z)
    (force_run_all : bool) (tag_ : option string)
  : Py World (list FlowQueue) :=
  raise_if_outside_context (
    w <- get ;;
    ret (filter_loop camera_ start_frame_ force_run_all tag_
           (queues (self w)) [])).

(** ** Specification-side definitions *)

(** The selection as the specification words it: every filter that is
    given matches, and the record is not done unless [force_run_all]. *)
Definition selected (camera_ start_frame_ : option Z) (force_run_all : bool)
    (tag_ : option string) (q : FlowQueue) : bool :=
  match camera_ with Some c => camera q =? c | None => true end
  && match start_frame_ with Some s => start_frame q =? s | None => true end
  && match tag_ with Some t => bool_decide (get_tag q = t) | None => true end
  && (negb (done q) || force_run_all).

(** The world once the file has been opened in append mode, and the
    trajectory datasets of the file (none when there is no file). *)
Definition opened (w : World) : World :=
  set_disk (default empty_h5 (disk w)) w.

Definition datasets (w : World) : gmap string trajectory :=
  dataset_rows <$> h5_datasets (default empty_h5 (disk w)).

(** The guard of the loop of [trim_trajectory]. *)
Definition trim_matches (tag : string) (frame : Z) (q : FlowQueue) : bool :=
  bool_decide (get_tag q = tag)
  && (frame >=? start_frame q) && (frame <=? end_frame q).

(** The record after it has been trimmed at [frame]. *)
Definition trim_record (tag : string) (frame : Z) (reverse : bool)
    (q : FlowQueue) : FlowQueue :=
  if trim_matches tag frame q
  then if reverse then set_start_frame frame q else set_end_frame frame q
  else q.

(** Row [i] of the dataset lies in the part of the span of [q] that a trim
    at [frame] erases: from [frame] to the end of the span, or, in reverse,
    from the start of the span up to [frame]. *)
Definition erased (reverse : bool) (frame : Z) (q : FlowQueue) (i : nat)
  : bool :=
  if reverse
  then (start_frame q <=? Z.of_nat i) && (Z.of_nat i <? frame)
  else (frame <=? Z.of_nat i) && (Z.of_nat i <? end_frame q).

(** The dataset of [q] after [q] alone has been trimmed. *)
Definition trim_one (reverse : bool) (frame : Z) (q : FlowQueue)
    (d : trajectory) : trajectory :=
  imap (fun i row => if erased reverse frame q i then sentinel else row) d.

(** The dataset [name] after the records [qs] have been trimmed: a row is
    the sentinel when some matching record stored under that name erases
    it, and is unchanged otherwise. *)
Definition trim_dataset (tag : string) (frame : Z) (prefix : string)
    (reverse : bool) (qs : list FlowQueue) (name : string) (d : trajectory)
  : trajectory :=
  imap (fun i row =>
          if existsb (fun q => trim_matches tag frame q
                               && bool_decide (dataset_name q prefix = name)
                               && erased reverse frame q i) qs
          then sentinel else row) d.

(** The trajectory of [q] is on disk and covers the span of [q]. *)
Definition span_stored (w : World) (q : FlowQueue) (prefix : string) : Prop :=
  disk w <> None /\
  exists d, datasets w !! dataset_name q prefix = Some d /\
            0 <= start_frame q /\ end_frame q <= Z.of_nat (length d).

(** The attribute dictionary that a successful [__init__] leaves. *)
Definition built (point start_frame end_frame camera z_index label done : value)
  : object :=
  <["__initialized__" := VBool true]>
  (<["done" := done]>
  (<["label" := label]>
  (<["z_index" := z_index]>
  (<["camera" := camera]>
  (<["end_frame" := end_frame]>
  (<["start_frame" := start_frame]>
  (<["point" := point]> ∅))))))).

(** The arguments of the constructor with the fields they initialise, in
    declaration order, and the fault of the first argument that the type
    check refuses. *)
Definition init_args
    (point start_frame end_frame camera z_index label done : value)
  : list (string * value) :=
  [("point", point); ("start_frame", start_frame); ("end_frame", end_frame);
   ("camera", camera); ("z_index", z_index); ("label", label);
   ("done", done)].

Fixpoint first_fault (args : list (string * value)) : option exn :=
  match args with
  | [] => None
  | (name, v) :: rest =>
      match type_check name v with
      | Some e => Some e
      | None => first_fault rest
      end
  end.

(** The assignments of [__init__] as a loop over its arguments, followed
    by [rest], and the dictionary they leave when all are accepted. *)
Fixpoint assign_all (args : list (string * value)) (rest : Py object unit)
  : Py object unit :=
  match args with
  | [] => rest
  | (name, v) :: args' => setattr name v ;; assign_all args' rest
  end.

Definition inserts (args : list (string * value)) (self : object) : object :=
  fold_left (fun o a => <[fst a := snd a]> o) args self.

(** The row that [FlowQueue_array] gives when it succeeds. *)
Definition stored_row (q : FlowQueue) : QRow :=
  mkQRow (point q) (start_frame q) (end_frame q) (camera q) (z_index q)
    (S10_bytes (label q)) (done q).

(** The rows of a list of records, or the first exception of their
    conversion. *)
Fixpoint rows_of (qs : list FlowQueue) : outcome (list QRow) :=
  match qs with
  | [] => Return []
  | q :: rest =>
      match snd (FlowQueue_array q tt) with
      | Raise e => Raise e
      | Return row =>
          match rows_of rest with
          | Raise e => Raise e
          | Return rows => Return (row :: rows)
          end
      end
  end.

(** A record fits the row layout: every integer fits in an [i4] field and
    the label is ASCII text of at most ten bytes that does not end in a NUL
    byte. *)
Definition fits_row (q : FlowQueue) : bool :=
  fits_i4 (fst (point q)) && fits_i4 (snd (point q))
  && fits_i4 (start_frame q) && fits_i4 (end_frame q)
  && fits_i4 (camera q) && fits_i4 (z_index q)
  && ascii_text (label q)
  && (length (list_ascii_of_string (label q)) <=? 10)%nat
  && bool_decide (strip_nul (list_ascii_of_string (label q))
                  = list_ascii_of_string (label q)).

(** A record can be written as a row: every integer fits in an [i4] field
    and the label is ASCII text, of any length. *)
Definition convertible (q : FlowQueue) : bool :=
  fits_i4 (fst (point q)) && fits_i4 (snd (point q))
  && fits_i4 (start_frame q) && fits_i4 (end_frame q)
  && fits_i4 (camera q) && fits_i4 (z_index q)
  && ascii_text (label q).

(** What is left of a label that went through an [S10] field: its first
    ten bytes, without the NUL bytes at their end. *)
Definition stored_label (s : string) : string :=
  string_of_list_ascii (strip_nul (take 10 (list_ascii_of_string s))).

(** The record with its label as the [S10] field gives it back and every
    other field as it is. *)
Definition read_back (q : FlowQueue) : FlowQueue :=
  mkFlowQueue (point q) (start_frame q) (end_frame q) (camera q) (z_index q)
    (stored_label (label q)) (done q).

(** The record table on disk (none when there is no file or no table). *)
Definition table (w : World) : option (list QRow) :=
  h5_queues (default empty_h5 (disk w)).

(** ** Example stores *)

Definition fresh_file : H5File :=
  mkH5File (Some [zero_row]) ∅ (Some "markers").

(** Two records of the same marker seen by cameras 0 and 1, each with a
    six-frame trajectory on disk. *)
Definition cam0 : FlowQueue := mkFlowQueue (1, 1) 1 4 0 0 "m0" false.
Definition cam1 : FlowQueue := mkFlowQueue (5, 5) 1 4 1 0 "m0" false.

Definition two_cameras : World :=
  put_dataset (dataset_name cam1 "xy")
    [(50, 50); (51, 51); (52, 52); (53, 53); (54, 54); (55, 55)]
    (put_dataset (dataset_name cam0 "xy")
       [(10, 10); (11, 11); (12, 12); (13, 13); (14, 14); (15, 15)]
       (mkWorld (mkTrackingData [cam0; cam1] "markers" true)
          (Some fresh_file))).

(** A record whose span [3, 8) reaches beyond a five-frame video. *)
Definition beyond_end : FlowQueue := mkFlowQueue (1, 1) 3 8 0 0 "m0" false.

Definition five_rows : trajectory :=
  [(1, 1); (2, 2); (3, 3); (4, 4); (5, 5)].

Definition acquired_fresh (qs : list FlowQueue) : World :=
  mkWorld (mkTrackingData qs "markers" true) (Some fresh_file).

(** A record whose label ends in a NUL byte. *)
Definition nul_label : FlowQueue :=
  mkFlowQueue (1, 1) 0 10 0 0 (String "m" (String NUL EmptyString)) false.

(** A record with a label of twelve bytes. *)
Definition long_label : FlowQueue :=
  mkFlowQueue (1, 1) 0 10 0 0 "marker-00012" false.

(** A record with a label of twelve bytes, one of them outside ASCII. *)
Definition long_accented_label : FlowQueue :=
  mkFlowQueue (1, 1) 0 10 0 0
    (String "m" (String (ascii_of_nat 233) "rker-00012")) false.

(** ** Definitions for the further properties *)

(** The collection after [append]: the first equal record replaced, or
    the record added at the end. *)
Definition upsert (value : FlowQueue) (qs : list FlowQueue) : list FlowQueue :=
  match index value qs with
  | Some idx => <[idx := value]> qs
  | None => qs ++ [value]
  end.

(** No two records at different positions are equal for [__eq__]. *)
Definition pairwise_distinct (qs : list FlowQueue) : Prop :=
  forall (i j : nat) x y,
    i <> j -> qs !! i = Some x -> qs !! j = Some y -> FlowQueue_eq x y = false.


(** A record whose label has a character outside ASCII. *)
Definition accented_label : FlowQueue :=
  mkFlowQueue (1, 1) 0 10 0 0
    (String "m" (String (ascii_of_nat 233) EmptyString)) false.

(** The record table and the marker positions on disk are the same in
    both worlds. *)
Definition same_table (w w' : World) : Prop :=
  table w' = table w /\
  h5_markers (default empty_h5 (disk w'))
  = h5_markers (default empty_h5 (disk w)).

(** Every trajectory dataset of the first world is still there in the
    second, with as many rows. *)
Definition same_shapes (w w' : World) : Prop :=
  forall name (d : trajectory),
    datasets w !! name = Some d ->
    exists d' : trajectory,
      datasets w' !! name = Some d' /\ length d' = length d.

(** The string has no ["-"]. *)
Fixpoint dash_free (s : string) : bool :=
  match s with
  | EmptyString => true
  | String c rest => negb (Ascii.eqb c "-") && dash_free rest
  end.

(** What a trajectory operation may not touch: the marker positions and
    the context flag of the store, the number of records, the record table
    and the marker positions on disk, and the presence and the number of
    rows of every trajectory dataset. *)
Definition untouched (w w' : World) : Prop :=
  marker_positions (self w') = marker_positions (self w) /\
  inside_context (self w') = inside_context (self w) /\
  length (queues (self w')) = length (queues (self w)) /\
  same_table w w' /\ same_shapes w w'.

(** ** The cropping script *)

(** A region of interest [(x, y, width, height)], as the [-roi] option and
    [select_roi] give it. *)
Definition ROI : Type := Z * Z * Z * Z.

(** The [PATHS] section of the configuration that [br2_vision.load_config]
    returns.  The video entries are templates: the field gives the entry
    filled in for a camera id by [str.format]. *)
Class Config : Type := mkConfig {
  raw_video_path : Z -> string;
  undistorted_video_path : Z -> string;
  synchronized_video_path : Z -> string;
  cropped_video_path : Z -> string;
  fisheye_configuration : string
}.

(** What [script/crop_video.py] sees of its surroundings besides the
    configuration: which files exist ([os.path.exists]), and what the
    interactive [select_roi] answers at its n-th call: [None] or a
    region. *)
Class CropEnv : Type := mkCropEnv {
  path_exists : string -> bool;
  select_roi : nat -> string -> option ROI
}.

(** What the script does to its surroundings: the number of calls of
    [select_roi] made and the shell commands run, in order. *)
Record Shell : Type := mkShell {
  selections : nat;
  commands : list string
}.

(** [sep.join(items)]. *)
Definition join (sep : string) (items : list string) : string :=
  String.concat sep items.

(** [crop_video]: the command line is built and run through the shell. The
    exit status of the command, which the function returns, is dropped by
    its only caller and is not modelled. *)
Definition crop_video (position section : Z * Z)
    (input_path output_path : string) : Py Shell unit :=
  let '(width, height) := section in
  let '(x, y) := position in
  let command := ["ffmpeg"; "-y"] in
  let command := command ++ ["-i"; input_path] in
  let command :=
    command ++ ["-vf"; "crop=" +:+ str_of_int width +:+ ":"
                       +:+ str_of_int height +:+ ":" +:+ str_of_int x
                       +:+ ":" +:+ str_of_int y] in
  let command := command ++ [output_path] in
  let command := join " " command in
  modify (fun sh => mkShell (selections sh) (commands sh ++ [command])).

(** The first loop of [process] when no region is given: one selection per
    camera, kept in the dictionary [rois]. *)
Fixpoint select_loop `{CropEnv} (video_path : Z -> string) (cam_id : list Z)
    (rois : gmap Z (option ROI)) : Py Shell (gmap Z (option ROI)) :=
  match cam_id with
  | [] => ret rois
  | cid :: rest =>
      assert (path_exists (video_path cid)) ;;
      sh <- get ;;
      let r := select_roi (selections sh) (video_path cid) in
      modify (fun sh => mkShell (S (selections sh)) (commands sh)) ;;
      select_loop video_path rest (<[cid := r]> rois)
  end.

(** The first loop of [process] when a region is given. *)
Fixpoint assign_loop (roi : ROI) (cam_id : list Z)
    (rois : gmap Z (option ROI)) : gmap Z (option ROI) :=
  match cam_id with
  | [] => rois
  | cid :: rest => assign_loop roi rest (<[cid := Some roi]> rois)
  end.

(** The second loop of [process]; subscripting a region that is [None]
    raises [TypeError]. *)
Fixpoint crop_loop (video_path output_path : Z -> string) (cam_id : list Z)
    (rois : gmap Z (option ROI)) : Py Shell unit :=
  match cam_id with
  | [] => ret tt
  | i :: rest =>
      match rois !! i with
      | None => raise KeyError
      | Some None => raise TypeError
      | Some (Some (x, y, width, height)) =>
          let positions := (x, y) in
          let section := (width, height) in
          crop_video positions section (video_path i) (output_path i) ;;
          crop_loop video_path output_path rest rois
      end
  end.

(** [process], the command of the script. *)
Definition process `{Config} `{CropEnv} (cam_id : list Z)
    (skip_synch : bool) (roi : option ROI) (verbose dry : bool)
  : Py Shell unit :=
  let video_path :=
    if skip_synch then undistorted_video_path else synchronized_video_path in
  let output_path := cropped_video_path in
  rois <- match roi with
          | None => select_loop video_path cam_id ∅
          | Some roi => ret (assign_loop roi cam_id ∅)
          end ;;
  crop_loop video_path output_path cam_id rois.

(** The command line that crops the video of camera [i] to a region. *)
Definition crop_command (video_path output_path : Z -> string) (roi : ROI)
    (i : Z) : string :=
  let '(x, y, width, height) := roi in
  "ffmpeg -y -i " +:+ video_path i +:+ " -vf crop=" +:+ str_of_int width
  +:+ ":" +:+ str_of_int height +:+ ":" +:+ str_of_int x +:+ ":"
  +:+ str_of_int y +:+ " " +:+ output_path i.

(** An example of surroundings: the video of camera 1 is missing, and the
    second selection is cancelled. *)
Definition example_config : Config :=
  mkConfig (fun cid => "raw/cam" +:+ str_of_int cid +:+ ".mp4")
    (fun cid => "undistorted/cam" +:+ str_of_int cid +:+ ".mp4")
    (fun cid => "synchronized/cam" +:+ str_of_int cid +:+ ".mp4")
    (fun cid => "cropped/cam" +:+ str_of_int cid +:+ ".mp4")
    "fisheye.npz".

Definition example_env : CropEnv :=
  mkCropEnv (fun path => negb (bool_decide (path = "synchronized/cam1.mp4")))
    (fun n _ => if Nat.eqb n 1 then None else Some (10, 20, 300, 400)).

(** ** The undistortion script *)

(** What [script/undistort_rotate_video.py] uses of OpenCV and of
    [br2_vision.undistort], which are not among the sources: the type of a
    frame, [frame.shape[:2]] as (height, width), [undistort(frame, width,
    height, calibration_file)], [cv2.rotate], [cv2.resize(frame, (width,
    height))], and [getattr(cv2, name, None)] for the name of a rotation
    code. *)
Class OpenCV : Type := mkOpenCV {
  Frame : Type;
  frame_shape : Frame -> nat * nat;
  undistort : Frame -> nat -> nat -> string -> Frame;
  cv2_rotate : Frame -> Z -> Frame;
  cv2_resize : Frame -> nat * nat -> Frame;
  cv2_getattr : string -> option Z
}.

Definition ROTATE_90_CLOCKWISE : Z := 0.
Definition ROTATE_90_COUNTERCLOCKWISE : Z := 2.

(** A file: a video that [cv2.VideoCapture] can open, with its frame width
    and height and its frames, or anything else. *)
Inductive File `{OpenCV} : Type :=
  | VideoFile (width height : nat) (frames : list Frame)
  | OtherFile.

Definition process_frame `{OpenCV} (frame : Frame) (calibration_file : string)
    (rotate : option Z) : Frame :=
  let '(height, width) := frame_shape frame in
  let frame := undistort frame width height calibration_file in
  match rotate with
  | Some code => cv2_rotate frame code
  | None => frame
  end.

(** The [for] loop that collects a chunk: at most [n] frames are read from
    the video; [done_flag] is set when a read fails.  The result is the
    chunk, the frames not read yet and the flag. *)
Fixpoint read_chunk {A} (n : nat) (video : list A) : list A * list A * bool :=
  match n with
  | O => ([], video, false)
  | S n' =>
      match video with
      | [] => ([], [], true)
      | frame :: rest =>
          let '(chunk, rest', done_flag) := read_chunk n' rest in
          (frame :: chunk, rest', done_flag)
      end
  end.

(** The body of [if len(chunk) > 0]: the frames of the chunk are processed
    by the pool, in order; the shape of the first result, the image of the
    first frame of the chunk, is checked; every result is resized and
    written.  The result is what has been written to
    the output so far. *)
Definition write_chunk `{OpenCV} (func : Frame -> Frame)
    (frame_width frame_height : nat) (chunk written : list Frame)
  : list Frame * outcome unit :=
  match chunk with
  | [] => (written, Return tt)
  | frame0 :: _ =>
      let results := map func chunk in
      let shape := frame_shape (func frame0) in
      if Nat.eqb (fst shape) frame_height && Nat.eqb (snd shape) frame_width
      then (written
            ++ map (fun frame =>
                      cv2_resize frame (frame_width, frame_height)) results,
            Return tt)
      else (written, Raise AssertionError)
  end.

(** The [while not done_flag] loop, which need not end: [None] when the
    loop is still running after [fuel] rounds. *)
Fixpoint write_loop `{OpenCV} (fuel : nat) (n : nat) (func : Frame -> Frame)
    (frame_width frame_height : nat) (video written : list Frame)
  : option (list Frame * outcome unit) :=
  match fuel with
  | O => None
  | S fuel' =>
      let '(chunk, rest, done_flag) := read_chunk n video in
      match write_chunk func frame_width frame_height chunk written with
      | (written', Raise e) => Some (written', Raise e)
      | (written', Return _) =>
          if done_flag then Some (written', Return tt)
          else write_loop fuel' n func frame_width frame_height rest written'
      end
  end.

(** The loop over the cameras.  [files] maps the paths that exist to their
    files.  [cv2.VideoWriter] creates the output file, to which the frames
    are then written; [mp.Pool] raises [ValueError] when it is asked for
    fewer than one process. *)
Fixpoint camera_loop `{Config} `{OpenCV} (fuel : nat)
    (cv2_rotation : option Z) (dry : bool) (processes chunksize : Z)
    (overwrite : bool) (cam_id : list Z) (files : gmap string File)
  : option (gmap string File * outcome unit) :=
  match cam_id with
  | [] => Some (files, Return tt)
  | cid :: rest =>
      let continue :=
        camera_loop fuel cv2_rotation dry processes chunksize overwrite rest in
      let video_path := raw_video_path cid in
      let save_path := undistorted_video_path cid in
      let after_check (files : gmap string File) :=
        if dry then continue files
        else
          match files !! video_path with
          | Some (VideoFile width height frames) =>
              let '(frame_width, frame_height) :=
                if bool_decide (cv2_rotation = Some ROTATE_90_CLOCKWISE)
                   || bool_decide
                        (cv2_rotation = Some ROTATE_90_COUNTERCLOCKWISE)
                then (height, width) else (width, height) in
              let files :=
                <[save_path := VideoFile frame_width frame_height []]> files in
              if processes <? 1 then Some (files, Raise ValueError)
              else
                let func frame :=
                  process_frame frame fisheye_configuration cv2_rotation in
                match write_loop fuel (Z.to_nat (chunksize * processes)) func
                        frame_width frame_height frames [] with
                | None => None
                | Some (written, o) =>
                    let files :=
                      <[save_path :=
                          VideoFile frame_width frame_height written]> files in
                    match o with
                    | Raise e => Some (files, Raise e)
                    | Return _ => continue files
                    end
                end
          | _ => continue files
          end in
      if bool_decide (is_Some (files !! save_path)) then
        if overwrite then after_check (delete save_path files)
        else continue files
      else after_check files
  end.

(** [undistort_and_rotate], the command of the script. *)
Definition undistort_and_rotate `{Config} `{OpenCV} (fuel : nat)
    (cam_id : list Z) (rotate : option string) (output_fps : Z)
    (verbose dry : bool) (processes chunksize : Z) (overwrite : bool)
    (files : gmap string File) : option (gmap string File * outcome unit) :=
  let cv2_rotation :=
    match rotate with
    | Some name => cv2_getattr name
    | None => None
    end in
  camera_loop fuel cv2_rotation dry processes chunksize overwrite cam_id files.

(** An example of OpenCV: a frame is its height, its width and a number;
    undistorting keeps the shape, a rotation by a quarter turn swaps height
    and width. *)
Definition example_cv : OpenCV :=
  mkOpenCV (nat * nat * Z) (fun frame => fst frame)
    (fun frame _ _ _ => frame)
    (fun frame code =>
       if bool_decide (code = 1) then frame
       else (snd (fst frame), fst (fst frame), snd frame))
    (fun frame size => (snd size, fst size, snd frame))
    (fun name =>
       if bool_decide (name = "ROTATE_90_CLOCKWISE") then Some 0
       else if bool_decide (name = "ROTATE_180") then Some 1
       else if bool_decide (name = "ROTATE_90_COUNTERCLOCKWISE") then Some 2
       else None).

(** A raw video of camera 0 of three frames, four pixels wide and three
    high, and nothing else on disk. *)
Definition example_frames : list (@Frame example_cv) :=
  [(3%nat, 4%nat, 1); (3%nat, 4%nat, 2); (3%nat, 4%nat, 3)].

Definition example_files : gmap string (@File example_cv) :=
  {[ "raw/cam0.mp4" := @VideoFile example_cv 4 3 example_frames ]}.

(** ** The search path of the visualisation script *)

(** [s.split("/")]. *)
Fixpoint split_slash (s : string) : list string :=
  match s with
  | EmptyString => [EmptyString]
  | String c rest =>
      if Ascii.eqb c "/" then EmptyString :: split_slash rest
      else match split_slash rest with
           | part :: parts => String c part :: parts
           | [] => [String c EmptyString]
           end
  end.

(** The inner loop of [include_parent_folders] over the components of the
    path, last one first: the path climbs one directory per component until
    a component is the folder looked for. *)
Fixpoint climb (parent_folder : string) (directories : list string)
    (path : string) : string :=
  match directories with
  | [] => path
  | directory :: rest =>
      if bool_decide (directory = parent_folder) then path
      else climb parent_folder rest (dirname path)
  end.

(** [include_parent_folders], on [sys.path]; [file] is
    [os.path.abspath(__file__)]. *)
Fixpoint include_parent_folders (file : string) (parent_folders : list string)
  : Py (list string) unit :=
  match parent_folders with
  | [] => ret tt
  | parent_folder :: rest =>
      let path := file in
      let path := climb parent_folder (rev (split_slash path)) path in
      modify (fun sys_path => sys_path ++ [path]) ;;
      include_parent_folders file rest
  end.

(** The absolute path with the given components, which is what
    [os.path.abspath] returns: the components are not empty and have no
    slash. *)
Definition absolute (components : list string) : string :=
  "/" +:+ join "/" components.

Definition component (c : string) : Prop :=
  c <> EmptyString /\ has_slash c = false.

(** * Properties *)

(** ** The monad *)

Lemma raise_if_outside_context_inside {A} (method : Py World A) (w : World) :
  inside_context (self w) = true ->
  raise_if_outside_context method w = method w.
Proof.
  intros Hin. unfold raise_if_outside_context, bind, get, ret.
  now rewrite Hin.
Qed.

Lemma raise_if_outside_context_outside {A} (method : Py World A) (w : World) :
  inside_context (self w) = false ->
  raise_if_outside_context method w = (w, Raise Exception).
Proof.
  intros Hout. unfold raise_if_outside_context, bind, get, ret.
  now rewrite Hout.
Qed.

(** ** The FlowQueue object *)

Lemma setattr_rejected name v self e :
  type_check name v = Some e -> setattr name v self = (self, Raise e).
Proof. intros H. unfold setattr. now rewrite H. Qed.

Lemma setattr_accepted name v self :
  type_check name v = None ->
  setattr name v self
  = (<[name := v]> self,
     if truthy (getattr (<[name := v]> self) "__initialized__")
        && bool_decide (name ∈ static_variables)
     then Raise AttributeError else Return tt).
Proof.
  intros H. unfold setattr. rewrite H. unfold bind, modify, get.
  now destruct (truthy _ && _).
Qed.

(** Before [__post_init__] has run, an accepted assignment succeeds. *)
Lemma setattr_uninitialized name v (self : object) :
  self !! "__initialized__" = None -> name <> "__initialized__" ->
  type_check name v = None ->
  setattr name v self = (<[name := v]> self, Return tt)
  /\ <[name := v]> self !! "__initialized__" = None.
Proof.
  intros Hself Hname Hv.
  assert (Hnew : <[name := v]> self !! "__initialized__" = None)
    by now rewrite lookup_insert_ne.
  split; [|exact Hnew].
  rewrite setattr_accepted by assumption.
  unfold getattr. now rewrite Hnew.
Qed.

Lemma assign_all_spec (args : list (string * value)) (rest : Py object unit) :
  forall self : object,
  self !! "__initialized__" = None ->
  Forall (fun a => fst a <> "__initialized__") args ->
  match first_fault args with
  | Some x => snd (assign_all args rest self) = Raise x
  | None => assign_all args rest self = rest (inserts args self)
            /\ inserts args self !! "__initialized__" = None
  end.
Proof.
  induction args as [|[name v] args IH]; intros self Hself Hnames; simpl.
  - auto.
  - inversion Hnames as [|? ? Hname Hrest]; subst. simpl in Hname.
    unfold bind. destruct (type_check name v) as [x|] eqn:Hv.
    + now rewrite (setattr_rejected _ _ _ _ Hv).
    + destruct (setattr_uninitialized name v self Hself Hname Hv)
        as [-> Hnew].
      apply (IH _ Hnew Hrest).
Qed.

Lemma post_init_spec (self : object) :
  self !! "__initialized__" = None ->
  post_init self = (<["__initialized__" := VBool true]> self, Return tt).
Proof.
  intros Hself. unfold post_init.
  rewrite setattr_accepted by reflexivity.
  now rewrite andb_false_r.
Qed.

Lemma new_FlowQueue_spec p s e c z l d :
  new_FlowQueue p s e c z l d
  = match first_fault (init_args p s e c z l d) with
    | Some x => Raise x
    | None => Return (built p s e c z l d)
    end.
Proof.
  unfold new_FlowQueue.
  change (init p s e c z l d)
    with (assign_all (init_args p s e c z l d) post_init).
  assert (Hnames : Forall (fun a => fst a <> "__initialized__")
                     (init_args p s e c z l d))
    by (repeat constructor; discriminate).
  pose proof (assign_all_spec (init_args p s e c z l d) post_init ∅
                eq_refl Hnames) as H.
  destruct (first_fault (init_args p s e c z l d)) as [x|].
  - destruct (assign_all _ _ ∅) as [self [x'|[]]]; simpl in H.
    + now injection H as ->.
    + discriminate H.
  - destruct H as [-> Hnone].
    now rewrite post_init_spec.
Qed.

Ltac list_cases H :=
  repeat (apply elem_of_cons in H as [->|H]); [..|inversion H].

Lemma type_check_point v :
  type_check "point" v = None <->
  exists x y, v = VTuple [x; y]
              /\ isinstance_int x = true /\ isinstance_int y = true.
Proof.
  change (type_check "point" v) with
    (match v with
     | VTuple items =>
         if negb (Nat.eqb (length items) 2) then Some AssertionError
         else if forallb isinstance_int items then None else Some TypeError
     | _ => Some TypeError
     end).
  split.
  - destruct v as [| | | |items|]; try discriminate.
    destruct items as [|x [|y [|? ?]]]; simpl; try discriminate.
    destruct (isinstance_int x) eqn:Hx, (isinstance_int y) eqn:Hy;
      try discriminate.
    intros _. now exists x, y.
  - intros (x & y & -> & Hx & Hy). simpl. now rewrite Hx, Hy.
Qed.

Lemma type_check_int name v :
  name ∈ ["start_frame"; "end_frame"; "camera"; "z_index"] ->
  type_check name v = if isinstance_int v then None else Some TypeError.
Proof. intros H. list_cases H; reflexivity. Qed.

Lemma type_check_label v :
  type_check "label" v = if isinstance_str v then None else Some TypeError.
Proof. reflexivity. Qed.

Lemma type_check_done v :
  type_check "done" v = if isinstance_bool v then None else Some TypeError.
Proof. reflexivity. Qed.

Lemma type_check_fault name v x :
  type_check name v = Some x ->
  x = TypeError \/
  (x = AssertionError /\ name = "point" /\
   exists items, v = VTuple items /\ length items <> 2%nat).
Proof.
  unfold type_check.
  destruct (decide (name = "point")) as [->|_].
  - destruct v as [| | | |items|]; try (intros [= <-]; now left).
    destruct (Nat.eqb_spec (length items) 2); simpl.
    + destruct (forallb _ _); [discriminate | intros [= <-]; now left].
    + intros [= <-]. right. eauto.
  - repeat (destruct (decide _) as [_|_];
            [match goal with
             | |- (if ?b then _ else _) = _ -> _ =>
                 destruct b; [discriminate | intros [= <-]; now left]
             end|]).
    discriminate.
Qed.

Lemma built_initialized p s e c z l d :
  built p s e c z l d !! "__initialized__" = Some (VBool true).
Proof. apply lookup_insert_eq. Qed.

Lemma built_fields p s e c z l d :
  let self := built p s e c z l d in
  getattr self "point" = Some p /\ getattr self "start_frame" = Some s /\
  getattr self "end_frame" = Some e /\ getattr self "camera" = Some c /\
  getattr self "z_index" = Some z /\ getattr self "label" = Some l /\
  getattr self "done" = Some d.
Proof. repeat split. Qed.

Lemma setattr_initialized_static (self : object) name v :
  self !! "__initialized__" = Some (VBool true) ->
  name ∈ static_variables -> type_check name v = None ->
  setattr name v self = (<[name := v]> self, Raise AttributeError).
Proof.
  intros Hinit Hname Hv. rewrite setattr_accepted by assumption.
  rewrite bool_decide_eq_true_2 by assumption.
  unfold getattr. rewrite lookup_insert_ne, Hinit; [reflexivity|].
  unfold static_variables in Hname. list_cases Hname; discriminate.
Qed.

Lemma setattr_initialized_mutable (self : object) name v :
  name ∈ ["start_frame"; "end_frame"; "done"] -> type_check name v = None ->
  setattr name v self = (<[name := v]> self, Return tt).
Proof.
  intros Hname Hv. rewrite setattr_accepted by assumption.
  replace (bool_decide (name ∈ static_variables)) with false;
    [now rewrite andb_false_r|].
  list_cases Hname; reflexivity.
Qed.

Lemma getattr_insert (self : object) name v :
  getattr (<[name := v]> self) name = Some v.
Proof. unfold getattr. now rewrite lookup_insert_eq. Qed.

Lemma getattr_insert_ne (self : object) name other v :
  other <> name -> getattr (<[name := v]> self) other = getattr self other.
Proof. intros H. unfold getattr. now rewrite lookup_insert_ne. Qed.

Lemma new_FlowQueue_built p s e c z l d self :
  new_FlowQueue p s e c z l d = Return self ->
  self = built p s e c z l d
  /\ first_fault (init_args p s e c z l d) = None.
Proof.
  rewrite new_FlowQueue_spec.
  destruct (first_fault _); [discriminate|]. now intros [= <-].
Qed.

(** C6 (as amended). The constructor checks the type of every field in
    declaration order and raises the fault of the first field that is
    refused: a type-mismatch fault, except for a tuple [point] of the
    wrong length, which fails the assertion.  Accepted are a 2-tuple of
    integers for [point], integers for [start_frame], [end_frame], [camera]
    and [z_index], a string for [label] and a boolean for [done].  After a
    successful construction each field reads back the value passed in;
    every assignment to [point], [camera], [z_index] or [label] fails, with
    the immutability fault when the value is type-correct and with the
    fault of the type check otherwise; every type-correct assignment to
    [start_frame], [end_frame] or [done] succeeds and is read back. *)
Theorem FlowQueue_fields_are_validated (p s e c z l d : value) :
  new_FlowQueue p s e c z l d
  = match first_fault (init_args p s e c z l d) with
    | Some x => Raise x
    | None => Return (built p s e c z l d)
    end /\
  (forall v, type_check "point" v = None <->
             exists x y, v = VTuple [x; y] /\ isinstance_int x = true
                         /\ isinstance_int y = true) /\
  (forall name v,
     name ∈ ["start_frame"; "end_frame"; "camera"; "z_index"] ->
     type_check name v = if isinstance_int v then None else Some TypeError) /\
  (forall v, type_check "label" v
             = if isinstance_str v then None else Some TypeError) /\
  (forall v, type_check "done" v
             = if isinstance_bool v then None else Some TypeError) /\
  (forall name v x,
     type_check name v = Some x ->
     x = TypeError \/
     (x = AssertionError /\ name = "point" /\
      exists items, v = VTuple items /\ length items <> 2%nat)) /\
  (forall self,
     new_FlowQueue p s e c z l d = Return self ->
     (getattr self "point" = Some p /\ getattr self "start_frame" = Some s /\
      getattr self "end_frame" = Some e /\ getattr self "camera" = Some c /\
      getattr self "z_index" = Some z /\ getattr self "label" = Some l /\
      getattr self "done" = Some d) /\
     (forall name v,
        name ∈ static_variables ->
        (type_check name v = None ->
         setattr name v self = (<[name := v]> self, Raise AttributeError)) /\
        (forall x, type_check name v = Some x ->
                   setattr name v self = (self, Raise x))) /\
     (forall name v,
        name ∈ ["start_frame"; "end_frame"; "done"] ->
        type_check name v = None ->
        setattr name v self = (<[name := v]> self, Return tt) /\
        getattr (<[name := v]> self) name = Some v)).
Proof.
  split; [apply new_FlowQueue_spec|].
  split; [apply type_check_point|].
  split; [apply type_check_int|].
  split; [apply type_check_label|].
  split; [apply type_check_done|].
  split; [apply type_check_fault|].
  intros self Hnew. apply new_FlowQueue_built in Hnew as [-> _].
  split; [apply built_fields|]. split.
  - intros name v Hname. split.
    + apply setattr_initialized_static; [apply built_initialized | assumption].
    + intros x. apply setattr_rejected.
  - intros name v Hname Hv. split.
    + now apply setattr_initialized_mutable.
    + apply getattr_insert.
Qed.

Lemma FlowQueue_fields_are_validated_witness :
  let self := built (VTuple [VInt 1; VInt 1]) (VInt 0) (VInt 10) (VInt 0)
                (VInt 0) (VStr "m0") (VBool false) in
  setattr "done" (VBool true) self
  = (<["done" := VBool true]> self, Return tt)
  /\ getattr (<["done" := VBool true]> self) "done" = Some (VBool true).
Proof.
  intros self.
  destruct (FlowQueue_fields_are_validated (VTuple [VInt 1; VInt 1]) (VInt 0)
              (VInt 10) (VInt 0) (VInt 0) (VStr "m0") (VBool false))
    as (_ & _ & _ & _ & _ & _ & Hself).
  destruct (Hself self eq_refl) as (_ & _ & Hmutable).
  apply Hmutable; [right; right; left | reflexivity].
Defined.

(** C6, as stated, fails: an assignment to an identity field of a value of
    the wrong type is refused by the type check, which comes first, with a
    type-mismatch fault and not with the immutability fault. *)
Lemma ill_typed_assignment_raises_type_fault :
  let self := built (VTuple [VInt 1; VInt 1]) (VInt 0) (VInt 10) (VInt 0)
                (VInt 0) (VStr "m0") (VBool false) in
  new_FlowQueue (VTuple [VInt 1; VInt 1]) (VInt 0) (VInt 10) (VInt 0)
    (VInt 0) (VStr "m0") (VBool false) = Return self
  /\ setattr "camera" (VStr "1") self = (self, Raise TypeError)
  /\ @Raise unit TypeError <> Raise AttributeError.
Proof.
  split; [reflexivity|]. split; [reflexivity | discriminate].
Qed.

(** C9. After construction, a type-correct assignment to [point],
    [camera], [z_index] or [label] raises the immutability fault, and the
    object it leaves holds the new value in that attribute: the assignment
    is made before the check and is not undone.  The other attributes are
    as they were. *)
Theorem rejected_assignment_is_kept (p s e c z l d : value) (self : object)
    (name : string) (v : value) :
  new_FlowQueue p s e c z l d = Return self ->
  name ∈ static_variables ->
  type_check name v = None ->
  exists self',
    setattr name v self = (self', Raise AttributeError) /\
    getattr self' name = Some v /\
    (forall other, other <> name -> getattr self' other = getattr self other).
Proof.
  intros Hnew Hname Hv. apply new_FlowQueue_built in Hnew as [-> _].
  exists (<[name := v]> (built p s e c z l d)). split.
  - apply setattr_initialized_static; [apply built_initialized | assumption..].
  - split; [apply getattr_insert|].
    intros other Hother. now apply getattr_insert_ne.
Qed.

Lemma rejected_assignment_is_kept_witness :
  let self := built (VTuple [VInt 1; VInt 1]) (VInt 0) (VInt 10) (VInt 0)
                (VInt 0) (VStr "m0") (VBool false) in
  getattr self "camera" = Some (VInt 0) /\
  exists self',
    setattr "camera" (VInt 3) self = (self', Raise AttributeError) /\
    getattr self' "camera" = Some (VInt 3) /\
    (forall other, other <> "camera" ->
                   getattr self' other = getattr self other).
Proof.
  intros self. split; [reflexivity|].
  apply (rejected_assignment_is_kept (VTuple [VInt 1; VInt 1]) (VInt 0)
           (VInt 10) (VInt 0) (VInt 0) (VStr "m0") (VBool false) self
           "camera" (VInt 3)).
  - reflexivity.
  - right; left.
  - reflexivity.
Defined.

(** ** Lifecycle *)

(** C5. Outside the context (before [__enter__] or after [__exit__]) every
    decorated operation raises the bare [Exception] at once and leaves both
    the store object and the container as they were. *)
Theorem outside_context_every_operation_raises (w : World) :
  inside_context (self w) = false ->
  (forall value, append value w = (w, Raise Exception)) /\
  (forall c s f t, get_flow_queues c s f t w = (w, Raise Exception)) /\
  all_done w = (w, Raise Exception) /\
  iter_cameras w = (w, Raise Exception) /\
  (forall data q size prefix full,
     save_pixel_flow_trajectory data q size prefix full w
     = (w, Raise Exception)) /\
  (forall q prefix full,
     load_pixel_flow_trajectory q prefix full w = (w, Raise Exception)) /\
  (forall tag frame prefix reverse,
     trim_trajectory tag frame prefix reverse w = (w, Raise Exception)) /\
  (forall path, create_template path w = (w, Raise Exception)).
Proof.
  intros Hout.
  repeat split; intros; now apply raise_if_outside_context_outside.
Qed.

Lemma outside_context_every_operation_raises_witness :
  let w := mkWorld (mkTrackingData [mkFlowQueue (1, 1) 0 10 0 0 "m0" false]
                      "markers" false) None in
  append (mkFlowQueue (5, 5) 0 10 0 0 "m0" false) w = (w, Raise Exception).
Proof.
  intros w.
  exact (proj1 (outside_context_every_operation_raises w eq_refl) _).
Defined.

(** ** Filtered queries *)

Lemma filter_loop_spec c s f t todo acc :
  filter_loop c s f t todo acc = acc ++ List.filter (selected c s f t) todo.
Proof.
  revert acc. induction todo as [|q rest IH]; intros acc; simpl.
  - now rewrite app_nil_r.
  - unfold selected at 1.
    destruct c as [c|], s as [s|], t as [t|]; simpl;
      repeat match goal with
             | |- context [?x =? ?y] => destruct (x =? y); simpl
             | |- context [bool_decide ?P] => destruct (bool_decide P); simpl
             end;
      destruct (done q), f; simpl; rewrite IH;
      try reflexivity; now rewrite <- app_assoc.
Qed.

(** C7. Inside the context [get_flow_queues] returns exactly the records
    that match every given filter and are not done (done records too when
    [force_run_all] is set), in the order of the collection, and changes
    nothing. *)
Theorem get_flow_queues_is_filter (w : World) c s f t :
  inside_context (self w) = true ->
  get_flow_queues c s f t w
  = (w, Return (List.filter (selected c s f t) (queues (self w)))).
Proof.
  intros Hin. unfold get_flow_queues.
  rewrite raise_if_outside_context_inside by assumption.
  unfold bind, get, ret. now rewrite filter_loop_spec.
Qed.

Lemma get_flow_queues_is_filter_witness :
  let a := mkFlowQueue (1, 1) 0 10 2 0 "m0" false in
  let b := mkFlowQueue (2, 2) 0 10 1 0 "m0" false in
  let c := mkFlowQueue (3, 3) 0 10 2 1 "m1" true in
  let w := mkWorld (mkTrackingData [a; b; c] "markers" true) None in
  get_flow_queues (Some 2) None false None w = (w, Return [a])
  /\ get_flow_queues (Some 2) None true None w = (w, Return [a; c]).
Proof.
  intros a b c w. split.
  - exact (get_flow_queues_is_filter w (Some 2) None false None eq_refl).
  - exact (get_flow_queues_is_filter w (Some 2) None true None eq_refl).
Defined.

(** ** Upsert *)

Lemma FlowQueue_eq_iff (a b : FlowQueue) :
  FlowQueue_eq a b = true <->
  point a = point b /\ start_frame a = start_frame b /\
  end_frame a = end_frame b /\ camera a = camera b /\
  z_index a = z_index b /\ label a = label b.
Proof.
  unfold FlowQueue_eq. simpl. unfold id.
  rewrite !andb_true_iff, !Z.eqb_eq, bool_decide_eq_true.
  destruct (point a) as [ax ay], (point b) as [bx by_]. simpl.
  split.
  - intros (-> & -> & ? & ? & ? & ? & ? & _). tauto.
  - intros (Hp & ? & ? & ? & ? & ?). inversion Hp. tauto.
Qed.

Lemma existsb_false_iff {A} (f : A -> bool) (l : list A) :
  existsb f l = false <-> forall x, x ∈ l -> f x = false.
Proof.
  induction l as [|y l IH]; simpl.
  - split; [intros _ x Hx; inversion Hx | reflexivity].
  - rewrite orb_false_iff, IH. split.
    + intros [Hy Hl] x Hx. apply elem_of_cons in Hx as [->|Hx]; auto.
    + intros H. split; [apply H; left | intros x Hx; apply H; now right].
Qed.

Lemma existsb_true_intro {A} (f : A -> bool) (l : list A) (x : A) :
  x ∈ l -> f x = true -> existsb f l = true.
Proof.
  intros Hx Hf. destruct (existsb f l) eqn:E; [reflexivity|].
  rewrite existsb_false_iff in E. rewrite (E x Hx) in Hf. discriminate.
Qed.

Lemma index_first (value : FlowQueue) (l : list FlowQueue) :
  existsb (fun x => FlowQueue_eq x value) l = true ->
  exists idx old,
    index value l = Some idx /\ l !! idx = Some old /\
    FlowQueue_eq old value = true /\
    forall j y, (j < idx)%nat -> l !! j = Some y -> FlowQueue_eq y value = false.
Proof.
  induction l as [|x l IH]; simpl; [discriminate|].
  destruct (FlowQueue_eq x value) eqn:Hx; simpl.
  - intros _. exists 0%nat, x. repeat split; auto. intros j y Hj. lia.
  - intros Hl. destruct (IH Hl) as (idx & old & Hi & Hold & Heq & Hbefore).
    exists (S idx), old. rewrite Hi. repeat split; auto.
    intros [|j] y Hj Hy; simpl in Hy.
    + now inversion Hy; subst.
    + apply (Hbefore j); [lia | assumption].
Qed.

Lemma append_is_upsert_cases (w : World) (value : FlowQueue) :
  inside_context (self w) = true ->
  (exists idx, (idx < length (queues (self w)))%nat /\
     append value w
     = (set_queues (<[idx := value]> (queues (self w))) w, Return tt))
  \/ append value w = (set_queues (queues (self w) ++ [value]) w, Return tt).
Proof.
  intros Hin. unfold append.
  rewrite raise_if_outside_context_inside by assumption.
  unfold bind, get, ret, modify.
  destruct (existsb _ (queues (self w))) eqn:Hex; [|now right].
  destruct (index_first value _ Hex) as (idx & old & -> & Hold & _).
  left. exists idx. split; [now apply lookup_lt_Some in Hold | reflexivity].
Qed.

(** C2. [append] is an upsert driven by [__eq__], which compares [point],
    [start_frame], [end_frame], [camera], [z_index] and [label] and not
    [done]: when the collection holds a record equal to the new one, the
    first such record is replaced at its position and the length stays;
    otherwise the record is added at the end and the length grows by one. *)
Theorem append_is_upsert (w : World) (value : FlowQueue) :
  inside_context (self w) = true ->
  let qs := queues (self w) in
  (forall a b,
     FlowQueue_eq a b = true <->
     point a = point b /\ start_frame a = start_frame b /\
     end_frame a = end_frame b /\ camera a = camera b /\
     z_index a = z_index b /\ label a = label b) /\
  (forall q b, FlowQueue_eq q (set_done b q) = true) /\
  ((exists x, x ∈ qs /\ FlowQueue_eq x value = true) ->
   exists idx old,
     qs !! idx = Some old /\ FlowQueue_eq old value = true /\
     (forall j y, (j < idx)%nat -> qs !! j = Some y ->
                  FlowQueue_eq y value = false) /\
     append value w = (set_queues (<[idx := value]> qs) w, Return tt) /\
     <[idx := value]> qs !! idx = Some value /\
     length (<[idx := value]> qs) = length qs) /\
  ((forall x, x ∈ qs -> FlowQueue_eq x value = false) ->
   append value w = (set_queues (qs ++ [value]) w, Return tt) /\
   length (qs ++ [value]) = S (length qs)).
Proof.
  intros Hin qs. split; [exact FlowQueue_eq_iff|]. split.
  { intros q b. now apply FlowQueue_eq_iff. }
  unfold append. rewrite raise_if_outside_context_inside by assumption.
  unfold bind, get, ret, modify. fold qs. split.
  - intros (x & Hx & Heq).
    assert (Hex : existsb (fun x => FlowQueue_eq x value) qs = true).
    { destruct (existsb _ qs) eqn:E; [reflexivity|].
      rewrite existsb_false_iff in E. now rewrite (E x Hx) in Heq. }
    destruct (index_first value qs Hex) as (idx & old & Hi & Hold & Ho & Hb).
    exists idx, old. rewrite Hex, Hi. repeat split; auto.
    + apply list_lookup_insert_eq. now apply lookup_lt_Some in Hold.
    + apply length_insert.
  - intros Hnone. apply existsb_false_iff in Hnone. rewrite Hnone.
    split; [reflexivity|]. rewrite length_app. simpl. lia.
Qed.

Lemma append_is_upsert_witness :
  let a := mkFlowQueue (1, 1) 0 10 0 0 "m0" false in
  let b := mkFlowQueue (5, 5) 0 10 0 0 "m0" false in
  let w := mkWorld (mkTrackingData [a; b] "markers" true) None in
  inside_context (self w) = true /\
  exists idx old,
    [a; b] !! idx = Some old /\ FlowQueue_eq old (set_done true b) = true /\
    (forall j y, (j < idx)%nat -> [a; b] !! j = Some y ->
                 FlowQueue_eq y (set_done true b) = false) /\
    append (set_done true b) w
    = (set_queues (<[idx := set_done true b]> [a; b]) w, Return tt) /\
    <[idx := set_done true b]> [a; b] !! idx = Some (set_done true b) /\
    length (<[idx := set_done true b]> [a; b]) = length [a; b].
Proof.
  intros a b w. split; [reflexivity|].
  apply (proj1 (proj2 (proj2 (append_is_upsert w (set_done true b) eq_refl)))).
  exists b. split; [right; left | reflexivity].
Defined.

(** ** Slices *)

Lemma slice_bounds_inside (start stop : Z) (n : nat) :
  0 <= start -> start <= stop -> stop <= Z.of_nat n ->
  slice_bounds start stop n = (Z.to_nat start, Z.to_nat (stop - start)).
Proof.
  intros Hs Hse He. unfold slice_bounds, clamp_index.
  destruct (Z.ltb_spec start 0), (Z.ltb_spec stop 0); try lia.
  now rewrite !Z.min_l by lia.
Qed.

Lemma write_slice_inside {S} (start stop : Z) (data dset : trajectory) (s : S) :
  0 <= start -> stop <= Z.of_nat (length dset) ->
  Z.of_nat (length data) = stop - start ->
  write_slice start stop data dset s
  = (s, Return (take (Z.to_nat start) dset ++ data
                ++ drop (Z.to_nat stop) dset)).
Proof.
  intros Hs He Hlen. unfold write_slice.
  rewrite slice_bounds_inside by lia.
  destruct (Nat.eqb_spec (Z.to_nat (stop - start)) 0) as [Hz|Hnz].
  - assert (Hd : data = []) by (apply length_zero_iff_nil; lia).
    subst data. simpl. replace (Z.to_nat stop) with (Z.to_nat start) by lia.
    now rewrite take_drop.
  - replace (length data) with (Z.to_nat (stop - start)) by lia.
    rewrite Nat.eqb_refl. unfold ret.
    replace (Z.to_nat start + Z.to_nat (stop - start))%nat
      with (Z.to_nat stop) by lia.
    reflexivity.
Qed.

Lemma read_slice_written (start stop : Z) (data dset : trajectory) :
  0 <= start -> stop <= Z.of_nat (length dset) ->
  Z.of_nat (length data) = stop - start ->
  read_slice start stop
    (take (Z.to_nat start) dset ++ data ++ drop (Z.to_nat stop) dset) = data.
Proof.
  intros Hs He Hlen. unfold read_slice.
  rewrite slice_bounds_inside;
    [| lia | lia | rewrite !length_app, length_take, length_drop; lia].
  rewrite drop_app_length' by (rewrite length_take; lia).
  apply take_app_length'. lia.
Qed.

Lemma written_length (start stop : Z) (data dset : trajectory) :
  0 <= start -> stop <= Z.of_nat (length dset) ->
  Z.of_nat (length data) = stop - start ->
  length (take (Z.to_nat start) dset ++ data ++ drop (Z.to_nat stop) dset)
  = length dset.
Proof.
  intros. rewrite !length_app, length_take, length_drop. lia.
Qed.

Lemma written_outside (start stop : Z) (data dset : trajectory) (i : nat) :
  0 <= start -> stop <= Z.of_nat (length dset) ->
  Z.of_nat (length data) = stop - start ->
  Z.of_nat i < start \/ stop <= Z.of_nat i ->
  (take (Z.to_nat start) dset ++ data ++ drop (Z.to_nat stop) dset) !! i
  = dset !! i.
Proof.
  intros Hs He Hlen [Hi|Hi].
  - rewrite lookup_app_l by (rewrite length_take; lia).
    apply lookup_take_lt. lia.
  - rewrite lookup_app_r by (rewrite length_take; lia).
    rewrite lookup_app_r by (rewrite length_take; lia).
    rewrite lookup_drop, length_take. f_equal. lia.
Qed.

(** ** Saving and loading a trajectory *)

Ltac py_unfold :=
  repeat (progress (unfold bind, get, ret, raise, modify, assert,
                      open_append, open_read, write_dataset, write_queues;
                    simpl)).

Lemma clip_int64_fits (z : Z) : fits_int64 z = true -> clip_int64 z = z.
Proof.
  unfold fits_int64, clip_int64. rewrite andb_true_iff, !Z.leb_le. lia.
Qed.

Lemma clip_row_id (row : Z * Z) :
  fits_int64_row row = true -> clip_row row = row.
Proof.
  unfold fits_int64_row, clip_row. rewrite andb_true_iff. intros [Hx Hy].
  rewrite (clip_int64_fits _ Hx), (clip_int64_fits _ Hy). now destruct row.
Qed.

Lemma clip_row_idempotent (row : Z * Z) : clip_row (clip_row row) = clip_row row.
Proof. apply clip_row_id. apply Is_true_true. apply clip_row_fits. Qed.

Lemma clip_row_sentinel : clip_row sentinel = sentinel.
Proof. reflexivity. Qed.

Lemma int64_row_eq (r1 r2 : int64_row) :
  proj1_sig r1 = proj1_sig r2 -> r1 = r2.
Proof. intros Heq. now apply (sig_eq_pi _). Qed.

Lemma int64_row_clip (r : int64_row) : clip_row (proj1_sig r) = proj1_sig r.
Proof. apply clip_row_id. apply Is_true_true. apply (proj2_sig r). Qed.

Lemma to_int64_row_proj (r : int64_row) : to_int64_row (proj1_sig r) = r.
Proof. apply int64_row_eq. apply int64_row_clip. Qed.

Lemma to_int64_row_clip (row : Z * Z) :
  to_int64_row (clip_row row) = to_int64_row row.
Proof. apply int64_row_eq. apply clip_row_idempotent. Qed.

Lemma dataset_rows_written (d : trajectory) :
  dataset_rows (map to_int64_row d) = clip_rows d.
Proof. unfold dataset_rows, clip_rows. now rewrite map_map. Qed.

Lemma written_dataset_rows (l : list int64_row) :
  map to_int64_row (dataset_rows l) = l.
Proof.
  unfold dataset_rows. rewrite map_map.
  rewrite (map_ext _ id) by (intros r; apply to_int64_row_proj).
  apply map_id.
Qed.

Lemma dataset_rows_inj (l1 l2 : list int64_row) :
  dataset_rows l1 = dataset_rows l2 -> l1 = l2.
Proof.
  intros Heq. rewrite <- (written_dataset_rows l1), Heq.
  apply written_dataset_rows.
Qed.

Lemma clip_rows_dataset_rows (l : list int64_row) :
  clip_rows (dataset_rows l) = dataset_rows l.
Proof.
  unfold clip_rows, dataset_rows. rewrite map_map.
  apply map_ext. intros r. apply int64_row_clip.
Qed.

Lemma clip_rows_length (d : trajectory) : length (clip_rows d) = length d.
Proof. apply length_map. Qed.

Lemma clip_rows_app (d1 d2 : trajectory) :
  clip_rows (d1 ++ d2) = clip_rows d1 ++ clip_rows d2.
Proof. apply map_app. Qed.

Lemma clip_rows_idempotent (d : trajectory) :
  clip_rows (clip_rows d) = clip_rows d.
Proof.
  unfold clip_rows. rewrite map_map. apply map_ext.
  intros row. apply clip_row_idempotent.
Qed.

Lemma clip_rows_take (n : nat) (d : trajectory) :
  clip_rows d = d -> clip_rows (take n d) = take n d.
Proof.
  intros Hd. unfold clip_rows in *. now rewrite <- firstn_map, Hd.
Qed.

Lemma clip_rows_drop (n : nat) (d : trajectory) :
  clip_rows d = d -> clip_rows (drop n d) = drop n d.
Proof.
  intros Hd. unfold clip_rows in *. now rewrite <- skipn_map, Hd.
Qed.

Lemma clip_rows_replicate_sentinel (n : nat) :
  clip_rows (replicate n sentinel) = replicate n sentinel.
Proof.
  induction n as [|n IH]; [reflexivity|].
  unfold clip_rows in *. simpl. now rewrite IH.
Qed.

Lemma clip_rows_fits (d : trajectory) :
  Forall (fun row => fits_int64_row row = true) d -> clip_rows d = d.
Proof.
  induction 1 as [|row d Hrow _ IH]; [reflexivity|].
  unfold clip_rows in *. simpl. now rewrite (clip_row_id row Hrow), IH.
Qed.

Lemma datasets_lookup (w : World) (name : string) :
  datasets w !! name = read_dataset (default empty_h5 (disk w)) name.
Proof. unfold datasets, read_dataset. apply lookup_fmap. Qed.

Lemma datasets_stored (w : World) (name : string) (d : trajectory) :
  datasets w !! name = Some d -> clip_rows d = d.
Proof.
  rewrite datasets_lookup. unfold read_dataset.
  destruct (h5_datasets _ !! name) as [l|]; [|discriminate].
  intros [= <-]. apply clip_rows_dataset_rows.
Qed.

Lemma put_dataset_twice name d1 d2 w :
  put_dataset name d2 (put_dataset name d1 w) = put_dataset name d2 w.
Proof.
  unfold put_dataset, set_disk. simpl. now rewrite insert_insert_eq.
Qed.

Lemma put_dataset_clip name d w :
  put_dataset name (clip_rows d) w = put_dataset name d w.
Proof.
  unfold put_dataset, clip_rows. rewrite map_map.
  now rewrite (map_ext _ _ to_int64_row_clip).
Qed.

Lemma datasets_put_dataset name d w :
  datasets (put_dataset name d w) !! name = Some (clip_rows d).
Proof.
  rewrite datasets_lookup. unfold read_dataset, put_dataset. simpl.
  rewrite lookup_insert_eq. simpl. now rewrite dataset_rows_written.
Qed.

Lemma datasets_put_dataset_stored name d w :
  clip_rows d = d -> datasets (put_dataset name d w) !! name = Some d.
Proof. intros Hd. now rewrite datasets_put_dataset, Hd. Qed.

Lemma datasets_put_dataset_ne name other d w :
  other <> name ->
  datasets (put_dataset name d w) !! other = datasets w !! other.
Proof.
  intros Hne. rewrite !datasets_lookup. unfold read_dataset, put_dataset.
  simpl. now rewrite lookup_insert_ne by congruence.
Qed.

Arguments read_dataset : simpl never.

Lemma save_span_existing w data q size prefix d :
  inside_context (self w) = true ->
  datasets w !! dataset_name q prefix = Some d ->
  size = None \/ size = Some (Z.of_nat (length d)) ->
  0 <= start_frame q -> end_frame q <= Z.of_nat (length d) ->
  Z.of_nat (length data) = end_frame q - start_frame q ->
  save_pixel_flow_trajectory data q size prefix false w
  = (put_dataset (dataset_name q prefix)
       (take (Z.to_nat (start_frame q)) d ++ data
        ++ drop (Z.to_nat (end_frame q)) d) w, Return tt).
Proof.
  intros Hin Hd Hsize Hs He Hlen. unfold save_pixel_flow_trajectory.
  rewrite raise_if_outside_context_inside by assumption.
  rewrite datasets_lookup in Hd. py_unfold. rewrite Hd.
  assert (Hchk : (end_frame q - start_frame q =? Z.of_nat (length data))
                 = true) by (apply Z.eqb_eq; lia).
  destruct Hsize as [->| ->]; [| rewrite Z.eqb_refl];
    py_unfold; rewrite Hchk; py_unfold;
    rewrite write_slice_inside by lia; reflexivity.
Qed.

Lemma save_span_fresh w data q n prefix :
  inside_context (self w) = true ->
  datasets w !! dataset_name q prefix = None ->
  0 <= start_frame q -> end_frame q <= n ->
  Z.of_nat (length data) = end_frame q - start_frame q ->
  save_pixel_flow_trajectory data q (Some n) prefix false w
  = (put_dataset (dataset_name q prefix)
       (replicate (Z.to_nat (start_frame q)) sentinel ++ data
        ++ replicate (Z.to_nat (n - end_frame q)) sentinel) w, Return tt).
Proof.
  intros Hin Hd Hs He Hlen. unfold save_pixel_flow_trajectory.
  rewrite raise_if_outside_context_inside by assumption.
  rewrite datasets_lookup in Hd. py_unfold. rewrite Hd. py_unfold.
  destruct (Z.ltb_spec n 0); [lia|]. py_unfold.
  assert (Hchk : (end_frame q - start_frame q =? Z.of_nat (length data))
                 = true) by (apply Z.eqb_eq; lia).
  rewrite Hchk. py_unfold.
  rewrite write_slice_inside by (rewrite ?length_replicate; lia).
  rewrite take_replicate, drop_replicate.
  replace (Z.to_nat (start_frame q) `min` Z.to_nat n)%nat
    with (Z.to_nat (start_frame q)) by lia.
  replace (Z.to_nat n - Z.to_nat (end_frame q))%nat
    with (Z.to_nat (n - end_frame q)) by lia.
  now rewrite put_dataset_twice.
Qed.

Lemma load_span w q prefix d :
  inside_context (self w) = true ->
  disk w <> None ->
  datasets w !! dataset_name q prefix = Some d ->
  load_pixel_flow_trajectory q prefix false w
  = (w, Return (read_slice (start_frame q) (end_frame q) d)).
Proof.
  intros Hin Hdisk Hd. unfold load_pixel_flow_trajectory.
  rewrite raise_if_outside_context_inside by assumption.
  rewrite datasets_lookup in Hd. py_unfold.
  destruct (disk w) as [h5f|]; [|congruence]. simpl in *. rewrite Hd.
  reflexivity.
Qed.

Lemma load_full w q prefix d :
  inside_context (self w) = true ->
  disk w <> None ->
  datasets w !! dataset_name q prefix = Some d ->
  load_pixel_flow_trajectory q prefix true w = (w, Return d).
Proof.
  intros Hin Hdisk Hd. unfold load_pixel_flow_trajectory.
  rewrite raise_if_outside_context_inside by assumption.
  rewrite datasets_lookup in Hd. py_unfold.
  destruct (disk w) as [h5f|]; [|congruence]. simpl in *. rewrite Hd.
  reflexivity.
Qed.

Lemma save_full w data q size prefix :
  inside_context (self w) = true ->
  match datasets w !! dataset_name q prefix with
  | Some d => length d = length data
              /\ (size = None \/ size = Some (Z.of_nat (length data)))
  | None => size = Some (Z.of_nat (length data))
  end ->
  save_pixel_flow_trajectory data q size prefix true w
  = (put_dataset (dataset_name q prefix) data w, Return tt).
Proof.
  intros Hin Hd. unfold save_pixel_flow_trajectory.
  rewrite raise_if_outside_context_inside by assumption.
  rewrite datasets_lookup in Hd. py_unfold.
  destruct (read_dataset (default empty_h5 (disk w)) (dataset_name q prefix))
    as [d|].
  - destruct Hd as [Hlen [-> | ->]]; py_unfold;
      rewrite ?Hlen, ?Z.eqb_refl; py_unfold; rewrite ?Hlen, Nat.eqb_refl;
      reflexivity.
  - subst size. py_unfold.
    destruct (Z.ltb_spec (Z.of_nat (length data)) 0); [lia|]. py_unfold.
    rewrite length_replicate, Nat2Z.id, Nat.eqb_refl. py_unfold.
    now rewrite put_dataset_twice.
Qed.

Lemma put_dataset_disk name d w : disk (put_dataset name d w) <> None.
Proof. discriminate. Qed.

(** C8. The storage path and the tag are functions of [camera], [z_index]
    and [label] alone: two records that agree on these three (whatever
    their points) have the same [h5_directory], the same dataset name and
    the same tag [z{z_index}-{label}], so saving a full trajectory through
    the one and then through the other leaves the second array in the one
    dataset they share: whichever record is used to load it, the result is
    the second array as the dataset stores it, which is the array itself
    when its integers fit in 64 bits. *)
Theorem same_group_same_dataset (a b : FlowQueue) :
  camera a = camera b -> z_index a = z_index b -> label a = label b ->
  h5_directory a = h5_directory b /\
  get_tag a = get_tag b /\
  get_tag a = "z" +:+ str_of_int (z_index a) +:+ "-" +:+ label a /\
  forall (w : World) (A B : trajectory) (prefix : string),
    inside_context (self w) = true ->
    length A = length B ->
    (forall d, datasets w !! dataset_name a prefix = Some d ->
               length d = length A) ->
    let size := Some (Z.of_nat (length A)) in
    let w1 := put_dataset (dataset_name a prefix) A w in
    let w2 := put_dataset (dataset_name a prefix) B w in
    dataset_name a prefix = dataset_name b prefix /\
    save_pixel_flow_trajectory A a size prefix true w = (w1, Return tt) /\
    load_pixel_flow_trajectory a prefix true w1
    = (w1, Return (clip_rows A)) /\
    save_pixel_flow_trajectory B b size prefix true w1 = (w2, Return tt) /\
    load_pixel_flow_trajectory a prefix true w2
    = (w2, Return (clip_rows B)) /\
    load_pixel_flow_trajectory b prefix true w2
    = (w2, Return (clip_rows B)) /\
    (Forall (fun row => fits_int64_row row = true) B -> clip_rows B = B).
Proof.
  intros Hc Hz Hl.
  assert (Hdir : h5_directory a = h5_directory b).
  { unfold h5_directory. now rewrite Hc, Hz, Hl. }
  split; [exact Hdir|]. split; [unfold get_tag; now rewrite Hz, Hl|].
  split; [reflexivity|].
  intros w A B prefix Hin Hlen Hd size w1 w2.
  assert (Hname : dataset_name a prefix = dataset_name b prefix).
  { unfold dataset_name. now rewrite Hdir. }
  split; [exact Hname|]. split.
  { apply save_full; [assumption|].
    destruct (datasets w !! dataset_name a prefix) as [d|] eqn:E.
    - split; [now apply Hd | now right].
    - reflexivity. }
  split.
  { apply load_full; [assumption | apply put_dataset_disk |
                      apply datasets_put_dataset]. }
  split.
  { subst w1 w2. rewrite <- (put_dataset_twice _ A B w), Hname.
    apply save_full; [assumption|].
    rewrite <- Hname, datasets_put_dataset. subst size.
    rewrite clip_rows_length, Hlen. split; [reflexivity | now right]. }
  split.
  { apply load_full; [assumption | apply put_dataset_disk |
                      apply datasets_put_dataset]. }
  split.
  { apply load_full; [assumption | apply put_dataset_disk |].
    rewrite <- Hname. apply datasets_put_dataset. }
  apply clip_rows_fits.
Qed.

Lemma same_group_same_dataset_witness :
  let a := mkFlowQueue (1, 1) 0 10 0 0 "m0" false in
  let b := mkFlowQueue (5, 5) 0 10 0 0 "m0" false in
  h5_directory a = h5_directory b /\ get_tag a = get_tag b.
Proof.
  intros a b.
  destruct (same_group_same_dataset a b eq_refl eq_refl eq_refl)
    as (Hdir & Htag & _).
  exact (conj Hdir Htag).
Defined.

(** C4 (as amended). Inside the context, for a record whose span lies
    within the dataset ([0 <= start_frame] and [end_frame] at most the
    number of rows) and an array [A] with [end_frame - start_frame] rows:
    when the dataset does not exist, [size] is mandatory and the dataset is
    created with [size] rows of the sentinel; [A] is written into rows
    [start_frame .. end_frame) as the dataset stores it, each integer
    brought into the range of 64 signed bits; loading the record gives the
    stored rows back, which are [A] itself when the integers of [A] fit in
    64 bits; and the rows outside the span are as before (the sentinel in a
    new dataset); an array with the wrong number of rows, for the span or
    for the full dataset, and a [size] different from the length of an
    existing dataset fail the assertion. *)
Theorem save_then_load_trajectory (w : World) (q : FlowQueue)
    (A : trajectory) (prefix : string) :
  inside_context (self w) = true ->
  Z.of_nat (length A) = end_frame q - start_frame q ->
  0 <= start_frame q ->
  let name := dataset_name q prefix in
  (Forall (fun row => fits_int64_row row = true) A -> clip_rows A = A) /\
  (datasets w !! name = None ->
   (forall data full,
      snd (save_pixel_flow_trajectory data q None prefix full w)
      = Raise AssertionError) /\
   (forall n, end_frame q <= n ->
      exists w' d',
        save_pixel_flow_trajectory A q (Some n) prefix false w
        = (w', Return tt) /\
        datasets w' !! name = Some d' /\
        d' = replicate (Z.to_nat (start_frame q)) sentinel ++ clip_rows A
             ++ replicate (Z.to_nat (n - end_frame q)) sentinel /\
        Z.of_nat (length d') = n /\
        load_pixel_flow_trajectory q prefix false w'
        = (w', Return (clip_rows A)) /\
        (forall i, Z.of_nat i < start_frame q \/ end_frame q <= Z.of_nat i ->
                   Z.of_nat i < n -> d' !! i = Some sentinel)) /\
   (forall n data, 0 <= n -> Z.of_nat (length data) <> n ->
      snd (save_pixel_flow_trajectory data q (Some n) prefix true w)
      = Raise AssertionError) /\
   (forall n data, 0 <= n ->
      Z.of_nat (length data) <> end_frame q - start_frame q ->
      snd (save_pixel_flow_trajectory data q (Some n) prefix false w)
      = Raise AssertionError)) /\
  (forall d, datasets w !! name = Some d ->
   (end_frame q <= Z.of_nat (length d) ->
    forall size, size = None \/ size = Some (Z.of_nat (length d)) ->
      exists w' d',
        save_pixel_flow_trajectory A q size prefix false w
        = (w', Return tt) /\
        datasets w' !! name = Some d' /\
        length d' = length d /\
        load_pixel_flow_trajectory q prefix false w'
        = (w', Return (clip_rows A)) /\
        (forall i, Z.of_nat i < start_frame q \/ end_frame q <= Z.of_nat i ->
                   d' !! i = d !! i)) /\
   (forall n data full, n <> Z.of_nat (length d) ->
      snd (save_pixel_flow_trajectory data q (Some n) prefix full w)
      = Raise AssertionError) /\
   (forall data size, length data <> length d ->
      snd (save_pixel_flow_trajectory data q size prefix true w)
      = Raise AssertionError) /\
   (forall data size,
      Z.of_nat (length data) <> end_frame q - start_frame q ->
      snd (save_pixel_flow_trajectory data q size prefix false w)
      = Raise AssertionError)).
Proof.
  intros Hin HlenA Hstart name. split; [apply clip_rows_fits|]. split.
  - intros Hnone. repeat split.
    + intros data full. unfold save_pixel_flow_trajectory.
      rewrite raise_if_outside_context_inside by assumption.
      rewrite datasets_lookup in Hnone. py_unfold. fold name. now rewrite Hnone.
    + intros n Hn.
      assert (Hstored :
        datasets (put_dataset name
                    (replicate (Z.to_nat (start_frame q)) sentinel ++ A
                     ++ replicate (Z.to_nat (n - end_frame q)) sentinel) w)
        !! name
        = Some (replicate (Z.to_nat (start_frame q)) sentinel ++ clip_rows A
                ++ replicate (Z.to_nat (n - end_frame q)) sentinel)).
      { now rewrite datasets_put_dataset, !clip_rows_app,
          !clip_rows_replicate_sentinel. }
      eexists _, _. split; [now apply save_span_fresh|].
      split; [exact Hstored|]. split; [reflexivity|].
      split; [rewrite !length_app, clip_rows_length, !length_replicate; lia|].
      split.
      * rewrite load_span with
          (d := replicate (Z.to_nat (start_frame q)) sentinel ++ clip_rows A
                ++ replicate (Z.to_nat (n - end_frame q)) sentinel);
          [| assumption | apply put_dataset_disk | exact Hstored].
        do 2 f_equal.
        pose proof (read_slice_written (start_frame q) (end_frame q)
                      (clip_rows A) (replicate (Z.to_nat n) sentinel)) as Hr.
        rewrite clip_rows_length in Hr.
        rewrite take_replicate, drop_replicate, length_replicate in Hr.
        replace (Z.to_nat (start_frame q) `min` Z.to_nat n)%nat
          with (Z.to_nat (start_frame q)) in Hr by lia.
        replace (Z.to_nat n - Z.to_nat (end_frame q))%nat
          with (Z.to_nat (n - end_frame q)) in Hr by lia.
        apply Hr; lia.
      * intros i Hi Hin'. destruct Hi as [Hi|Hi].
        -- rewrite lookup_app_l by (rewrite length_replicate; lia).
           apply lookup_replicate_2. lia.
        -- rewrite lookup_app_r by (rewrite length_replicate; lia).
           rewrite lookup_app_r
             by (rewrite length_replicate, clip_rows_length; lia).
           apply lookup_replicate_2.
           rewrite length_replicate, clip_rows_length. lia.
    + intros n data Hn Hdata. unfold save_pixel_flow_trajectory.
      rewrite raise_if_outside_context_inside by assumption.
      rewrite datasets_lookup in Hnone. py_unfold. fold name. rewrite Hnone.
      py_unfold. destruct (Z.ltb_spec n 0); [lia|]. py_unfold.
      rewrite length_replicate.
      destruct (Nat.eqb_spec (Z.to_nat n) (length data)); [lia|reflexivity].
    + intros n data Hn Hdata. unfold save_pixel_flow_trajectory.
      rewrite raise_if_outside_context_inside by assumption.
      rewrite datasets_lookup in Hnone. py_unfold. fold name. rewrite Hnone.
      py_unfold. destruct (Z.ltb_spec n 0); [lia|]. py_unfold.
      destruct (Z.eqb_spec (end_frame q - start_frame q)
                  (Z.of_nat (length data))); [lia|reflexivity].
  - intros d Hd. repeat split.
    + intros Hend size Hsize.
      pose proof (datasets_stored w name d Hd) as Hfits.
      assert (Hstored :
        datasets (put_dataset name
                    (take (Z.to_nat (start_frame q)) d ++ A
                     ++ drop (Z.to_nat (end_frame q)) d) w) !! name
        = Some (take (Z.to_nat (start_frame q)) d ++ clip_rows A
                ++ drop (Z.to_nat (end_frame q)) d)).
      { rewrite datasets_put_dataset, !clip_rows_app.
        now rewrite clip_rows_take, clip_rows_drop by assumption. }
      eexists _, _. split; [now apply save_span_existing with (d := d)|].
      split; [exact Hstored|].
      split; [apply written_length; rewrite ?clip_rows_length; lia|]. split.
      * rewrite load_span with
          (d := take (Z.to_nat (start_frame q)) d ++ clip_rows A
                ++ drop (Z.to_nat (end_frame q)) d);
          [| assumption | apply put_dataset_disk | exact Hstored].
        rewrite read_slice_written; rewrite ?clip_rows_length; auto.
      * intros i Hi. apply written_outside; rewrite ?clip_rows_length; auto.
    + intros n data full Hn. unfold save_pixel_flow_trajectory.
      rewrite raise_if_outside_context_inside by assumption.
      rewrite datasets_lookup in Hd. py_unfold. fold name. rewrite Hd.
      destruct (Z.eqb_spec (Z.of_nat (length d)) n); [congruence|reflexivity].
    + intros data size Hdata. unfold save_pixel_flow_trajectory.
      rewrite raise_if_outside_context_inside by assumption.
      rewrite datasets_lookup in Hd. py_unfold. fold name. rewrite Hd.
      destruct size as [n|]; py_unfold;
        [destruct (Z.of_nat (length d) =? n); py_unfold; [|reflexivity]|];
        destruct (Nat.eqb_spec (length d) (length data));
        congruence || reflexivity.
    + intros data size Hdata. unfold save_pixel_flow_trajectory.
      rewrite raise_if_outside_context_inside by assumption.
      rewrite datasets_lookup in Hd. py_unfold. fold name. rewrite Hd.
      destruct size as [n|]; py_unfold;
        [destruct (Z.of_nat (length d) =? n); py_unfold; [|reflexivity]|];
        destruct (Z.eqb_spec (end_frame q - start_frame q)
                    (Z.of_nat (length data)));
        congruence || reflexivity.
Qed.

Lemma save_then_load_trajectory_witness :
  let q := mkFlowQueue (1, 1) 1 4 0 0 "m0" false in
  let A := [(7, 7); (8, 8); (9, 9)] in
  let w := acquired_fresh [q] in
  exists w' d',
    save_pixel_flow_trajectory A q (Some 6) "xy" false w = (w', Return tt) /\
    datasets w' !! dataset_name q "xy" = Some d' /\
    d' = replicate (Z.to_nat (start_frame q)) sentinel ++ clip_rows A
         ++ replicate (Z.to_nat (6 - end_frame q)) sentinel /\
    Z.of_nat (length d') = 6 /\
    load_pixel_flow_trajectory q "xy" false w' = (w', Return (clip_rows A)) /\
    (forall i, Z.of_nat i < start_frame q \/ end_frame q <= Z.of_nat i ->
               Z.of_nat i < 6 -> d' !! i = Some sentinel).
Proof.
  intros q A w.
  assert (Hlen : Z.of_nat (length A) = end_frame q - start_frame q)
    by reflexivity.
  assert (Hstart : 0 <= start_frame q) by (simpl; lia).
  destruct (save_then_load_trajectory w q A "xy" eq_refl Hlen Hstart)
    as (_ & Hfresh & _).
  destruct (Hfresh ltac:(vm_compute; reflexivity)) as (_ & Hcreate & _).
  apply Hcreate. simpl. lia.
Defined.

(** C4, as stated, fails when the span of the record reaches beyond the
    dataset: the array has the [end_frame - start_frame] rows that the
    assertion asks for, yet only rows 3 and 4 exist, the write is refused by
    h5py, and loading the record afterwards gives two sentinel rows, not
    the array. *)
Lemma save_beyond_dataset_is_not_loaded_back :
  let w := acquired_fresh [beyond_end] in
  let w' := fst (save_pixel_flow_trajectory five_rows beyond_end (Some 5)
                   "xy" false w) in
  inside_context (self w) = true /\
  Z.of_nat (length five_rows) = end_frame beyond_end - start_frame beyond_end /\
  datasets w !! dataset_name beyond_end "xy" = None /\
  snd (save_pixel_flow_trajectory five_rows beyond_end (Some 5) "xy" false w)
  = Raise TypeError /\
  datasets w' !! dataset_name beyond_end "xy" = Some (replicate 5 sentinel) /\
  snd (load_pixel_flow_trajectory beyond_end "xy" false w')
  = Return [sentinel; sentinel].
Proof.
  vm_compute. repeat split.
Qed.

(** An integer beyond 64 signed bits, as an array of unsigned integers can
    hold, is stored as the largest integer of the dataset: what is loaded
    is the stored form of the array, not the array. *)
Lemma out_of_range_rows_are_stored_clipped :
  let q := mkFlowQueue (1, 1) 0 2 0 0 "m0" false in
  let A := [(2 ^ 63, 0); (3, 4)] in
  let w := acquired_fresh [q] in
  let w' := fst (save_pixel_flow_trajectory A q (Some 2) "xy" false w) in
  snd (save_pixel_flow_trajectory A q (Some 2) "xy" false w) = Return tt /\
  clip_rows A = [(2 ^ 63 - 1, 0); (3, 4)] /\
  snd (load_pixel_flow_trajectory q "xy" false w') = Return (clip_rows A).
Proof.
  vm_compute. repeat split.
Qed.

(** ** Trimming *)

Arguments dataset_name : simpl never.
Arguments trim_dataset : simpl never.
Arguments trim_one : simpl never.

Lemma read_slice_inside (start stop : Z) (d : trajectory) :
  0 <= start -> start <= stop -> stop <= Z.of_nat (length d) ->
  read_slice start stop d
  = take (Z.to_nat (stop - start)) (drop (Z.to_nat start) d)
  /\ Z.of_nat (length (read_slice start stop d)) = stop - start.
Proof.
  intros Hs Hse He. unfold read_slice. rewrite slice_bounds_inside by lia.
  split; [reflexivity|]. rewrite length_take, length_drop. lia.
Qed.

Lemma clamp_index_inside (k : Z) (n : nat) :
  0 <= k <= Z.of_nat n -> clamp_index k n = k.
Proof.
  intros Hk. unfold clamp_index.
  destruct (Z.ltb_spec k 0); lia.
Qed.

(** One record trimmed forward, row by row. *)
Lemma insert_middle {A} (done_ : list A) (x y : A) (rest : list A) :
  <[length done_ := y]> (done_ ++ x :: rest) = (done_ ++ [y]) ++ rest.
Proof.
  induction done_ as [|z done_ IH]; simpl; [reflexivity|].
  now rewrite IH.
Qed.

Section Trimming.

(** The arguments of one call of [trim_trajectory]. *)
Variables (tag : string) (frame : Z) (prefix : string) (reverse : bool).

Lemma trim_one_forward (q : FlowQueue) (d : trajectory) (i : nat) :
  0 <= start_frame q -> start_frame q <= frame <= end_frame q ->
  end_frame q <= Z.of_nat (length d) ->
  (take (Z.to_nat (start_frame q)) d
   ++ fill_from (frame - start_frame q)
        (read_slice (start_frame q) (end_frame q) d)
   ++ drop (Z.to_nat (end_frame q)) d) !! i
  = (fun row => if erased false frame q i then sentinel else row) <$> d !! i.
Proof.
  intros Hs Hf He.
  destruct (read_slice_inside (start_frame q) (end_frame q) d)
    as [Hread Hlen]; [lia..|].
  set (traj := read_slice (start_frame q) (end_frame q) d) in *.
  unfold fill_from, erased. rewrite clamp_index_inside by lia.
  destruct (Z.leb_spec frame (Z.of_nat i)) as [Hfi|Hfi];
    destruct (Z.ltb_spec (Z.of_nat i) (end_frame q)) as [Hie|Hie]; simpl.
  - (* erased *)
    rewrite lookup_app_r by (rewrite length_take; lia).
    rewrite length_take.
    rewrite lookup_app_l
      by (rewrite length_app, length_take, length_replicate; lia).
    rewrite lookup_app_r by (rewrite length_take; lia).
    rewrite length_take.
    rewrite lookup_replicate_2 by lia.
    destruct (lookup_lt_is_Some_2 d i) as [row ->]; [lia | reflexivity].
  - (* beyond the span *)
    rewrite lookup_app_r by (rewrite length_take; lia).
    rewrite lookup_app_r
      by (rewrite length_app, !length_take, length_replicate; lia).
    rewrite lookup_drop, length_app, !length_take, length_replicate.
    rewrite option_fmap_id. f_equal. lia.
  - (* in the span, before the frame *)
    destruct (Z.ltb_spec (Z.of_nat i) (start_frame q)) as [His|His].
    + rewrite lookup_app_l by (rewrite length_take; lia).
      rewrite lookup_take_lt by lia. now rewrite option_fmap_id.
    + rewrite lookup_app_r by (rewrite length_take; lia).
      rewrite length_take.
      rewrite lookup_app_l
        by (rewrite length_app, length_take, length_replicate; lia).
      rewrite lookup_app_l by (rewrite length_take; lia).
      rewrite lookup_take_lt by lia.
      subst traj. rewrite Hread, lookup_take_lt by lia.
      rewrite lookup_drop, option_fmap_id. f_equal. lia.
  - lia.
Qed.

(** One record trimmed in reverse, row by row. *)
Lemma trim_one_reverse (q : FlowQueue) (d : trajectory) (i : nat) :
  0 <= start_frame q -> start_frame q <= frame <= end_frame q ->
  end_frame q <= Z.of_nat (length d) ->
  (take (Z.to_nat (start_frame q)) d
   ++ fill_before (frame - start_frame q)
        (read_slice (start_frame q) (end_frame q) d)
   ++ drop (Z.to_nat (end_frame q)) d) !! i
  = (fun row => if erased true frame q i then sentinel else row) <$> d !! i.
Proof.
  intros Hs Hf He.
  destruct (read_slice_inside (start_frame q) (end_frame q) d)
    as [Hread Hlen]; [lia..|].
  set (traj := read_slice (start_frame q) (end_frame q) d) in *.
  unfold fill_before, erased. rewrite clamp_index_inside by lia.
  destruct (Z.leb_spec (start_frame q) (Z.of_nat i)) as [Hsi|Hsi];
    destruct (Z.ltb_spec (Z.of_nat i) frame) as [Hif|Hif]; simpl.
  - (* erased *)
    rewrite lookup_app_r by (rewrite length_take; lia).
    rewrite length_take.
    rewrite lookup_app_l
      by (rewrite length_app, length_drop, length_replicate; lia).
    rewrite lookup_app_l by (rewrite length_replicate; lia).
    rewrite lookup_replicate_2 by lia.
    destruct (lookup_lt_is_Some_2 d i) as [row ->]; [lia | reflexivity].
  - (* from the frame on *)
    rewrite lookup_app_r by (rewrite length_take; lia).
    rewrite length_take.
    destruct (Z.ltb_spec (Z.of_nat i) (end_frame q)) as [Hie|Hie].
    + rewrite lookup_app_l
        by (rewrite length_app, length_drop, length_replicate; lia).
      rewrite lookup_app_r by (rewrite length_replicate; lia).
      rewrite length_replicate, lookup_drop.
      subst traj. rewrite Hread, lookup_take_lt by lia.
      rewrite lookup_drop, option_fmap_id. f_equal. lia.
    + rewrite lookup_app_r
        by (rewrite length_app, length_drop, length_replicate; lia).
      rewrite lookup_drop, length_app, length_drop, length_replicate.
      rewrite option_fmap_id. f_equal. lia.
  - (* before the span *)
    rewrite lookup_app_l by (rewrite length_take; lia).
    rewrite lookup_take_lt by lia. now rewrite option_fmap_id.
  - rewrite lookup_app_l by (rewrite length_take; lia).
    rewrite lookup_take_lt by lia. now rewrite option_fmap_id.
Qed.

Lemma trim_matches_span q :
  trim_matches tag frame q = true ->
  get_tag q = tag /\ start_frame q <= frame <= end_frame q.
Proof.
  unfold trim_matches. rewrite !andb_true_iff, bool_decide_eq_true.
  intros [[Htag Hge] Hle]. apply Z.geb_le in Hge. apply Z.leb_le in Hle.
  auto.
Qed.

(** The body of the loop for a record that matches. *)
Lemma trim_step idx q w :
  inside_context (self w) = true ->
  trim_matches tag frame q = true ->
  forall d : trajectory, disk w <> None ->
  datasets w !! dataset_name q prefix = Some d ->
  0 <= start_frame q -> end_frame q <= Z.of_nat (length d) ->
  (traj <- load_pixel_flow_trajectory q prefix false ;;
   if reverse then
     save_pixel_flow_trajectory
       (fill_before (frame - start_frame q) traj) q None prefix false ;;
     modify (fun w =>
       set_queues (<[idx := set_start_frame frame q]> (queues (self w))) w)
   else
     save_pixel_flow_trajectory
       (fill_from (frame - start_frame q) traj) q None prefix false ;;
     modify (fun w =>
       set_queues (<[idx := set_end_frame frame q]> (queues (self w))) w)) w
  = (set_queues (<[idx := trim_record tag frame reverse q]> (queues (self w)))
       (put_dataset (dataset_name q prefix) (trim_one reverse frame q d) w),
     Return tt).
Proof.
  intros Hin Hm d Hdisk Hd Hs He.
  destruct (trim_matches_span _ Hm) as [_ Hspan].
  destruct (read_slice_inside (start_frame q) (end_frame q) d)
    as [_ Hlen]; [lia..|].
  unfold bind at 1. rewrite (load_span w q prefix d) by assumption.
  unfold trim_record. rewrite Hm.
  destruct reverse.
  - unfold bind.
    rewrite (save_span_existing w _ q None prefix d); auto.
    + unfold modify. do 3 f_equal. apply list_eq. intros i.
      rewrite trim_one_reverse by lia. unfold trim_one.
      now rewrite list_lookup_imap.
    + unfold fill_before. rewrite clamp_index_inside by lia.
      rewrite length_app, length_replicate, length_drop. lia.
  - unfold bind.
    rewrite (save_span_existing w _ q None prefix d); auto.
    + unfold modify. do 3 f_equal. apply list_eq. intros i.
      rewrite trim_one_forward by lia. unfold trim_one.
      now rewrite list_lookup_imap.
    + unfold fill_from. rewrite clamp_index_inside by lia.
      rewrite length_app, length_replicate, length_take. lia.
Qed.

Lemma trim_dataset_nil name d :
  trim_dataset tag frame prefix reverse [] name d = d.
Proof.
  unfold trim_dataset. apply list_eq. intros i.
  rewrite list_lookup_imap. simpl. now rewrite option_fmap_id.
Qed.

Lemma trim_dataset_cons q rest name d :
  trim_dataset tag frame prefix reverse (q :: rest) name d
  = trim_dataset tag frame prefix reverse rest name
      (if trim_matches tag frame q
          && bool_decide (dataset_name q prefix = name)
       then trim_one reverse frame q d else d).
Proof.
  unfold trim_dataset. apply list_eq. intros i.
  rewrite !list_lookup_imap. simpl.
  destruct (trim_matches tag frame q
            && bool_decide (dataset_name q prefix = name)); simpl.
  - unfold trim_one. rewrite list_lookup_imap.
    destruct (d !! i) as [row|]; simpl; [|reflexivity].
    destruct (erased reverse frame q i); simpl; [|reflexivity].
    now destruct (existsb _ rest).
  - reflexivity.
Qed.

Lemma trim_dataset_length qs name d :
  length (trim_dataset tag frame prefix reverse qs name d) = length d.
Proof. unfold trim_dataset. apply length_imap. Qed.

Lemma trim_loop_no_match todo :
  forall idx w,
  (forall q, q ∈ todo -> trim_matches tag frame q = false) ->
  trim_loop tag frame prefix reverse idx todo w = (w, Return tt).
Proof.
  induction todo as [|q rest IH]; intros idx w Hnone; simpl; [reflexivity|].
  change (bool_decide (get_tag q = tag) && (frame >=? start_frame q)
          && (frame <=? end_frame q)) with (trim_matches tag frame q).
  rewrite (Hnone q) by left. unfold bind at 1. unfold ret at 1.
  apply IH. intros q' Hq'. apply Hnone. now right.
Qed.

Lemma clip_rows_trim_one q (d : trajectory) :
  clip_rows d = d -> clip_rows (trim_one reverse frame q d) = trim_one reverse frame q d.
Proof.
  intros Hd. unfold trim_one, clip_rows in *. apply list_eq. intros i.
  change (map clip_row) with (fmap (M := list) clip_row) in *.
  rewrite list_lookup_fmap, list_lookup_imap.
  assert (Hi : clip_row <$> d !! i = d !! i)
    by (now rewrite <- list_lookup_fmap, Hd).
  destruct (d !! i) as [row|]; simpl in *; [|reflexivity].
  destruct (erased reverse frame q i); [reflexivity | exact Hi].
Qed.

Lemma datasets_trim_step q (d : trajectory) w name qs :
  clip_rows d = d ->
  datasets (set_queues qs
              (put_dataset (dataset_name q prefix)
                 (trim_one reverse frame q d) w)) !! name
  = if decide (dataset_name q prefix = name)
    then Some (trim_one reverse frame q d)
    else datasets w !! name.
Proof.
  intros Hd.
  change (datasets (set_queues qs ?w0)) with (datasets w0).
  destruct (decide (dataset_name q prefix = name)) as [<-|Hne].
  - rewrite datasets_put_dataset. now rewrite clip_rows_trim_one.
  - now rewrite datasets_put_dataset_ne by congruence.
Qed.

Lemma trim_loop_spec todo :
  forall (idx : nat) (w : World) (done_ : list FlowQueue),
  inside_context (self w) = true ->
  queues (self w) = done_ ++ todo -> length done_ = idx ->
  (forall q, q ∈ todo -> trim_matches tag frame q = true ->
             span_stored w q prefix) ->
  exists w',
    trim_loop tag frame prefix reverse idx todo w = (w', Return tt) /\
    queues (self w') = done_ ++ map (trim_record tag frame reverse) todo /\
    inside_context (self w') = true /\
    marker_positions (self w') = marker_positions (self w) /\
    (disk w' = None <-> disk w = None) /\
    h5_queues (default empty_h5 (disk w'))
    = h5_queues (default empty_h5 (disk w)) /\
    h5_markers (default empty_h5 (disk w'))
    = h5_markers (default empty_h5 (disk w)) /\
    forall name,
      datasets w' !! name
      = trim_dataset tag frame prefix reverse todo name
        <$> datasets w !! name.
Proof.
  induction todo as [|q rest IH]; intros idx w done_ Hin Hqs Hidx Hstored.
  - exists w. simpl. repeat split; auto.
    intros name. destruct (datasets w !! name) as [d|]; simpl; [|reflexivity].
    now rewrite trim_dataset_nil.
  - simpl.
    change (bool_decide (get_tag q = tag) && (frame >=? start_frame q)
            && (frame <=? end_frame q)) with (trim_matches tag frame q).
    destruct (trim_matches tag frame q) eqn:Hm.
    + destruct (Hstored q) as (Hdisk & d & Hd & Hs & He); [left | assumption|].
      unfold bind at 1.
      rewrite (trim_step idx q w Hin Hm d)
        by assumption.
      set (w1 := set_queues _ (put_dataset _ _ _)).
      destruct (IH (S idx) w1 (done_ ++ [trim_record tag frame reverse q]))
        as (w' & Hrun & Hqs' & Hin' & Hmp & Hnone & Hq & Hmk & Hds).
      * exact Hin.
      * subst w1. simpl. rewrite Hqs, <- Hidx. apply insert_middle.
      * rewrite length_app. simpl. lia.
      * intros q' Hq' Hm'.
        destruct (Hstored q') as (_ & d' & Hd' & Hs' & He');
          [now right | assumption |].
        split; [discriminate|].
        subst w1.
        rewrite datasets_trim_step
          by (exact (datasets_stored w _ d Hd)).
        destruct (decide (dataset_name q prefix = dataset_name q' prefix))
          as [Heq|Hne].
        -- exists (trim_one reverse frame q d). split; [reflexivity|].
           split; [assumption|].
           unfold trim_one. rewrite length_imap.
           rewrite Heq in Hd. congruence.
        -- exists d'. auto.
      * exists w'. split; [exact Hrun|].
        split.
        { now rewrite Hqs', <- app_assoc. }
        split; [exact Hin'|]. split; [exact Hmp|].
        split.
        { rewrite Hnone. subst w1. simpl. split; [discriminate | congruence]. }
        split; [exact Hq|]. split; [exact Hmk|].
        intros name.
        assert (Hw1 : datasets w1 !! name
                      = if decide (dataset_name q prefix = name)
                        then Some (trim_one reverse frame q d)
                        else datasets w !! name).
        { subst w1. apply datasets_trim_step.
          exact (datasets_stored w _ d Hd). }
        rewrite Hds, Hw1.
        destruct (decide (dataset_name q prefix = name)) as [<-|Hne].
        -- rewrite Hd. simpl. f_equal. rewrite trim_dataset_cons, Hm.
           rewrite bool_decide_eq_true_2 by reflexivity. reflexivity.
        -- destruct (datasets w !! name) as [d'|]; simpl; [|reflexivity].
           f_equal. rewrite trim_dataset_cons, Hm.
           rewrite bool_decide_eq_false_2 by assumption. reflexivity.
    + unfold bind at 1. unfold ret at 1.
      destruct (IH (S idx) w (done_ ++ [q]))
        as (w' & Hrun & Hqs' & Hrest); auto.
      * now rewrite Hqs, <- app_assoc.
      * rewrite length_app. simpl. lia.
      * intros q' Hq'. apply Hstored. now right.
      * exists w'. split; [exact Hrun|]. split.
        { rewrite Hqs', <- app_assoc. cbn [map app].
          replace (trim_record tag frame reverse q) with q
            by (unfold trim_record; now rewrite Hm).
          reflexivity. }
        destruct Hrest as (? & ? & ? & ? & ? & Hds).
        repeat split; auto; try tauto.
        intros name. rewrite Hds.
        destruct (datasets w !! name) as [d'|]; simpl; [|reflexivity].
        now rewrite trim_dataset_cons, Hm.
Qed.

End Trimming.

(** C1 (as amended). Inside the context, when the trajectory of every
    record that matches (its tag is [tag] and [start_frame <= frame <=
    end_frame]) is on disk and covers the record's span, [trim_trajectory]
    trims every matching record, in the order of the collection: with
    [reverse] false the rows from [frame] to the end of the record's span
    become the sentinel in its dataset and its [end_frame] becomes [frame],
    rows before [frame] being left as they were; with [reverse] true the
    rows from the start of the span up to [frame] become the sentinel and
    [start_frame] becomes [frame], rows from [frame] on being left as they
    were.  Records that do not match, rows that no matching record erases,
    the record table and the marker positions are unchanged, and when no
    record matches the call changes nothing at all. *)
Theorem trim_trajectory_trims_every_match (w : World) (tag : string)
    (frame : Z) (prefix : string) (reverse : bool) :
  inside_context (self w) = true ->
  (forall q, q ∈ queues (self w) -> trim_matches tag frame q = true ->
             span_stored w q prefix) ->
  exists w',
    trim_trajectory tag frame prefix reverse w = (w', Return tt) /\
    queues (self w') = map (trim_record tag frame reverse) (queues (self w)) /\
    inside_context (self w') = true /\
    marker_positions (self w') = marker_positions (self w) /\
    (disk w' = None <-> disk w = None) /\
    h5_queues (default empty_h5 (disk w'))
    = h5_queues (default empty_h5 (disk w)) /\
    h5_markers (default empty_h5 (disk w'))
    = h5_markers (default empty_h5 (disk w)) /\
    (forall name,
       datasets w' !! name
       = trim_dataset tag frame prefix reverse (queues (self w)) name
         <$> datasets w !! name) /\
    (forall q (d : trajectory),
       q ∈ queues (self w) -> trim_matches tag frame q = true ->
       datasets w !! dataset_name q prefix = Some d ->
       exists d' : trajectory,
         datasets w' !! dataset_name q prefix = Some d' /\
         length d' = length d /\
         forall (i : nat) row, d !! i = Some row ->
           if reverse then
             (start_frame q <= Z.of_nat i < frame -> d' !! i = Some sentinel)
             /\ (frame <= Z.of_nat i -> d' !! i = Some row)
           else
             (frame <= Z.of_nat i < end_frame q -> d' !! i = Some sentinel)
             /\ (Z.of_nat i < frame -> d' !! i = Some row)) /\
    ((forall q, q ∈ queues (self w) -> trim_matches tag frame q = false) ->
     w' = w).
Proof.
  intros Hin Hstored.
  destruct (trim_loop_spec tag frame prefix reverse (queues (self w))
              0%nat w [] Hin eq_refl eq_refl Hstored)
    as (w' & Hrun & Hqs & Hin' & Hmp & Hnone & Hq & Hmk & Hds).
  assert (Hcall : trim_trajectory tag frame prefix reverse w
                  = (w', Return tt)).
  { unfold trim_trajectory.
    rewrite raise_if_outside_context_inside by assumption.
    unfold bind at 1. unfold get at 1. exact Hrun. }
  exists w'. split; [exact Hcall|]. split; [exact Hqs|].
  split; [exact Hin'|]. split; [exact Hmp|]. split; [exact Hnone|].
  split; [exact Hq|]. split; [exact Hmk|]. split; [exact Hds|]. split.
  - intros q d Hq' Hm Hd.
    exists (trim_dataset tag frame prefix reverse (queues (self w))
              (dataset_name q prefix) d).
    split; [now rewrite Hds, Hd|].
    split; [apply trim_dataset_length|].
    intros i row Hrow. unfold trim_dataset.
    rewrite list_lookup_imap, Hrow. cbn [fmap option_fmap option_map].
    destruct reverse; split; intros Hi.
    + rewrite (existsb_true_intro _ _ q); [reflexivity | assumption |].
      rewrite Hm, bool_decide_eq_true_2 by reflexivity. unfold erased.
      destruct (Z.leb_spec (start_frame q) (Z.of_nat i)); [|lia].
      now destruct (Z.ltb_spec (Z.of_nat i) frame); [|lia].
    + replace (existsb _ _) with false; [reflexivity|].
      symmetry. apply existsb_false_iff. intros q' _. unfold erased.
      destruct (Z.ltb_spec (Z.of_nat i) frame); [lia|].
      now rewrite !andb_false_r.
    + rewrite (existsb_true_intro _ _ q); [reflexivity | assumption |].
      rewrite Hm, bool_decide_eq_true_2 by reflexivity. unfold erased.
      destruct (Z.leb_spec frame (Z.of_nat i)); [|lia].
      now destruct (Z.ltb_spec (Z.of_nat i) (end_frame q)); [|lia].
    + replace (existsb _ _) with false; [reflexivity|].
      symmetry. apply existsb_false_iff. intros q' _. unfold erased.
      destruct (Z.leb_spec frame (Z.of_nat i)); [lia|].
      now rewrite andb_false_r.
  - intros Hno.
    assert (Hrun' := trim_loop_no_match tag frame prefix reverse
                       (queues (self w)) 0%nat w Hno).
    congruence.
Qed.

Lemma trim_trajectory_trims_every_match_witness :
  exists w',
    trim_trajectory "z0-m0" 2 "xy" false two_cameras = (w', Return tt) /\
    queues (self w')
    = map (trim_record "z0-m0" 2 false) (queues (self two_cameras)).
Proof.
  destruct (trim_trajectory_trims_every_match two_cameras "z0-m0" 2 "xy"
              false eq_refl) as (w' & Hrun & Hqs & _).
  - intros q Hq _. split; [discriminate|].
    apply elem_of_cons in Hq as [->|Hq];
      [|apply list_elem_of_singleton in Hq as ->].
    + exists [(10, 10); (11, 11); (12, 12); (13, 13); (14, 14); (15, 15)].
      split; [vm_compute; reflexivity | simpl; lia].
    + exists [(50, 50); (51, 51); (52, 52); (53, 53); (54, 54); (55, 55)].
      split; [vm_compute; reflexivity | simpl; lia].
  - exists w'. exact (conj Hrun Hqs).
Defined.

(** C1, as stated, fails: the loop does not stop at the first matching
    record.  With the same marker tracked by two cameras, trimming at frame
    2 also moves the end of the second record and erases rows 2 and 3 of
    the second record's dataset. *)
Lemma trim_trajectory_not_only_first :
  let w' := fst (trim_trajectory "z0-m0" 2 "xy" false two_cameras) in
  snd (trim_trajectory "z0-m0" 2 "xy" false two_cameras) = Return tt /\
  queues (self two_cameras) !! 1%nat = Some cam1 /\
  queues (self w') !! 0%nat = Some (set_end_frame 2 cam0) /\
  queues (self w') !! 1%nat = Some (set_end_frame 2 cam1) /\
  set_end_frame 2 cam1 <> cam1 /\
  datasets two_cameras !! dataset_name cam1 "xy"
  = Some [(50, 50); (51, 51); (52, 52); (53, 53); (54, 54); (55, 55)] /\
  datasets w' !! dataset_name cam1 "xy"
  = Some [(50, 50); (51, 51); sentinel; sentinel; (54, 54); (55, 55)].
Proof.
  vm_compute. repeat split; discriminate.
Qed.

(** ** Rows *)

Lemma FlowQueue_array_inv {S} (q : FlowQueue) (s : S) :
  match FlowQueue_array q s with
  | (s', Return row) =>
      s' = s /\ row = stored_row q /\
      snd (FlowQueue_array q tt) = Return row /\
      fits_i4 (fst (point q)) = true /\ fits_i4 (snd (point q)) = true /\
      fits_i4 (start_frame q) = true /\ fits_i4 (end_frame q) = true /\
      fits_i4 (camera q) = true /\ fits_i4 (z_index q) = true /\
      ascii_text (label q) = true
  | (s', Raise e) => s' = s /\ snd (FlowQueue_array q tt) = Raise e
  end.
Proof.
  unfold FlowQueue_array, stored_row, bind, to_i4, to_S10, ret, raise.
  destruct (point q) as [x y]. simpl.
  repeat match goal with
         | |- context [fits_i4 ?n] => destruct (fits_i4 n); simpl; auto
         end.
  destruct (ascii_text (label q)); simpl; auto 12.
Qed.

Lemma S10_bytes_length s : length (S10_bytes s) = 10%nat.
Proof.
  unfold S10_bytes. rewrite length_take, length_app, length_replicate. lia.
Qed.

Lemma strip_nul_padding (bytes : list ascii) (k : nat) :
  strip_nul (bytes ++ replicate k NUL) = strip_nul bytes.
Proof.
  induction bytes as [|c bytes IH]; simpl.
  - induction k as [|k IHk]; simpl; [reflexivity|]. now rewrite IHk.
  - now rewrite IH.
Qed.

Lemma strip_nul_length (field : list ascii) :
  (length (strip_nul field) <= length field)%nat.
Proof.
  induction field as [|c field IH]; simpl; [lia|].
  destruct (strip_nul field); simpl in *; [|lia].
  destruct (Ascii.eqb c NUL); simpl; lia.
Qed.

Lemma FlowQueue_of_row_label {S} (vals : QRow) (s s' : S) (q : FlowQueue) :
  FlowQueue_of_row vals s = (s', Return q) ->
  (length (list_ascii_of_string (label q)) <= length (row_label vals))%nat.
Proof.
  unfold FlowQueue_of_row, bind, decode, ret, raise.
  destruct (forallb is_ascii _); [|discriminate].
  intros [= _ <-]. simpl. rewrite list_ascii_of_string_of_list_ascii.
  apply strip_nul_length.
Qed.

(** A record that fits the row layout is read back from its row. *)
Lemma FlowQueue_of_stored_row {S} (q : FlowQueue) (s : S) :
  fits_row q = true ->
  FlowQueue_array q s = (s, Return (stored_row q))
  /\ FlowQueue_of_row (stored_row q) s = (s, Return q).
Proof.
  unfold fits_row. rewrite !andb_true_iff, bool_decide_eq_true, Nat.leb_le.
  intros ((((((((Hx & Hy) & Hs) & He) & Hc) & Hz) & Ha) & Hlen) & Hnul).
  split.
  - unfold FlowQueue_array, stored_row, bind, to_i4, to_S10, ret.
    rewrite Hx, Hy, Hs, He, Hc, Hz, Ha. now destruct (point q).
  - unfold FlowQueue_of_row, stored_row, S10_bytes, bind, decode, ret. simpl.
    rewrite take_ge by (rewrite length_app, length_replicate; lia).
    rewrite strip_nul_padding, Hnul. unfold ascii_text in Ha. rewrite Ha.
    rewrite string_of_list_ascii_of_string. now destruct q.
Qed.

(** ** Flushing and loading the record table *)

Lemma put_queues_twice rows1 rows2 w :
  put_queues rows2 (put_queues rows1 (opened w)) = put_queues rows2 w.
Proof. reflexivity. Qed.

Lemma put_queues_id rows w : table w = Some rows -> put_queues rows w = w.
Proof.
  unfold table, put_queues, set_disk. destruct w as [td [[t ds mk]|]]; simpl.
  - now intros ->.
  - discriminate.
Qed.

Lemma flush_step q todo w row done_ r0 rest :
  FlowQueue_array q w = (w, Return row) ->
  table w = Some (done_ ++ r0 :: rest) ->
  flush_loop (length done_) (q :: todo) w
  = flush_loop (S (length done_)) todo
      (put_queues ((done_ ++ [row]) ++ rest) (opened w)).
Proof.
  intros Harr Htable. simpl. unfold bind at 1. rewrite Harr.
  unfold bind at 1. unfold open_append at 1. unfold bind at 1.
  unfold modify at 1. unfold bind at 1. unfold get at 1. unfold ret at 1.
  unfold bind at 1. unfold write_queues at 1. unfold modify at 1.
  change (default empty_h5 (disk (set_disk (default empty_h5 (disk w)) w)))
    with (default empty_h5 (disk w)).
  unfold table in Htable. rewrite Htable. simpl default.
  now rewrite insert_middle.
Qed.

Lemma flush_loop_spec (todo : list FlowQueue) :
  forall (idx : nat) (w : World) (done_ rest : list QRow),
  table w = Some (done_ ++ rest) ->
  length done_ = idx -> length rest = length todo ->
  match rows_of todo with
  | Return rows =>
      flush_loop idx todo w = (put_queues (done_ ++ rows) w, Return tt)
  | Raise e => snd (flush_loop idx todo w) = Raise e
  end.
Proof.
  induction todo as [|q todo IH]; intros idx w done_ rest Htable Hidx Hrest.
  - simpl. destruct rest; [|discriminate].
    now rewrite put_queues_id.
  - simpl rows_of.
    pose proof (FlowQueue_array_inv q w) as Hrow.
    destruct (FlowQueue_array q w) as [w0 [e|row]] eqn:Harr.
    + destruct Hrow as [-> ->]. simpl. unfold bind at 1. now rewrite Harr.
    + destruct Hrow as (-> & _ & -> & _).
      destruct rest as [|r0 rest]; [discriminate|]. subst idx.
      rewrite (flush_step q todo w row done_ r0 rest Harr Htable).
      assert (Hlen : length (done_ ++ [row]) = S (length done_))
        by (rewrite length_app; simpl; lia).
      simpl in Hrest.
      pose proof (IH (S (length done_))
                    (put_queues ((done_ ++ [row]) ++ rest) (opened w))
                    (done_ ++ [row]) rest eq_refl Hlen ltac:(lia)) as IH'.
      destruct (rows_of todo) as [e|rows].
      * exact IH'.
      * rewrite IH', put_queues_twice, <- app_assoc. reflexivity.
Qed.

Lemma resize_length (n : nat) (rows : list QRow) :
  length (resize n rows) = n.
Proof.
  unfold resize. rewrite length_take, length_app, length_replicate. lia.
Qed.

Lemma exit_unfold (w : World) (rows0 : list QRow) :
  table w = Some rows0 ->
  exit w
  = (flush_loop 0 (queues (self w)) ;; modify (set_inside_context false))
      (put_queues (resize (length (queues (self w))) rows0) (opened w)).
Proof.
  intros Htable. unfold exit.
  unfold bind at 1. unfold open_append at 1. unfold bind at 1.
  unfold modify at 1. unfold bind at 1. unfold get at 1. unfold ret at 1.
  change (default empty_h5 (disk (set_disk (default empty_h5 (disk w)) w)))
    with (default empty_h5 (disk w)).
  unfold table in Htable. rewrite Htable.
  unfold bind at 1. unfold get at 1. unfold bind at 1.
  unfold write_queues at 1. unfold modify at 1. reflexivity.
Qed.

(** [__exit__], given that the file has a record table. *)
Lemma exit_spec (w : World) (rows0 : list QRow) :
  table w = Some rows0 ->
  match rows_of (queues (self w)) with
  | Return rows =>
      exit w = (set_inside_context false (put_queues rows w), Return tt)
  | Raise e => snd (exit w) = Raise e
  end.
Proof.
  intros Htable. rewrite (exit_unfold w rows0 Htable).
  set (w1 := put_queues _ (opened w)).
  pose proof (flush_loop_spec (queues (self w)) 0%nat w1 []
                (resize (length (queues (self w))) rows0) eq_refl eq_refl
                (resize_length _ _)) as Hloop.
  unfold bind.
  destruct (rows_of (queues (self w))) as [e|rows].
  - destruct (flush_loop _ _ w1) as [w2 [e'|[]]]; simpl in *; congruence.
  - rewrite Hloop. unfold modify. subst w1.
    now rewrite put_queues_twice.
Qed.

Lemma exit_without_table (w : World) :
  table w = None -> snd (exit w) = Raise KeyError.
Proof.
  intros Htable. unfold exit.
  unfold bind at 1. unfold open_append at 1. unfold bind at 1.
  unfold modify at 1. unfold bind at 1. unfold get at 1. unfold ret at 1.
  change (default empty_h5 (disk (set_disk (default empty_h5 (disk w)) w)))
    with (default empty_h5 (disk w)).
  unfold table in Htable. now rewrite Htable.
Qed.

Lemma load_rows_labels (rows : list QRow) :
  forall qs, snd (load_rows rows tt) = Return qs ->
  Forall2 (fun vals q =>
             (length (list_ascii_of_string (label q))
              <= length (row_label vals))%nat) rows qs.
Proof.
  induction rows as [|vals rows IH]; simpl; intros qs.
  - intros [= <-]. constructor.
  - unfold bind at 1.
    destruct (FlowQueue_of_row vals tt) as [[] [e|q]] eqn:Hq;
      [discriminate|].
    unfold bind at 1.
    destruct (load_rows rows tt) as [[] [e|qs']]; [discriminate|].
    unfold ret. intros [= <-]. constructor.
    + exact (FlowQueue_of_row_label vals tt tt q Hq).
    + now apply IH.
Qed.

Lemma rows_of_labels (qs : list FlowQueue) :
  forall rows, rows_of qs = Return rows ->
  Forall (fun vals => length (row_label vals) = 10%nat) rows.
Proof.
  induction qs as [|q qs IH]; simpl; intros rows.
  - intros [= <-]. constructor.
  - pose proof (FlowQueue_array_inv q tt) as Hrow.
    destruct (FlowQueue_array q tt) as [[] [e|row]]; simpl;
      [discriminate|].
    destruct Hrow as (_ & -> & _).
    destruct (rows_of qs) as [e|rows']; [discriminate|].
    intros [= <-]. constructor; [apply S10_bytes_length | now apply IH].
Qed.

Lemma rows_of_stored (qs : list FlowQueue) :
  Forall (fun q => fits_row q = true) qs ->
  rows_of qs = Return (map stored_row qs)
  /\ snd (load_rows (map stored_row qs) tt) = Return qs.
Proof.
  induction 1 as [|q qs Hq _ [IH1 IH2]]; simpl; [auto|].
  destruct (FlowQueue_of_stored_row q tt Hq) as [Harr Hrow].
  rewrite Harr, IH1. simpl. split; [reflexivity|].
  unfold bind at 1. rewrite Hrow. unfold bind at 1.
  destruct (load_rows (map stored_row qs) tt) as [[] [e|qs']];
    simpl in *; congruence.
Qed.

Lemma load_flushed (w : World) (rows : list QRow) :
  load (disk (set_inside_context false (put_queues rows w)))
  = match h5_markers (default empty_h5 (disk w)) with
    | None => Raise KeyError
    | Some m =>
        match snd (load_rows rows tt) with
        | Raise e => Raise e
        | Return qs => Return (mkTrackingData qs m false)
        end
    end.
Proof.
  unfold load, put_queues, set_inside_context, set_disk, from_h5, bind. simpl.
  destruct (h5_markers (default empty_h5 (disk w))); [|reflexivity].
  unfold ret. now destruct (load_rows rows tt) as [[] [e|qs]].
Qed.

(** C3 (as amended). For a store whose container has a record table and
    the marker positions, and whose records all fit the row layout (every
    integer field fits in 32 signed bits, the label is ASCII text of at
    most ten bytes and does not end in a NUL byte), [__exit__] succeeds,
    leaves the context, writes exactly one row per record, in the order of
    the collection, touches no trajectory, and loading the container then
    gives back the very same list of records, [done] included. *)
Theorem flush_then_load_round_trip (w : World) (rows0 : list QRow)
    (m : MarkerPositions) :
  table w = Some rows0 ->
  h5_markers (default empty_h5 (disk w)) = Some m ->
  Forall (fun q => fits_row q = true) (queues (self w)) ->
  exists w',
    exit w = (w', Return tt) /\
    inside_context (self w') = false /\
    queues (self w') = queues (self w) /\
    table w' = Some (map stored_row (queues (self w))) /\
    length (map stored_row (queues (self w))) = length (queues (self w)) /\
    datasets w' = datasets w /\
    load (disk w') = Return (mkTrackingData (queues (self w)) m false).
Proof.
  intros Htable Hm Hfit.
  destruct (rows_of_stored _ Hfit) as [Hrows Hload].
  pose proof (exit_spec w rows0 Htable) as Hexit. rewrite Hrows in Hexit.
  eexists. split; [exact Hexit|].
  repeat split.
  - apply length_map.
  - now rewrite load_flushed, Hm, Hload.
Qed.

Lemma flush_then_load_round_trip_witness :
  let a := mkFlowQueue (1, 1) 0 10 0 0 "m0" false in
  let b := mkFlowQueue (5, 5) 0 10 1 0 "m0" true in
  let w := acquired_fresh [a; b] in
  exists w',
    exit w = (w', Return tt) /\
    inside_context (self w') = false /\
    queues (self w') = queues (self w) /\
    table w' = Some (map stored_row (queues (self w))) /\
    length (map stored_row (queues (self w))) = length (queues (self w)) /\
    datasets w' = datasets w /\
    load (disk w') = Return (mkTrackingData (queues (self w)) "markers" false).
Proof.
  intros a b w.
  apply (flush_then_load_round_trip w [zero_row] "markers");
    [reflexivity | reflexivity |].
  repeat constructor.
Defined.

(** C3, as stated, fails: a record with a valid label of two bytes, the
    second of them NUL, is flushed without error, but numpy drops trailing
    NUL bytes when the field is read, so the loaded record has another
    label and the loaded collection does not contain the record. *)
Lemma trailing_nul_label_is_not_loaded_back :
  let w := acquired_fresh [nul_label] in
  let loaded := mkFlowQueue (1, 1) 0 10 0 0 "m" false in
  new_FlowQueue (VTuple [VInt 1; VInt 1]) (VInt 0) (VInt 10) (VInt 0)
    (VInt 0) (VStr (label nul_label)) (VBool false)
  = Return (to_object nul_label) /\
  ascii_text (label nul_label) = true /\
  length (list_ascii_of_string (label nul_label)) = 2%nat /\
  snd (exit w) = Return tt /\
  load (disk (fst (exit w))) = Return (mkTrackingData [loaded] "markers" false)
  /\ loaded <> nul_label /\ nul_label ∉ [loaded].
Proof.
  repeat split; try discriminate.
  intros H. apply list_elem_of_singleton in H. discriminate.
Qed.

Lemma to_object_built (q : FlowQueue) :
  to_object q
  = built (VTuple [VInt (fst (point q)); VInt (snd (point q))])
      (VInt (start_frame q)) (VInt (end_frame q)) (VInt (camera q))
      (VInt (z_index q)) (VStr (label q)) (VBool (done q)).
Proof. reflexivity. Qed.

(** The constructor accepts the fields of every record of the store. *)
Lemma new_FlowQueue_typed (q : FlowQueue) :
  new_FlowQueue (VTuple [VInt (fst (point q)); VInt (snd (point q))])
    (VInt (start_frame q)) (VInt (end_frame q)) (VInt (camera q))
    (VInt (z_index q)) (VStr (label q)) (VBool (done q))
  = Return (to_object q).
Proof. now rewrite new_FlowQueue_spec. Qed.

(** The assignments that [trim_trajectory] makes are accepted. *)
Lemma setattr_frames (q : FlowQueue) (frame : Z) :
  setattr "start_frame" (VInt frame) (to_object q)
  = (to_object (set_start_frame frame q), Return tt)
  /\ setattr "end_frame" (VInt frame) (to_object q)
     = (to_object (set_end_frame frame q), Return tt).
Proof.
  split.
  - rewrite setattr_initialized_mutable; [|left | reflexivity].
    unfold to_object, set_start_frame. simpl.
    rewrite !(insert_insert_ne _ _ "start_frame") by discriminate.
    now rewrite insert_insert_eq.
  - rewrite setattr_initialized_mutable; [|right; left | reflexivity].
    unfold to_object, set_end_frame. simpl.
    rewrite !(insert_insert_ne _ _ "end_frame") by discriminate.
    now rewrite insert_insert_eq.
Qed.

Lemma append_succeeds (w : World) (value : FlowQueue) :
  inside_context (self w) = true ->
  snd (append value w) = Return tt
  /\ value ∈ queues (self (fst (append value w))).
Proof.
  intros Hin.
  destruct (append_is_upsert_cases w value Hin) as [[idx [Hlt ->]]| ->]; simpl.
  - split; [reflexivity|]. now apply list_elem_of_insert.
  - split; [reflexivity|]. apply elem_of_app. right. left.
Qed.

Lemma S10_bytes_long (s : string) :
  (10 < length (list_ascii_of_string s))%nat ->
  S10_bytes s = take 10 (list_ascii_of_string s).
Proof.
  intros Hlen. unfold S10_bytes.
  replace (10 - length (list_ascii_of_string s))%nat with 0%nat by lia.
  simpl. now rewrite app_nil_r.
Qed.

Lemma exit_then_load_labels (w w' : World) (td : TrackingData) :
  exit w = (w', Return tt) -> load (disk w') = Return td ->
  Forall (fun q' =>
            (length (list_ascii_of_string (label q')) <= 10)%nat)
    (queues td).
Proof.
  intros Hexit Hload.
  destruct (table w) as [rows0|] eqn:Htable.
  - pose proof (exit_spec w rows0 Htable) as Hspec.
    destruct (rows_of (queues (self w))) as [e|rows] eqn:Hrows.
    + rewrite Hexit in Hspec. discriminate.
    + rewrite Hexit in Hspec. injection Hspec as ->.
      rewrite load_flushed in Hload.
      destruct (h5_markers _); [|discriminate].
      destruct (snd (load_rows rows tt)) as [e|qs] eqn:Hqs; [discriminate|].
      injection Hload as <-. simpl.
      pose proof (load_rows_labels rows qs Hqs) as Hlabels.
      pose proof (rows_of_labels _ _ Hrows) as Hten.
      clear - Hlabels Hten.
      induction Hlabels as [|vals q' rows qs Hq' _ IH]; constructor.
      * inversion Hten; subst. lia.
      * apply IH. now inversion Hten.
  - pose proof (exit_without_table w Htable) as Hspec.
    rewrite Hexit in Hspec. discriminate.
Qed.

Lemma map_lookup {A B} (f : A -> B) (l : list A) (i : nat) :
  map f l !! i = f <$> (l !! i).
Proof.
  revert i. induction l as [|x l IH]; intros [|i]; simpl; auto.
Qed.

Lemma forallb_strip_nul (P : ascii -> bool) (field : list ascii) :
  forallb P field = true -> forallb P (strip_nul field) = true.
Proof.
  induction field as [|c field IH]; simpl; [reflexivity|].
  rewrite andb_true_iff. intros [Hc Hrest]. specialize (IH Hrest).
  destruct (strip_nul field) as [|x rest].
  - destruct (Ascii.eqb c NUL); simpl; [reflexivity | now rewrite Hc].
  - change (forallb P (c :: x :: rest)) with (P c && forallb P (x :: rest)).
    now rewrite Hc, IH.
Qed.

Lemma forallb_take {A} (P : A -> bool) (n : nat) (l : list A) :
  forallb P l = true -> forallb P (take n l) = true.
Proof.
  revert n. induction l as [|x l IH]; intros [|n]; simpl; auto.
  rewrite !andb_true_iff. intros [Hx Hl]. split; [exact Hx | now apply IH].
Qed.

Lemma strip_nul_S10_bytes (s : string) :
  strip_nul (S10_bytes s) = strip_nul (take 10 (list_ascii_of_string s)).
Proof.
  destruct (Nat.le_gt_cases (length (list_ascii_of_string s)) 10) as [Hle|Hgt].
  - unfold S10_bytes.
    rewrite take_ge by (rewrite length_app, length_replicate; lia).
    rewrite strip_nul_padding. now rewrite (take_ge _ 10) by lia.
  - now rewrite S10_bytes_long by lia.
Qed.

(** A convertible record is written as its row, and the row is read back
    as the record with the stored form of its label. *)
Lemma convertible_row (q : FlowQueue) :
  convertible q = true ->
  snd (FlowQueue_array q tt) = Return (stored_row q)
  /\ snd (FlowQueue_of_row (stored_row q) tt) = Return (read_back q).
Proof.
  unfold convertible. rewrite !andb_true_iff.
  intros ((((((Hx & Hy) & Hs) & He) & Hc) & Hz) & Ha).
  split.
  - unfold FlowQueue_array, stored_row, bind, to_i4, to_S10, ret.
    rewrite Hx, Hy, Hs, He, Hc, Hz, Ha. now destruct (point q).
  - unfold FlowQueue_of_row, stored_row, read_back, stored_label, bind,
      decode, ret.
    simpl. rewrite strip_nul_S10_bytes.
    now rewrite forallb_strip_nul by (apply forallb_take; exact Ha).
Qed.

Lemma fits_row_convertible (q : FlowQueue) :
  fits_row q = true -> convertible q = true.
Proof.
  unfold fits_row, convertible. rewrite !andb_true_iff. tauto.
Qed.

Lemma read_back_fits (q : FlowQueue) :
  fits_row q = true -> read_back q = q.
Proof.
  intros Hfit.
  destruct (convertible_row q (fits_row_convertible q Hfit)) as [_ Hback].
  destruct (FlowQueue_of_stored_row q tt Hfit) as [_ Hrow].
  rewrite Hrow in Hback. simpl in Hback. congruence.
Qed.

Lemma rows_of_convertible (qs : list FlowQueue) :
  Forall (fun q => convertible q = true) qs ->
  rows_of qs = Return (map stored_row qs)
  /\ snd (load_rows (map stored_row qs) tt) = Return (map read_back qs).
Proof.
  induction 1 as [|q qs Hq _ [IH1 IH2]]; simpl; [auto|].
  destruct (convertible_row q Hq) as [Harr Hrow].
  rewrite Harr, IH1. split; [reflexivity|].
  unfold bind at 1.
  destruct (FlowQueue_of_row (stored_row q) tt) as [[] [e|q']];
    simpl in Hrow; [discriminate|]. injection Hrow as ->.
  unfold bind at 1.
  destruct (load_rows (map stored_row qs) tt) as [[] [e|qs']];
    simpl in *; congruence.
Qed.

(** C10 (as amended). Only the type of [label] is checked, so the
    constructor accepts a string of any length, while the [S10] field of the
    row holds exactly ten bytes.  For a record whose label is ASCII text of
    more than ten bytes, construction and [append] succeed; the conversion
    of the label raises nothing and keeps the first ten bytes, and so does
    every row made from the record.  In a store whose container has a
    record table and the marker positions and whose records can all be
    written, [__exit__] succeeds and writes that row at the position of the
    record, and [load] then succeeds and gives, at that position, the
    record with its label cut to the first ten bytes (less the NUL bytes at
    their end) and all its other fields, which is another record; the
    records that fit the row layout are loaded as they were.  Whatever the
    other records, after an [__exit__] and a [load] that succeed no loaded
    record has the label of the record. *)
Theorem long_label_is_truncated (q : FlowQueue) :
  ascii_text (label q) = true ->
  (10 < length (list_ascii_of_string (label q)))%nat ->
  (forall s, type_check "label" (VStr s) = None) /\
  (forall s, length (S10_bytes s) = 10%nat) /\
  new_FlowQueue (VTuple [VInt (fst (point q)); VInt (snd (point q))])
    (VInt (start_frame q)) (VInt (end_frame q)) (VInt (camera q))
    (VInt (z_index q)) (VStr (label q)) (VBool (done q))
  = Return (to_object q) /\
  (forall w, inside_context (self w) = true ->
     snd (append q w) = Return tt
     /\ (q ∈ queues (self (fst (append q w))))) /\
  (forall S (s : S),
     to_S10 (label q) s
     = (s, Return (take 10 (list_ascii_of_string (label q))))) /\
  (forall S (s s' : S) row,
     FlowQueue_array q s = (s', Return row) ->
     row_label row = take 10 (list_ascii_of_string (label q))
     /\ row_label row <> list_ascii_of_string (label q)) /\
  (fits_i4 (fst (point q)) = true -> fits_i4 (snd (point q)) = true ->
   fits_i4 (start_frame q) = true -> fits_i4 (end_frame q) = true ->
   fits_i4 (camera q) = true -> fits_i4 (z_index q) = true ->
   forall S (s : S), FlowQueue_array q s = (s, Return (stored_row q))) /\
  (list_ascii_of_string (label (read_back q))
   = strip_nul (take 10 (list_ascii_of_string (label q))) /\
   (length (list_ascii_of_string (label (read_back q))) <= 10)%nat /\
   point (read_back q) = point q /\
   start_frame (read_back q) = start_frame q /\
   end_frame (read_back q) = end_frame q /\
   camera (read_back q) = camera q /\
   z_index (read_back q) = z_index q /\
   done (read_back q) = done q /\
   read_back q <> q) /\
  (forall w rows0 m i,
     table w = Some rows0 ->
     h5_markers (default empty_h5 (disk w)) = Some m ->
     Forall (fun p => convertible p = true) (queues (self w)) ->
     queues (self w) !! i = Some q ->
     exists w' rows td,
       exit w = (w', Return tt) /\
       inside_context (self w') = false /\
       table w' = Some rows /\
       length rows = length (queues (self w)) /\
       rows !! i = Some (stored_row q) /\
       load (disk w') = Return td /\
       length (queues td) = length (queues (self w)) /\
       queues td !! i = Some (read_back q) /\
       (forall j p, queues (self w) !! j = Some p -> fits_row p = true ->
                    queues td !! j = Some p)) /\
  (forall w w' td,
     (q ∈ queues (self w)) ->
     exit w = (w', Return tt) -> load (disk w') = Return td ->
     (q ∉ queues td)
     /\ forall q', (q' ∈ queues td) -> label q' <> label q).
Proof.
  intros Hascii Hlong.
  assert (Hback : list_ascii_of_string (label (read_back q))
                  = strip_nul (take 10 (list_ascii_of_string (label q))))
    by (simpl; unfold stored_label;
        apply list_ascii_of_string_of_list_ascii).
  assert (Hshort : (length (list_ascii_of_string (label (read_back q)))
                    <= 10)%nat).
  { rewrite Hback.
    pose proof (strip_nul_length (take 10 (list_ascii_of_string (label q))))
      as Hlen.
    rewrite length_take in Hlen. lia. }
  split; [reflexivity|]. split; [apply S10_bytes_length|].
  split; [apply new_FlowQueue_typed|].
  split; [intros w; apply append_succeeds|].
  split.
  { intros S s. unfold to_S10. now rewrite Hascii, S10_bytes_long. }
  split.
  { intros S s s' row Hrow.
    pose proof (FlowQueue_array_inv q s) as Hinv. rewrite Hrow in Hinv.
    destruct Hinv as (_ & -> & _). simpl.
    rewrite S10_bytes_long by assumption. split; [reflexivity|].
    intros Heq. apply (f_equal length) in Heq.
    rewrite length_take in Heq. lia. }
  split.
  { intros Hx Hy Hs He Hc Hz S s.
    unfold FlowQueue_array, stored_row, bind, to_i4, to_S10, ret.
    rewrite Hx, Hy, Hs, He, Hc, Hz, Hascii. now destruct (point q). }
  split.
  { split; [exact Hback|]. split; [exact Hshort|].
    do 6 (split; [reflexivity|]).
    intros Heq. rewrite Heq in Hshort. lia. }
  split.
  { intros w rows0 m i Htable Hm Hconv Hi.
    destruct (rows_of_convertible _ Hconv) as [Hrows Hload].
    pose proof (exit_spec w rows0 Htable) as Hexit. rewrite Hrows in Hexit.
    eexists _, _, _. split; [exact Hexit|].
    split; [reflexivity|]. split; [reflexivity|].
    split; [apply length_map|].
    split; [now rewrite map_lookup, Hi|].
    split; [now rewrite load_flushed, Hm, Hload|].
    simpl. split; [apply length_map|].
    split; [now rewrite map_lookup, Hi|].
    intros j p Hj Hfit. rewrite map_lookup, Hj. simpl.
    now rewrite read_back_fits. }
  intros w w' td Hq Hexit Hload.
  pose proof (exit_then_load_labels w w' td Hexit Hload) as Hshort'.
  rewrite Forall_forall in Hshort'.
  assert (Hne : forall q', q' ∈ queues td -> label q' <> label q).
  { intros q' Hq' Heq. specialize (Hshort' q' Hq'). rewrite Heq in Hshort'.
    lia. }
  split; [|exact Hne].
  intros Hin. now apply (Hne q Hin).
Qed.

Lemma long_label_is_truncated_witness :
  let a := mkFlowQueue (5, 5) 0 10 1 0 "m0" true in
  let w := acquired_fresh [a; long_label] in
  ascii_text (label long_label) = true /\
  length (list_ascii_of_string (label long_label)) = 12%nat /\
  FlowQueue_array long_label tt = (tt, Return (stored_row long_label)) /\
  row_label (stored_row long_label) = list_ascii_of_string "marker-000" /\
  read_back long_label = mkFlowQueue (1, 1) 0 10 0 0 "marker-000" false /\
  exists w',
    exit w = (w', Return tt) /\
    table w' = Some [stored_row a; stored_row long_label] /\
    load (disk w')
    = Return (mkTrackingData [a; read_back long_label] "markers" false) /\
    long_label ∉ [a; read_back long_label].
Proof.
  intros a w.
  destruct (long_label_is_truncated long_label eq_refl ltac:(simpl; lia))
    as (_ & _ & _ & _ & _ & _ & Harr & _ & Hflush & Hround).
  split; [reflexivity|]. split; [reflexivity|].
  split; [now apply Harr|]. split; [reflexivity|]. split; [reflexivity|].
  destruct (Hflush w [zero_row] "markers" 1%nat eq_refl eq_refl
              ltac:(repeat constructor) eq_refl)
    as (w' & rows & td & Hexit & _ & _ & _ & _ & Hload & _).
  exists w'. split; [exact Hexit|].
  assert (Hw' : w' = fst (exit w)) by now rewrite Hexit.
  split; [rewrite Hw'; reflexivity|].
  assert (Htd : load (disk w')
                = Return (mkTrackingData [a; read_back long_label]
                            "markers" false))
    by (rewrite Hw'; reflexivity).
  split; [exact Htd|].
  destruct (Hround w w' (mkTrackingData [a; read_back long_label]
                           "markers" false)
              ltac:(right; left) Hexit Htd) as [Hnot _].
  exact Hnot.
Defined.

(** C10, as stated, fails for a label with a character outside ASCII: the
    constructor and [append] accept the record, whose label has twelve
    bytes, but numpy refuses to encode the label, so the conversion to a
    row and [__exit__] raise [UnicodeEncodeError]; no row is written for
    the record, and the container holds the row of zeros of the template
    instead of a row with a shortened label. *)
Lemma long_accented_label_is_not_truncated :
  let q := long_accented_label in
  let w := fst (append q (acquired_fresh [])) in
  length (list_ascii_of_string (label q)) = 12%nat /\
  new_FlowQueue (VTuple [VInt 1; VInt 1]) (VInt 0) (VInt 10) (VInt 0)
    (VInt 0) (VStr (label q)) (VBool false)
  = Return (to_object q) /\
  append q (acquired_fresh []) = (acquired_fresh [q], Return tt) /\
  snd (to_S10 (label q) tt) = Raise UnicodeEncodeError /\
  snd (FlowQueue_array q tt) = Raise UnicodeEncodeError /\
  snd (exit w) = Raise UnicodeEncodeError /\
  inside_context (self (fst (exit w))) = true /\
  table (fst (exit w)) = Some [zero_row] /\
  load (disk (fst (exit w)))
  = Return (mkTrackingData [mkFlowQueue (0, 0) 0 0 0 0 "" false]
              "markers" false).
Proof.
  intros q w.
  split; [reflexivity|].
  split; [exact (new_FlowQueue_typed long_accented_label)|].
  split; [reflexivity|].
  repeat (split; [vm_compute; reflexivity|]).
  vm_compute; reflexivity.
Qed.

(** ** Entering the context *)

(** [__enter__] on a store whose container does not exist yet creates the
    template: a record table of one default row and the marker positions.
    A record table and the marker positions are what [__exit__] and [load]
    need. *)
Lemma enter_creates_template (path : string) (w : World) :
  dirname path <> EmptyString ->
  disk w = None ->
  exists w',
    enter path w = (w', Return tt) /\
    inside_context (self w') = true /\
    queues (self w') = queues (self w) /\
    table w' = Some [zero_row] /\
    h5_markers (default empty_h5 (disk w')) = Some (marker_positions (self w))
    /\ datasets w' = ∅.
Proof.
  intros Hpath Hdisk. unfold enter, bind, modify, get, ret. simpl.
  rewrite Hdisk. unfold create_template.
  rewrite raise_if_outside_context_inside by reflexivity.
  unfold bind, modify, makedirs.
  rewrite bool_decide_eq_false_2 by assumption.
  simpl. eexists. split; [reflexivity|].
  repeat split.
Qed.


(** * Further properties of the store *)

(** ** Progress queries *)

Lemma forallb_done_iff (qs : list FlowQueue) :
  forallb done qs = true <-> forall q, q ∈ qs -> done q = true.
Proof.
  induction qs as [|q qs IH]; simpl.
  - split; [intros _ q Hq; inversion Hq | reflexivity].
  - rewrite andb_true_iff, IH. split.
    + intros [Hq Hqs] x Hx. apply elem_of_cons in Hx as [->|Hx]; auto.
    + intros H. split; [apply H; left | intros x Hx; apply H; now right].
Qed.

Lemma all_done_run (w : World) :
  inside_context (self w) = true ->
  all_done w = (w, Return (forallb done (queues (self w)))).
Proof.
  intros Hin. unfold all_done.
  rewrite raise_if_outside_context_inside by assumption.
  unfold bind, get, ret. now destruct (queues (self w)).
Qed.

(** X1. Inside the context [all_done] changes nothing and answers true
    exactly when every record is done, in particular for an empty
    collection; putting a record back to not done, at any position, makes
    the answer false. *)
Theorem all_done_iff_every_record_done (w : World) :
  inside_context (self w) = true ->
  exists b,
    all_done w = (w, Return b) /\
    (b = true <-> forall q, q ∈ queues (self w) -> done q = true) /\
    (queues (self w) = [] -> b = true) /\
    forall (i : nat) q,
      queues (self w) !! i = Some q ->
      snd (all_done
             (set_queues (<[i := set_done false q]> (queues (self w))) w))
      = Return false.
Proof.
  intros Hin. exists (forallb done (queues (self w))).
  split; [now apply all_done_run|]. split; [apply forallb_done_iff|].
  split; [now intros ->|].
  intros i q Hq. rewrite all_done_run by exact Hin. simpl. f_equal.
  destruct (forallb done _) eqn:Hall; [|reflexivity].
  rewrite forallb_done_iff in Hall.
  specialize (Hall (set_done false q)). simpl in Hall. symmetry. apply Hall.
  apply list_elem_of_insert. now apply lookup_lt_Some in Hq.
Qed.

Lemma all_done_iff_every_record_done_witness :
  let a := mkFlowQueue (1, 1) 0 10 0 0 "m0" true in
  let b := mkFlowQueue (5, 5) 0 10 1 0 "m0" true in
  let w := acquired_fresh [a; b] in
  all_done w = (w, Return true)
  /\ snd (all_done (set_queues [a; set_done false b] w)) = Return false.
Proof.
  intros a b w.
  destruct (all_done_iff_every_record_done w eq_refl)
    as (x & Hrun & Hiff & _ & Hflip).
  split.
  - rewrite Hrun. do 2 f_equal. apply Hiff. intros q Hq.
    apply elem_of_cons in Hq as [->|Hq];
      [|apply list_elem_of_singleton in Hq as ->]; reflexivity.
  - exact (Hflip 1%nat b eq_refl).
Defined.

(** X2. Inside the context [iter_cameras] changes nothing and returns the
    camera ids of the records in increasing order, each once: the list is
    sorted, has no duplicate, and holds exactly the cameras that occur. *)
Theorem iter_cameras_sorted_distinct (w : World) :
  inside_context (self w) = true ->
  exists cams,
    iter_cameras w = (w, Return cams) /\
    Sorted Z.le cams /\ NoDup cams /\
    forall c, c ∈ cams <-> exists q, q ∈ queues (self w) /\ camera q = c.
Proof.
  intros Hin. unfold iter_cameras.
  rewrite raise_if_outside_context_inside by assumption.
  unfold bind, get, ret. eexists. split; [reflexivity|].
  split; [apply Sorted_merge_sort; apply _|].
  split.
  - rewrite merge_sort_Permutation. apply NoDup_remove_dups.
  - intros c. rewrite merge_sort_Permutation, elem_of_remove_dups.
    rewrite list_elem_of_fmap. split.
    + intros (q & -> & Hq). eauto.
    + intros (q & Hq & <-). eauto.
Qed.

Lemma iter_cameras_sorted_distinct_witness :
  let a := mkFlowQueue (1, 1) 0 10 2 0 "m0" false in
  let b := mkFlowQueue (5, 5) 0 10 0 0 "m0" false in
  let c := mkFlowQueue (7, 7) 0 10 2 1 "m1" false in
  let w := acquired_fresh [a; b; c] in
  iter_cameras w = (w, Return [0; 2]) /\
  exists cams,
    iter_cameras w = (w, Return cams) /\
    Sorted Z.le cams /\ NoDup cams /\
    forall x, x ∈ cams <-> exists q, q ∈ queues (self w) /\ camera q = x.
Proof.
  intros a b c w. split; [reflexivity|].
  exact (iter_cameras_sorted_distinct w eq_refl).
Defined.

Lemma filter_pending_nil (qs : list FlowQueue) :
  List.filter (selected None None false None) qs = []
  <-> forallb done qs = true.
Proof.
  induction qs as [|q qs IH]; simpl; [tauto|].
  unfold selected at 1. simpl.
  destruct (done q); simpl; [exact IH|]. split; discriminate.
Qed.

Lemma filter_all (qs : list FlowQueue) :
  List.filter (selected None None true None) qs = qs.
Proof.
  induction qs as [|q qs IH]; simpl; [reflexivity|].
  unfold selected at 1. simpl. rewrite orb_true_r. now rewrite IH.
Qed.

Lemma get_flow_queues_run (w : World) c s f t :
  inside_context (self w) = true ->
  get_flow_queues c s f t w
  = (w, Return (List.filter (selected c s f t) (queues (self w)))).
Proof.
  intros Hin. unfold get_flow_queues.
  rewrite raise_if_outside_context_inside by assumption.
  unfold bind, get, ret. now rewrite filter_loop_spec.
Qed.

(** X3. Inside the context the unfiltered query for pending work is empty
    exactly when [all_done] answers true, and the unfiltered query with
    [force_run_all] returns the whole collection in order. *)
Theorem no_pending_work_iff_all_done (w : World) :
  inside_context (self w) = true ->
  (snd (get_flow_queues None None false None w) = Return []
   <-> snd (all_done w) = Return true) /\
  get_flow_queues None None true None w = (w, Return (queues (self w))).
Proof.
  intros Hin. rewrite !get_flow_queues_run, all_done_run by assumption.
  simpl. rewrite filter_all. split; [|reflexivity].
  split; intros [= H]; f_equal; now apply filter_pending_nil.
Qed.

Lemma no_pending_work_iff_all_done_witness :
  let a := mkFlowQueue (1, 1) 0 10 0 0 "m0" true in
  let w := acquired_fresh [a] in
  snd (get_flow_queues None None false None w) = Return []
  /\ get_flow_queues None None true None w = (w, Return [a]).
Proof.
  intros a w.
  destruct (no_pending_work_iff_all_done w eq_refl) as [Hiff Hall].
  split; [apply Hiff; reflexivity | exact Hall].
Defined.

(** ** Upsert, continued *)

Lemma FlowQueue_eq_refl (a : FlowQueue) : FlowQueue_eq a a = true.
Proof. now apply FlowQueue_eq_iff. Qed.

Lemma FlowQueue_eq_sym (a b : FlowQueue) :
  FlowQueue_eq a b = FlowQueue_eq b a.
Proof.
  destruct (FlowQueue_eq a b) eqn:Hab, (FlowQueue_eq b a) eqn:Hba;
    try reflexivity.
  - apply FlowQueue_eq_iff in Hab. rewrite <- Hba. symmetry.
    apply FlowQueue_eq_iff. intuition congruence.
  - apply FlowQueue_eq_iff in Hba. rewrite <- Hab.
    apply FlowQueue_eq_iff. intuition congruence.
Qed.

Lemma FlowQueue_eq_trans (a b c : FlowQueue) :
  FlowQueue_eq a b = true -> FlowQueue_eq b c = true ->
  FlowQueue_eq a c = true.
Proof.
  rewrite !FlowQueue_eq_iff. intuition congruence.
Qed.

Lemma index_Some (value : FlowQueue) (l : list FlowQueue) (idx : nat) :
  index value l = Some idx ->
  exists old, l !! idx = Some old /\ FlowQueue_eq old value = true /\
    forall j y, (j < idx)%nat -> l !! j = Some y -> FlowQueue_eq y value = false.
Proof.
  revert idx. induction l as [|x l IH]; simpl; intros idx; [discriminate|].
  destruct (FlowQueue_eq x value) eqn:Hx.
  - intros [= <-]. exists x. repeat split; auto. intros j y Hj. lia.
  - destruct (index value l) as [k|] eqn:Hk; [|discriminate].
    intros [= <-]. destruct (IH k eq_refl) as (old & Hold & Heq & Hbefore).
    exists old. repeat split; auto.
    intros [|j] y Hj Hy; simpl in Hy.
    + now injection Hy as <-.
    + apply (Hbefore j); [lia | assumption].
Qed.

Lemma index_None (value : FlowQueue) (l : list FlowQueue) :
  index value l = None <-> existsb (fun x => FlowQueue_eq x value) l = false.
Proof.
  induction l as [|x l IH]; simpl; [tauto|].
  destruct (FlowQueue_eq x value); simpl.
  - split; discriminate.
  - rewrite <- IH. destruct (index value l); simpl; split; congruence.
Qed.

Lemma append_run (w : World) (value : FlowQueue) :
  inside_context (self w) = true ->
  append value w = (set_queues (upsert value (queues (self w))) w, Return tt).
Proof.
  intros Hin. unfold append, upsert.
  rewrite raise_if_outside_context_inside by assumption.
  unfold bind, get, ret, modify.
  destruct (existsb _ (queues (self w))) eqn:Hex.
  - destruct (index value (queues (self w))) eqn:Hidx; [reflexivity|].
    apply index_None in Hidx. congruence.
  - apply index_None in Hex. now rewrite Hex.
Qed.

Lemma upsert_pairwise_distinct (value : FlowQueue) (qs : list FlowQueue) :
  pairwise_distinct qs -> pairwise_distinct (upsert value qs).
Proof.
  intros Hqs. unfold upsert.
  destruct (index value qs) as [idx|] eqn:Hidx.
  - destruct (index_Some _ _ _ Hidx) as (old & Hold & Heq & _).
    assert (Hlt : (idx < length qs)%nat) by now apply lookup_lt_Some in Hold.
    assert (Hother : forall j y, j <> idx -> qs !! j = Some y ->
                                 FlowQueue_eq value y = false).
    { intros j y Hj Hy.
      destruct (FlowQueue_eq value y) eqn:Hvy; [|reflexivity].
      rewrite <- (Hqs idx j old y); auto.
      symmetry. now apply FlowQueue_eq_trans with value. }
    intros i j x y Hij Hx Hy.
    destruct (decide (i = idx)) as [->|Hi], (decide (j = idx)) as [->|Hj];
      try congruence.
    + rewrite list_lookup_insert_eq in Hx by assumption.
      rewrite list_lookup_insert_ne in Hy by congruence.
      injection Hx as <-. now apply (Hother j).
    + rewrite list_lookup_insert_ne in Hx by congruence.
      rewrite list_lookup_insert_eq in Hy by assumption.
      injection Hy as <-. rewrite FlowQueue_eq_sym. now apply (Hother i).
    + rewrite list_lookup_insert_ne in Hx, Hy by congruence.
      now apply (Hqs i j).
  - apply index_None in Hidx. rewrite existsb_false_iff in Hidx.
    intros i j x y Hij Hx Hy.
    apply lookup_app_Some in Hx as [Hx|[Hi Hx]],
          Hy as [Hy|[Hj Hy]].
    + now apply (Hqs i j).
    + apply list_lookup_singleton_Some in Hy as [_ <-].
      apply Hidx. now apply list_elem_of_lookup_2 in Hx.
    + apply list_lookup_singleton_Some in Hx as [_ <-].
      rewrite FlowQueue_eq_sym. apply Hidx.
      now apply list_elem_of_lookup_2 in Hy.
    + apply list_lookup_singleton_Some in Hx as [Hi' _].
      apply list_lookup_singleton_Some in Hy as [Hj' _]. lia.
Qed.

(** X4. [__eq__] is an equivalence on records, and [append] keeps the
    collection free of equal records: if no two records at different
    positions are equal before the call, none are after it.  A collection
    built from the empty one by [append] alone therefore never holds two
    records that are equal. *)
Theorem append_keeps_records_distinct (w : World) (value : FlowQueue) :
  inside_context (self w) = true ->
  pairwise_distinct (queues (self w)) ->
  (forall a, FlowQueue_eq a a = true) /\
  (forall a b, FlowQueue_eq a b = FlowQueue_eq b a) /\
  (forall a b c, FlowQueue_eq a b = true -> FlowQueue_eq b c = true ->
                 FlowQueue_eq a c = true) /\
  pairwise_distinct [] /\
  exists w',
    append value w = (w', Return tt) /\ pairwise_distinct (queues (self w')).
Proof.
  intros Hin Hqs.
  split; [exact FlowQueue_eq_refl|]. split; [exact FlowQueue_eq_sym|].
  split; [exact FlowQueue_eq_trans|].
  split; [intros i j x y _ Hx; inversion Hx|].
  eexists. split; [now apply append_run|].
  simpl. now apply upsert_pairwise_distinct.
Qed.

Lemma append_keeps_records_distinct_witness :
  let a := mkFlowQueue (1, 1) 0 10 0 0 "m0" false in
  let w := acquired_fresh [a] in
  exists w',
    append (set_done true a) w = (w', Return tt)
    /\ pairwise_distinct (queues (self w')).
Proof.
  intros a w.
  assert (Hdistinct : pairwise_distinct (queues (self w))).
  { intros [|i] [|j] x y Hij Hx Hy; try discriminate. congruence. }
  destruct (append_keeps_records_distinct w (set_done true a) eq_refl
              Hdistinct) as (_ & _ & _ & _ & Hw').
  exact Hw'.
Defined.

Lemma upsert_twice (value : FlowQueue) (qs : list FlowQueue) :
  upsert value (upsert value qs) = upsert value qs.
Proof.
  destruct (index value qs) as [idx|] eqn:Hidx.
  - assert (Hup : upsert value qs = <[idx := value]> qs)
      by (unfold upsert; now rewrite Hidx).
    rewrite Hup.
    destruct (index_Some _ _ _ Hidx) as (old & Hold & _ & Hbefore).
    assert (Hlt : (idx < length qs)%nat) by now apply lookup_lt_Some in Hold.
    assert (Hidx' : index value (<[idx := value]> qs) = Some idx).
    { clear Hidx old Hold Hup. revert idx Hbefore Hlt.
      induction qs as [|x qs IH]; intros idx Hbefore Hlt; simpl in *; [lia|].
      destruct idx as [|idx]; simpl.
      - now rewrite FlowQueue_eq_refl.
      - rewrite (Hbefore 0%nat x) by (lia || reflexivity).
        rewrite IH; [reflexivity | | lia].
        intros j y Hj Hy. apply (Hbefore (S j)); [lia | exact Hy]. }
    unfold upsert. rewrite Hidx'. apply list_insert_insert_eq.
  - assert (Hup : upsert value qs = qs ++ [value])
      by (unfold upsert; now rewrite Hidx).
    rewrite Hup.
    assert (Hidx' : index value (qs ++ [value]) = Some (length qs)).
    { apply index_None in Hidx. rewrite existsb_false_iff in Hidx.
      clear - Hidx. induction qs as [|x qs IH]; simpl.
      - now rewrite FlowQueue_eq_refl.
      - rewrite (Hidx x) by left. rewrite IH; [reflexivity|].
        intros y Hy. apply Hidx. now right. }
    unfold upsert. rewrite Hidx'.
    replace (length qs) with (length qs + 0)%nat at 1 by lia.
    now rewrite insert_app_r.
Qed.

(** X5. [append] is idempotent: appending the same record twice in a row
    leaves the store exactly as appending it once. *)
Theorem append_twice_is_append_once (w : World) (value : FlowQueue) :
  inside_context (self w) = true ->
  (append value ;; append value) w = append value w.
Proof.
  intros Hin. unfold bind. rewrite (append_run w value Hin).
  rewrite append_run by exact Hin. simpl.
  rewrite upsert_twice. reflexivity.
Qed.

Lemma append_twice_is_append_once_witness :
  let a := mkFlowQueue (1, 1) 0 10 0 0 "m0" false in
  let b := mkFlowQueue (5, 5) 0 10 0 0 "m0" true in
  let w := acquired_fresh [a] in
  (append b ;; append b) w = (set_queues [a; b] w, Return tt).
Proof.
  intros a b w.
  rewrite (append_twice_is_append_once w b eq_refl). reflexivity.
Defined.

(** ** Flushing, continued *)

Lemma flush_loop_fail (pre : list FlowQueue) :
  forall (w : World) (done_ rest : list QRow) q post e rows_pre,
  table w = Some (done_ ++ rest) ->
  length rest = length (pre ++ q :: post) ->
  rows_of pre = Return rows_pre ->
  snd (FlowQueue_array q tt) = Raise e ->
  flush_loop (length done_) (pre ++ q :: post) w
  = (put_queues (done_ ++ rows_pre ++ drop (length pre) rest) w, Raise e).
Proof.
  induction pre as [|p pre IH];
    intros w done_ rest q post e rows_pre Htable Hrest Hpre Hq.
  - injection Hpre as <-. simpl. unfold bind at 1.
    pose proof (FlowQueue_array_inv q w) as Hrow.
    destruct (FlowQueue_array q w) as [w0 [e'|row]].
    + destruct Hrow as [-> Hrow]. rewrite Hq in Hrow. injection Hrow as <-.
      now rewrite put_queues_id.
    + destruct Hrow as (_ & _ & Hrow & _). congruence.
  - simpl in Hpre.
    pose proof (FlowQueue_array_inv p w) as Hrow.
    destruct (FlowQueue_array p w) as [w0 [e'|row]] eqn:Harr.
    + destruct Hrow as [_ Hrow]. rewrite Hrow in Hpre. discriminate.
    + destruct Hrow as (-> & _ & Hrow & _). rewrite Hrow in Hpre.
      destruct (rows_of pre) as [e'|rows'] eqn:Hrows; [discriminate|].
      injection Hpre as <-.
      destruct rest as [|r0 rest]; [discriminate|].
      change ((p :: pre) ++ q :: post) with (p :: (pre ++ q :: post)).
      rewrite (flush_step p _ w row done_ r0 rest Harr Htable).
      assert (Hlen : length (done_ ++ [row]) = S (length done_))
        by (rewrite length_app; simpl; lia).
      rewrite <- Hlen.
      rewrite (IH (put_queues ((done_ ++ [row]) ++ rest) (opened w))
                 (done_ ++ [row]) rest q post e rows' eq_refl);
        [| simpl in Hrest; lia | reflexivity | assumption].
      rewrite put_queues_twice, <- app_assoc. reflexivity.
Qed.

(** X6. A record that cannot be converted to a row aborts [__exit__]
    midway: the exception of the conversion is raised, the record table has
    already been resized to the number of records and the rows of the
    records before the failing one are written, the rows from the failing
    one on are whatever the resized table held, the trajectories are
    untouched, and the store is still inside the context. *)
Theorem exit_aborts_at_unconvertible_record (w : World) (rows0 : list QRow)
    (pre post : list FlowQueue) (q : FlowQueue) (e : exn)
    (rows_pre : list QRow) :
  table w = Some rows0 ->
  queues (self w) = pre ++ q :: post ->
  rows_of pre = Return rows_pre ->
  snd (FlowQueue_array q tt) = Raise e ->
  exists w',
    exit w = (w', Raise e) /\
    self w' = self w /\
    table w' = Some (rows_pre
                     ++ drop (length pre)
                          (resize (length (queues (self w))) rows0)) /\
    length (rows_pre
            ++ drop (length pre) (resize (length (queues (self w))) rows0))
    = length (queues (self w)) /\
    datasets w' = datasets w.
Proof.
  intros Htable Hqs Hpre Hq.
  rewrite (exit_unfold w rows0 Htable). unfold bind.
  set (n := length (queues (self w))).
  change (queues (self (put_queues (resize n rows0) (opened w))))
    with (queues (self w)).
  rewrite Hqs.
  assert (Hloop := flush_loop_fail pre
                      (put_queues (resize n rows0) (opened w)) []
                      (resize n rows0) q post e rows_pre eq_refl).
  change (length (@nil QRow)) with 0%nat in Hloop.
  rewrite Hloop;
    [| rewrite resize_length; subst n; now rewrite Hqs | assumption..].
  rewrite put_queues_twice. simpl.
  eexists. split; [reflexivity|]. repeat split.
  assert (Hlen : length rows_pre = length pre).
  { clear - Hpre. revert rows_pre Hpre.
    induction pre as [|p pre IH]; simpl; intros rows_pre.
    - now intros [= <-].
    - destruct (snd (FlowQueue_array p tt)); [discriminate|].
      destruct (rows_of pre) as [e'|rows']; [discriminate|].
      intros [= <-]. simpl. now rewrite (IH rows'). }
  rewrite length_app, length_drop, resize_length, Hlen. subst n.
  rewrite Hqs, length_app. simpl. lia.
Qed.

Lemma exit_aborts_at_unconvertible_record_witness :
  let a := mkFlowQueue (1, 1) 0 10 0 0 "m0" true in
  let w := acquired_fresh [a; accented_label; a] in
  exists w',
    exit w = (w', Raise UnicodeEncodeError) /\
    self w' = self w /\
    table w' = Some ([stored_row a]
                     ++ drop 1 (resize (length (queues (self w))) [zero_row]))
    /\ length ([stored_row a]
               ++ drop 1 (resize (length (queues (self w))) [zero_row]))
       = length (queues (self w)) /\
    datasets w' = datasets w.
Proof.
  intros a w.
  exact (exit_aborts_at_unconvertible_record w [zero_row] [a] [a]
           accented_label UnicodeEncodeError [stored_row a]
           eq_refl eq_refl eq_refl eq_refl).
Defined.

(** X7. [__exit__] on a store whose container has no record table, in
    particular when there is no file at all (the context was never
    entered), raises [KeyError]; opening the file in append mode has created
    an empty container if there was none, and the store object is as it
    was: it does not leave the context. *)
Theorem exit_without_record_table (w : World) :
  table w = None ->
  exit w = (opened w, Raise KeyError) /\
  self (opened w) = self w /\
  (disk w = None -> disk (opened w) = Some empty_h5) /\
  (forall h5f, disk w = Some h5f -> opened w = w).
Proof.
  intros Htable. split.
  - unfold exit.
    unfold bind at 1. unfold open_append at 1. unfold bind at 1.
    unfold modify at 1. unfold bind at 1. unfold get at 1. unfold ret at 1.
    change (default empty_h5 (disk (set_disk (default empty_h5 (disk w)) w)))
      with (default empty_h5 (disk w)).
    unfold table in Htable. now rewrite Htable.
  - split; [reflexivity|]. split.
    + intros Hdisk. unfold opened. now rewrite Hdisk.
    + intros h5f Hdisk. unfold opened, set_disk. rewrite Hdisk.
      destruct w. simpl in *. now subst.
Qed.

Lemma exit_without_record_table_witness :
  let w := mkWorld (mkTrackingData [] "markers" false) None in
  exit w = (mkWorld (mkTrackingData [] "markers" false) (Some empty_h5),
            Raise KeyError).
Proof.
  intros w. exact (proj1 (exit_without_record_table w eq_refl)).
Defined.

(** ** Loading, continued *)

Lemma strip_nul_idempotent (field : list ascii) :
  strip_nul (strip_nul field) = strip_nul field.
Proof.
  induction field as [|c field IH]; simpl; [reflexivity|].
  destruct (strip_nul field) as [|x rest] eqn:Hstrip.
  - destruct (Ascii.eqb c NUL) eqn:Hc; simpl; [reflexivity|].
    now rewrite Hc.
  - change (strip_nul (c :: x :: rest))
      with (match strip_nul (x :: rest) with
            | [] => if Ascii.eqb c NUL then [] else [c]
            | rest' => c :: rest'
            end).
    now rewrite IH.
Qed.

Lemma strip_nul_pad (field : list ascii) :
  strip_nul field
  ++ replicate (length field - length (strip_nul field))%nat NUL = field.
Proof.
  induction field as [|c field IH]; simpl; [reflexivity|].
  destruct (strip_nul field) as [|x rest] eqn:Hstrip.
  - simpl in IH. rewrite Nat.sub_0_r in IH.
    destruct (Ascii.eqb_spec c NUL) as [->|Hc]; simpl.
    + now rewrite IH.
    + rewrite Nat.sub_0_r. now rewrite IH.
  - simpl in *. now rewrite IH.
Qed.

(** The record read back from the row of a record fits the row layout
    and has that very row. *)
Lemma loaded_record_fits (q q' : FlowQueue) (row : QRow) :
  snd (FlowQueue_array q tt) = Return row ->
  snd (FlowQueue_of_row row tt) = Return q' ->
  fits_row q' = true /\ stored_row q' = row
  /\ snd (FlowQueue_array q' tt) = Return row.
Proof.
  intros Harr Hload.
  pose proof (FlowQueue_array_inv q tt) as Hinv.
  destruct (FlowQueue_array q tt) as [[] [e|row']]; simpl in Harr;
    [discriminate|].
  injection Harr as ->.
  destruct Hinv as (_ & -> & _ & Hx & Hy & Hs & He & Hc & Hz & _).
  unfold FlowQueue_of_row, bind, decode, ret, raise in Hload.
  simpl in Hload.
  destruct (forallb is_ascii (strip_nul (S10_bytes (label q)))) eqn:Hascii;
    [|discriminate].
  simpl in Hload. injection Hload as <-.
  assert (Hlen : (length (strip_nul (S10_bytes (label q))) <= 10)%nat).
  { pose proof (strip_nul_length (S10_bytes (label q))) as H.
    now rewrite S10_bytes_length in H. }
  assert (Hfit : fits_row
                   (mkFlowQueue (point q) (start_frame q) (end_frame q)
                      (camera q) (z_index q)
                      (string_of_list_ascii
                         (strip_nul (S10_bytes (label q)))) (done q))
                 = true).
  { unfold fits_row, ascii_text. simpl.
    rewrite list_ascii_of_string_of_list_ascii.
    rewrite Hx, Hy, Hs, He, Hc, Hz, Hascii. simpl.
    rewrite strip_nul_idempotent, bool_decide_eq_true_2 by reflexivity.
    rewrite andb_true_r. now apply Nat.leb_le. }
  assert (Hrow : stored_row
                   (mkFlowQueue (point q) (start_frame q) (end_frame q)
                      (camera q) (z_index q)
                      (string_of_list_ascii
                         (strip_nul (S10_bytes (label q)))) (done q))
                 = stored_row q).
  { unfold stored_row. simpl. f_equal.
    unfold S10_bytes at 1. rewrite list_ascii_of_string_of_list_ascii.
    pose proof (strip_nul_pad (S10_bytes (label q))) as Hpad.
    rewrite S10_bytes_length in Hpad. rewrite Hpad.
    apply take_ge. now rewrite S10_bytes_length. }
  split; [exact Hfit|]. split; [exact Hrow|].
  rewrite <- Hrow.
  now destruct (FlowQueue_of_stored_row _ tt Hfit) as [-> _].
Qed.

Lemma loaded_records_fit (qs : list FlowQueue) :
  forall rows qs',
  rows_of qs = Return rows ->
  snd (load_rows rows tt) = Return qs' ->
  Forall (fun q' => fits_row q' = true) qs' /\ rows_of qs' = Return rows.
Proof.
  induction qs as [|q qs IH]; simpl; intros rows qs'.
  - intros [= <-]. simpl. intros [= <-]. split; [constructor | reflexivity].
  - destruct (snd (FlowQueue_array q tt)) as [e|row] eqn:Harr;
      [discriminate|].
    destruct (rows_of qs) as [e|rows'] eqn:Hrows; [discriminate|].
    intros [= <-]. simpl. unfold bind at 1.
    destruct (FlowQueue_of_row row tt) as [[] [e|q']] eqn:Hq';
      [discriminate|].
    unfold bind at 1.
    destruct (load_rows rows' tt) as [[] [e|qs'']] eqn:Hqs'';
      [discriminate|].
    unfold ret. simpl. intros [= <-].
    destruct (IH rows' qs'' eq_refl) as [Hfit Hrows''];
      [now rewrite Hqs''|].
    destruct (loaded_record_fits q q' row Harr) as (Hq'fit & _ & Hq'row);
      [now rewrite Hq'|].
    split; [now constructor|].
    simpl. now rewrite Hq'row, Hrows''.
Qed.

(** X8. What [load] reads back after a successful [__exit__] always fits
    the row layout, whatever the records were before (labels cut to ten
    bytes or stripped of trailing NUL bytes included), and converts to the
    very rows that are in the table: flushing the loaded store again
    rewrites the same table, and a further load gives the same records. *)
Theorem loaded_store_is_stable (w w1 : World) (td : TrackingData) :
  exit w = (w1, Return tt) ->
  load (disk w1) = Return td ->
  Forall (fun q' => fits_row q' = true) (queues td) /\
  length (queues td) = length (queues (self w)) /\
  exists rows,
    table w1 = Some rows /\ rows_of (queues td) = Return rows /\
    forall w2,
      self w2 = td -> disk w2 = disk w1 ->
      exit w2 = (set_inside_context false (put_queues rows w2), Return tt)
      /\ load (disk (set_inside_context false (put_queues rows w2)))
         = Return td.
Proof.
  intros Hexit Hload.
  destruct (table w) as [rows0|] eqn:Htable.
  2:{ pose proof (exit_without_table w Htable) as H.
      rewrite Hexit in H. discriminate. }
  pose proof (exit_spec w rows0 Htable) as Hspec.
  destruct (rows_of (queues (self w))) as [e|rows] eqn:Hrows.
  { rewrite Hexit in Hspec. discriminate. }
  rewrite Hexit in Hspec. injection Hspec as ->.
  rewrite load_flushed in Hload.
  destruct (h5_markers (default empty_h5 (disk w))) as [m|] eqn:Hm;
    [|discriminate].
  destruct (snd (load_rows rows tt)) as [e|qs'] eqn:Hqs'; [discriminate|].
  injection Hload as <-. cbn [queues].
  destruct (loaded_records_fit _ rows qs' Hrows Hqs') as [Hfit Hrows'].
  split; [exact Hfit|]. split.
  { clear - Hrows Hrows'. revert rows qs' Hrows Hrows'.
    induction (queues (self w)) as [|q qs IH]; simpl; intros rows qs'.
    - intros [= <-]. destruct qs'; [reflexivity|]. simpl.
      destruct (snd (FlowQueue_array f tt)); [discriminate|].
      destruct (rows_of qs'); discriminate.
    - destruct (snd (FlowQueue_array q tt)); [discriminate|].
      destruct (rows_of qs) as [e|rows0] eqn:Hqs; [discriminate|].
      intros [= <-]. destruct qs' as [|q' qs']; [discriminate|]. simpl.
      destruct (snd (FlowQueue_array q' tt)); [discriminate|].
      destruct (rows_of qs') as [e|rows1] eqn:Hqs'; [discriminate|].
      intros [= -> <-]. f_equal. now apply (IH rows1). }
  exists rows. split; [reflexivity|]. split; [exact Hrows'|].
  intros w2 Hself Hdisk.
  pose proof (exit_spec w2 rows) as Hspec2.
  rewrite Hself in Hspec2. cbn [queues] in Hspec2. rewrite Hrows' in Hspec2.
  assert (Htable2 : table w2 = Some rows)
    by (unfold table; now rewrite Hdisk).
  split; [now apply Hspec2|].
  rewrite load_flushed. rewrite Hdisk. simpl. now rewrite Hm, Hqs'.
Qed.

Lemma loaded_store_is_stable_witness :
  let w := acquired_fresh [long_label; nul_label] in
  let w1 := fst (exit w) in
  let loaded :=
    mkTrackingData [mkFlowQueue (1, 1) 0 10 0 0 "marker-000" false;
                    mkFlowQueue (1, 1) 0 10 0 0 "m" false]
      "markers" false in
  load (disk w1) = Return loaded /\
  Forall (fun q' => fits_row q' = true) (queues loaded) /\
  length (queues loaded) = length (queues (self w)).
Proof.
  intros w w1 loaded.
  assert (Hexit : exit w = (w1, Return tt)) by reflexivity.
  assert (Hload : load (disk w1) = Return loaded) by reflexivity.
  destruct (loaded_store_is_stable w w1 loaded Hexit Hload)
    as (Hfit & Hlen & _).
  exact (conj Hload (conj Hfit Hlen)).
Defined.

(** ** A whole session *)





(** ** What the trajectory operations leave alone *)

Lemma same_table_refl w : same_table w w.
Proof. now split. Qed.

Lemma same_table_trans w1 w2 w3 :
  same_table w1 w2 -> same_table w2 w3 -> same_table w1 w3.
Proof. intros [? ?] [? ?]. split; congruence. Qed.

Lemma same_shapes_refl w : same_shapes w w.
Proof. intros name d Hd. eauto. Qed.

Lemma same_shapes_trans w1 w2 w3 :
  same_shapes w1 w2 -> same_shapes w2 w3 -> same_shapes w1 w3.
Proof.
  intros H12 H23 name d Hd.
  destruct (H12 name d Hd) as (d2 & Hd2 & Hlen2).
  destruct (H23 name d2 Hd2) as (d3 & Hd3 & Hlen3).
  exists d3. split; [assumption | congruence].
Qed.

Lemma same_table_opened w : same_table w (opened w).
Proof. now split. Qed.

Lemma same_shapes_opened w : same_shapes w (opened w).
Proof. intros name d Hd. eauto. Qed.

Lemma same_table_put_dataset name d w : same_table w (put_dataset name d w).
Proof. now split. Qed.

Lemma same_shapes_put_dataset name (d' : trajectory) w :
  (forall d : trajectory, datasets w !! name = Some d -> length d' = length d) ->
  same_shapes w (put_dataset name d' w).
Proof.
  intros Hlen other d Hd.
  destruct (decide (name = other)) as [<-|Hne].
  - exists (clip_rows d'). rewrite datasets_put_dataset.
    split; [reflexivity|]. rewrite clip_rows_length. now apply Hlen.
  - exists d. now rewrite datasets_put_dataset_ne by congruence.
Qed.

Lemma slice_bounds_fit (start stop : Z) (n : nat) :
  (fst (slice_bounds start stop n) + snd (slice_bounds start stop n) <= n)%nat.
Proof.
  unfold slice_bounds, clamp_index. cbn [fst snd].
  destruct (Z.ltb_spec start 0), (Z.ltb_spec stop 0); lia.
Qed.

Lemma write_slice_length {S} (start stop : Z) (data dset d' : trajectory)
    (s s' : S) :
  write_slice start stop data dset s = (s', Return d') ->
  s' = s /\ length d' = length dset.
Proof.
  unfold write_slice.
  pose proof (slice_bounds_fit start stop (length dset)) as Hfit.
  destruct (slice_bounds start stop (length dset)) as [b c]. simpl in Hfit.
  destruct (Nat.eqb_spec c 0); [now intros [= <- <-]|].
  destruct (Nat.eqb_spec (length data) c).
  - intros [= <- <-]. split; [reflexivity|].
    rewrite !length_app, length_take, length_drop. lia.
  - destruct data as [|row [|? ?]]; try discriminate.
    intros [= <- <-]. split; [reflexivity|].
    rewrite !length_app, length_take, length_replicate, length_drop. lia.
Qed.

(** The three shapes of the world after [save_pixel_flow_trajectory],
    whatever its outcome. *)
Lemma save_effect data q size prefix full w :
  let w' := fst (save_pixel_flow_trajectory data q size prefix full w) in
  w' = w \/ w' = opened w \/
  exists d' : trajectory,
    w' = put_dataset (dataset_name q prefix) d' w /\
    forall d : trajectory,
      datasets w !! dataset_name q prefix = Some d -> length d' = length d.
Proof.
  intros w'. subst w'.
  pattern (save_pixel_flow_trajectory data q size prefix full w).
  match goal with |- ?P _ => set (Eff := P) end.
  assert (Hsame : Eff (w, Raise Exception)) by (subst Eff; now left).
  assert (Hopened : forall o, Eff (opened w, o))
    by (intros o; subst Eff; right; now left).
  assert (Hput : forall (d' : trajectory) o,
             (forall d : trajectory,
                datasets w !! dataset_name q prefix = Some d ->
                length d' = length d) ->
             Eff (put_dataset (dataset_name q prefix) d' w, o)).
  { intros d' o Hlen. subst Eff. simpl. right; right. eauto. }
  clearbody Eff.
  cbv [save_pixel_flow_trajectory raise_if_outside_context bind get ret
       modify open_append assert raise write_dataset].
  destruct (inside_context (self w)); cbn [negb]; [|exact Hsame].
  change (set_disk (default empty_h5 (disk w)) w) with (opened w).
  change (default empty_h5 (disk (opened w)))
    with (default empty_h5 (disk w)).
  rewrite <- (datasets_lookup w).
  match goal with
  | |- Eff (let (s', o) := _ in
            match o with Raise e => _ | Return a => @?K a s' end) =>
      set (rest := K)
  end.
  assert (Hrest : forall (a : trajectory) (w1 : World),
             (forall o, Eff (w1, o)) ->
             (forall dd, put_dataset (dataset_name q prefix) dd w1
                         = put_dataset (dataset_name q prefix) dd w) ->
             (forall d0 : trajectory,
                datasets w !! dataset_name q prefix = Some d0 ->
                length a = length d0) ->
             Eff (rest a w1)).
  { intros a w1 Hfail Hw1 Hlen. subst rest. cbv beta.
    destruct full.
    - destruct (Nat.eqb_spec (length a) (length data)); [|apply Hfail].
      rewrite Hw1. apply Hput. intros d0 Hd0. rewrite <- (Hlen d0 Hd0).
      congruence.
    - destruct (_ =? _); [|apply Hfail].
      destruct (write_slice _ _ data a w1) as [s' [e|d']] eqn:Hw.
      + unfold write_slice in Hw.
        destruct (slice_bounds _ _ _) as [b c].
        destruct (Nat.eqb c 0); [discriminate|].
        destruct (Nat.eqb (length data) c); [discriminate|].
        destruct data as [|? [|? ?]]; try discriminate;
          injection Hw as <- <-; apply Hfail.
      + apply write_slice_length in Hw as [-> Hlen'].
        rewrite Hw1. apply Hput.
        intros d0 Hd0. rewrite <- (Hlen d0 Hd0). exact Hlen'. }

  destruct (datasets w !! dataset_name q prefix) as [d|] eqn:Hd.
  - (* the dataset exists *)
    assert (Hok : Eff (rest d (opened w))).
    { apply Hrest; [exact Hopened|reflexivity|]. now intros d0 [= <-]. }
    destruct size as [n|]; [|exact Hok].
    destruct (Z.of_nat (length d) =? n); [exact Hok|apply Hopened].
  - (* the dataset is created *)
    destruct size as [n|].
    + rewrite bool_decide_eq_true_2 by done.
      change (default 0 (Some n)) with n.
      destruct (n <? 0); [apply Hopened|].
      apply (Hrest (replicate (Z.to_nat n) sentinel)
               (put_dataset (dataset_name q prefix)
                  (replicate (Z.to_nat n) sentinel) (opened w))).
      * intros o. apply Hput. discriminate.
      * intros dd. rewrite put_dataset_twice. reflexivity.
      * discriminate.
    + rewrite bool_decide_eq_false_2 by (intros H; now apply H).
      apply Hopened.
Qed.

Lemma save_frame data q size prefix full w w' o :
  save_pixel_flow_trajectory data q size prefix full w = (w', o) ->
  self w' = self w /\ same_table w w' /\ same_shapes w w' /\
  forall other, other <> dataset_name q prefix ->
                datasets w' !! other = datasets w !! other.
Proof.
  intros Hrun. pose proof (save_effect data q size prefix full w) as Heff.
  cbv zeta in Heff. rewrite Hrun in Heff. cbn [fst] in Heff.
  destruct Heff as [->|[->|(d' & -> & Hlen)]].
  - repeat split; auto using same_shapes_refl.
  - repeat split; auto using same_shapes_opened.
  - repeat split.
    + now apply same_shapes_put_dataset.
    + intros other Hne. now apply datasets_put_dataset_ne.
Qed.

Lemma load_frame q prefix full w :
  fst (load_pixel_flow_trajectory q prefix full w) = w.
Proof.
  cbv [load_pixel_flow_trajectory raise_if_outside_context bind get ret raise
       open_read].
  destruct (inside_context (self w)); cbn [negb]; [|reflexivity].
  destruct (disk w) as [h|]; [|reflexivity].
  destruct (read_dataset h _); [|reflexivity]. now destruct full.
Qed.

Lemma untouched_refl w : untouched w w.
Proof.
  repeat split; auto using same_shapes_refl.
Qed.

Lemma untouched_trans w1 w2 w3 :
  untouched w1 w2 -> untouched w2 w3 -> untouched w1 w3.
Proof.
  intros (? & ? & ? & ? & ?) (? & ? & ? & ? & ?).
  repeat split; try congruence.
  - eapply same_table_trans; eauto.
  - eapply same_table_trans; eauto.
  - eapply same_shapes_trans; eauto.
Qed.

Lemma untouched_save data q size prefix full w w' o :
  save_pixel_flow_trajectory data q size prefix full w = (w', o) ->
  untouched w w'.
Proof.
  intros Hrun. apply save_frame in Hrun as (Hself & Htable & Hshapes & _).
  unfold untouched. rewrite Hself. auto.
Qed.

Lemma untouched_set_queues qs w :
  length qs = length (queues (self w)) -> untouched w (set_queues qs w).
Proof.
  intros Hlen. unfold untouched. cbn [set_queues self queues
    marker_positions inside_context].
  repeat split; auto. exact (same_shapes_refl w).
Qed.

Section TrimmingFrame.

Variables (tag : string) (frame : Z) (prefix : string) (reverse : bool).

Lemma trim_visit_frame idx q w w' (o : outcome unit) :
  (traj <- load_pixel_flow_trajectory q prefix false ;;
   if reverse then
     save_pixel_flow_trajectory
       (fill_before (frame - start_frame q) traj) q None prefix false ;;
     modify (fun w =>
       set_queues (<[idx := set_start_frame frame q]> (queues (self w))) w)
   else
     save_pixel_flow_trajectory
       (fill_from (frame - start_frame q) traj) q None prefix false ;;
     modify (fun w =>
       set_queues (<[idx := set_end_frame frame q]> (queues (self w))) w)) w
  = (w', o) ->
  untouched w w'.
Proof.
  unfold bind at 1.
  pose proof (load_frame q prefix false w) as Hload.
  destruct (load_pixel_flow_trajectory q prefix false w) as [w0 [e|traj]].
  - simpl in Hload. subst w0. intros [= <- _]. apply untouched_refl.
  - simpl in Hload. subst w0.
    destruct reverse.
    + unfold bind at 1.
      destruct (save_pixel_flow_trajectory _ q None prefix false w)
        as [w1 [e|[]]] eqn:Hsave; apply untouched_save in Hsave.
      * now intros [= <- _].
      * unfold modify. intros [= <- _].
        eapply untouched_trans; [exact Hsave|].
        apply untouched_set_queues. apply length_insert.
    + unfold bind at 1.
      destruct (save_pixel_flow_trajectory _ q None prefix false w)
        as [w1 [e|[]]] eqn:Hsave; apply untouched_save in Hsave.
      * now intros [= <- _].
      * unfold modify. intros [= <- _].
        eapply untouched_trans; [exact Hsave|].
        apply untouched_set_queues. apply length_insert.
Qed.

Lemma trim_loop_frame todo :
  forall idx w w' (o : outcome unit),
  trim_loop tag frame prefix reverse idx todo w = (w', o) ->
  untouched w w'.
Proof.
  induction todo as [|q rest IH]; intros idx w w' o.
  - intros [= <- _]. apply untouched_refl.
  - simpl.
    change (bool_decide (get_tag q = tag) && (frame >=? start_frame q)
            && (frame <=? end_frame q)) with (trim_matches tag frame q).
    destruct (trim_matches tag frame q).
    + unfold bind at 1.
      match goal with
      | |- (let (_, _) := ?m in _) = _ -> _ =>
          destruct m as [w1 [e|[]]] eqn:Hvisit
      end; apply trim_visit_frame in Hvisit.
      * now intros [= <- _].
      * intros Hrest. apply IH in Hrest.
        eapply untouched_trans; eauto.
    + unfold bind at 1. unfold ret at 1. apply IH.
Qed.

Lemma trim_trajectory_frame w w' (o : outcome unit) :
  trim_trajectory tag frame prefix reverse w = (w', o) -> untouched w w'.
Proof.
  unfold trim_trajectory, raise_if_outside_context.
  unfold bind at 1. unfold get at 1.
  destruct (inside_context (self w)); cbn [negb].
  - unfold bind at 1. unfold get at 1. apply trim_loop_frame.
  - intros [= <- _]. apply untouched_refl.
Qed.

End TrimmingFrame.

Lemma append_frame value w :
  disk (fst (append value w)) = disk w /\
  marker_positions (self (fst (append value w))) = marker_positions (self w).
Proof.
  cbv [append raise_if_outside_context bind get ret raise modify].
  destruct (inside_context (self w)); cbn [negb]; [|now split].
  destruct (existsb _ _); [|now split].
  destruct (index value (queues (self w))); now split.
Qed.

Lemma read_only_queries w c s f t :
  fst (get_flow_queues c s f t w) = w /\
  fst (all_done w) = w /\ fst (iter_cameras w) = w.
Proof.
  cbv [get_flow_queues all_done iter_cameras raise_if_outside_context bind
       get ret raise].
  destruct (inside_context (self w)); cbn [negb]; repeat split.
  now destruct (Nat.eqb _ _).
Qed.

(** X10.  Between [__enter__] and [__exit__] the record table and the
    marker positions on disk are never written: whatever their arguments
    and whatever their outcome (a raised exception included),
    [save_pixel_flow_trajectory] and [trim_trajectory] leave them as they
    are, [append] leaves the whole file as it is, and
    [load_pixel_flow_trajectory], [get_flow_queues], [all_done] and
    [iter_cameras] change neither the store nor the file. *)
Theorem record_table_is_written_only_on_exit (w : World) :
  (forall data q size prefix full,
     same_table w (fst (save_pixel_flow_trajectory data q size prefix full w)))
  /\ (forall tag frame prefix reverse,
        same_table w (fst (trim_trajectory tag frame prefix reverse w)))
  /\ (forall value, disk (fst (append value w)) = disk w)
  /\ (forall q prefix full,
        fst (load_pixel_flow_trajectory q prefix full w) = w)
  /\ (forall c s f t, fst (get_flow_queues c s f t w) = w)
  /\ fst (all_done w) = w
  /\ fst (iter_cameras w) = w.
Proof.
  split; [|split; [|split; [|split; [|split; [|split]]]]].
  - intros data q size prefix full.
    destruct (save_pixel_flow_trajectory data q size prefix full w)
      as [w' o] eqn:Hrun.
    now apply untouched_save in Hrun as (_ & _ & _ & Htable & _).
  - intros tag frame prefix reverse.
    destruct (trim_trajectory tag frame prefix reverse w) as [w' o] eqn:Hrun.
    now apply trim_trajectory_frame in Hrun as (_ & _ & _ & Htable & _).
  - intros value. apply append_frame.
  - intros q prefix full. apply load_frame.
  - intros c s f t. apply (read_only_queries w c s f t).
  - apply (read_only_queries w None None false None).
  - apply (read_only_queries w None None false None).
Qed.

(** X11.  Saving and trimming never delete a trajectory dataset and never
    change its number of rows, whatever their arguments and outcome; a save
    touches no dataset other than the one of its record and leaves the
    store object as it is; a trim, even one that fails half way, keeps the
    number of records, the marker positions and the context flag. *)
Theorem trajectory_writes_keep_shapes (w : World) :
  (forall data q size prefix full,
     let w' := fst (save_pixel_flow_trajectory data q size prefix full w) in
     same_shapes w w' /\ self w' = self w /\
     forall other, other <> dataset_name q prefix ->
                   datasets w' !! other = datasets w !! other)
  /\ (forall tag frame prefix reverse,
        let w' := fst (trim_trajectory tag frame prefix reverse w) in
        same_shapes w w' /\
        length (queues (self w')) = length (queues (self w)) /\
        marker_positions (self w') = marker_positions (self w) /\
        inside_context (self w') = inside_context (self w)).
Proof.
  split.
  - intros data q size prefix full.
    destruct (save_pixel_flow_trajectory data q size prefix full w)
      as [w' o] eqn:Hrun.
    apply save_frame in Hrun as (Hself & _ & Hshapes & Hother). simpl. auto.
  - intros tag frame prefix reverse.
    destruct (trim_trajectory tag frame prefix reverse w) as [w' o] eqn:Hrun.
    apply trim_trajectory_frame in Hrun as (? & ? & ? & _ & ?). simpl. auto.
Qed.

(** ** Reading beyond the stored rows *)

Lemma read_slice_clipped (start stop : Z) (d : trajectory) :
  0 <= start -> 0 <= stop ->
  read_slice start stop d
  = take (Z.to_nat (stop - start)) (drop (Z.to_nat start) d).
Proof.
  intros Hstart Hstop. unfold read_slice, slice_bounds, clamp_index.
  destruct (Z.ltb_spec start 0); [lia|].
  destruct (Z.ltb_spec stop 0); [lia|].
  destruct (Z_le_gt_dec start (Z.of_nat (length d))) as [Hin|Hout].
  - rewrite (Z.min_l start) by lia.
    destruct (Z_le_gt_dec stop (Z.of_nat (length d))) as [Hin'|Hout'].
    + now rewrite (Z.min_l stop) by lia.
    + rewrite (Z.min_r stop) by lia.
      rewrite !take_ge; [reflexivity| |]; rewrite length_drop; lia.
  - rewrite (Z.min_r start) by lia.
    rewrite !drop_ge by lia. now rewrite !take_nil.
Qed.

(** X12.  Loading the span of a record never fails for want of rows: with
    non-negative frames the result is the rows of the dataset from
    [start_frame] up to [end_frame] that exist, so a span that reaches
    beyond the dataset silently yields fewer rows than
    [end_frame - start_frame]; the store and the file are unchanged. *)
Theorem load_clips_span_to_dataset (w : World) (q : FlowQueue)
    (prefix : string) (d : trajectory) :
  inside_context (self w) = true ->
  disk w <> None ->
  datasets w !! dataset_name q prefix = Some d ->
  0 <= start_frame q -> 0 <= end_frame q ->
  exists traj,
    load_pixel_flow_trajectory q prefix false w = (w, Return traj) /\
    traj = take (Z.to_nat (end_frame q - start_frame q))
             (drop (Z.to_nat (start_frame q)) d) /\
    Z.of_nat (length traj)
    = Z.max 0 (Z.min (end_frame q) (Z.of_nat (length d)) - start_frame q).
Proof.
  intros Hin Hdisk Hd Hstart Hstop.
  exists (read_slice (start_frame q) (end_frame q) d).
  split; [now apply load_span|].
  rewrite read_slice_clipped by assumption.
  split; [reflexivity|].
  rewrite length_take, length_drop. lia.
Qed.

Lemma load_clips_span_to_dataset_witness :
  exists traj,
    load_pixel_flow_trajectory beyond_end "xy" false
      (put_dataset (dataset_name beyond_end "xy") five_rows (acquired_fresh []))
    = (put_dataset (dataset_name beyond_end "xy") five_rows (acquired_fresh []),
       Return traj) /\
    traj = [(4, 4); (5, 5)] /\
    Z.of_nat (length traj) = 2.
Proof.
  destruct (load_clips_span_to_dataset
              (put_dataset (dataset_name beyond_end "xy") five_rows
                 (acquired_fresh []))
              beyond_end "xy" five_rows)
    as (traj & Hload & Htraj & Hlen).
  - reflexivity.
  - discriminate.
  - apply datasets_put_dataset.
  - simpl. lia.
  - simpl. lia.
  - exists traj. split; [exact Hload|]. split; [exact Htraj | exact Hlen].
Defined.

Lemma load_missing (w : World) (q : FlowQueue) (prefix : string)
    (full : bool) :
  inside_context (self w) = true ->
  datasets w !! dataset_name q prefix = None ->
  load_pixel_flow_trajectory q prefix full w
  = (w, Raise match disk w with Some _ => KeyError | None => OSError end).
Proof.
  intros Hin Hd. unfold load_pixel_flow_trajectory.
  rewrite raise_if_outside_context_inside by assumption.
  unfold open_read. unfold bind at 1. unfold bind at 1. unfold get at 1.
  rewrite datasets_lookup in Hd.
  destruct (disk w) as [h|]; [|reflexivity].
  unfold ret at 1. simpl in Hd. now rewrite Hd.
Qed.

(** X13.  Inside the context the outcome of a load is decided by the
    dataset alone, and the call never changes the store or the file: when
    the file has a dataset at the storage path of the record the call
    returns its rows (all of them, or those of the record's span); when it
    has none the call raises [KeyError], or [OSError] when the container
    file does not exist. *)
Theorem load_outcome_is_decided_by_dataset (w : World) (q : FlowQueue)
    (prefix : string) (full : bool) :
  inside_context (self w) = true ->
  load_pixel_flow_trajectory q prefix full w
  = (w, match datasets w !! dataset_name q prefix with
        | Some d =>
            Return (if full then d
                    else read_slice (start_frame q) (end_frame q) d)
        | None =>
            Raise match disk w with Some _ => KeyError | None => OSError end
        end).
Proof.
  intros Hin.
  destruct (datasets w !! dataset_name q prefix) as [d|] eqn:Hd.
  - assert (Hdisk : disk w <> None).
    { intros Hnone. rewrite datasets_lookup, Hnone in Hd.
      unfold read_dataset in Hd. simpl in Hd.
      now rewrite lookup_empty in Hd. }
    destruct full; [now apply load_full | now apply load_span].
  - now apply load_missing.
Qed.

Lemma load_outcome_is_decided_by_dataset_witness :
  load_pixel_flow_trajectory cam0 "xy" false (acquired_fresh [cam0])
  = (acquired_fresh [cam0], Raise KeyError)
  /\ load_pixel_flow_trajectory cam0 "xy" false
       (mkWorld (mkTrackingData [cam0] "markers" true) None)
     = (mkWorld (mkTrackingData [cam0] "markers" true) None, Raise OSError).
Proof.
  split.
  - apply (load_outcome_is_decided_by_dataset (acquired_fresh [cam0]) cam0 "xy"
             false). reflexivity.
  - apply (load_outcome_is_decided_by_dataset
             (mkWorld (mkTrackingData [cam0] "markers" true) None) cam0 "xy"
             false). reflexivity.
Defined.

(** ** A save that fails after creating the dataset *)

(** X14.  The first save of a trajectory creates the dataset before it
    checks the array: when the array has the wrong number of rows (for the
    span, or for the whole dataset when [full_trajectory] is set) the call
    raises [AssertionError], yet the dataset of [size] sentinel rows has
    been created and stays on disk, and a later full load returns it. *)
Theorem failed_first_save_leaves_sentinel_dataset (w : World)
    (data : trajectory) (q : FlowQueue) (n : Z) (prefix : string)
    (full : bool) :
  inside_context (self w) = true ->
  datasets w !! dataset_name q prefix = None ->
  0 <= n ->
  (if full then Z.of_nat (length data) <> n
   else end_frame q - start_frame q <> Z.of_nat (length data)) ->
  let w' := put_dataset (dataset_name q prefix)
              (replicate (Z.to_nat n) sentinel) w in
  save_pixel_flow_trajectory data q (Some n) prefix full w
  = (w', Raise AssertionError) /\
  load_pixel_flow_trajectory q prefix true w'
  = (w', Return (replicate (Z.to_nat n) sentinel)).
Proof.
  intros Hin Hd Hn Hrows w'. split.
  - cbv [save_pixel_flow_trajectory raise_if_outside_context bind get ret
         modify open_append assert raise write_dataset].
    rewrite Hin. cbn [negb].
    change (default empty_h5
              (disk (set_disk (default empty_h5 (disk w)) w)))
      with (default empty_h5 (disk w)).
    rewrite <- (datasets_lookup w).
    rewrite Hd. rewrite bool_decide_eq_true_2 by done.
    change (default 0 (Some n)) with n.
    destruct (Z.ltb_spec n 0); [lia|].
    destruct full.
    + rewrite length_replicate.
      destruct (Nat.eqb_spec (Z.to_nat n) (length data)); [lia|reflexivity].
    + destruct (Z.eqb_spec (end_frame q - start_frame q)
                  (Z.of_nat (length data))); [contradiction|reflexivity].
  - apply load_full.
    + exact Hin.
    + discriminate.
    + apply datasets_put_dataset_stored.
      apply clip_rows_replicate_sentinel.
Qed.

Lemma failed_first_save_leaves_sentinel_dataset_witness :
  let w' := put_dataset (dataset_name cam0 "xy")
              (replicate 6 sentinel) (acquired_fresh [cam0]) in
  save_pixel_flow_trajectory [(1, 1)] cam0 (Some 6) "xy" false
    (acquired_fresh [cam0])
  = (w', Raise AssertionError) /\
  load_pixel_flow_trajectory cam0 "xy" true w'
  = (w', Return (replicate 6 sentinel)).
Proof.
  apply (failed_first_save_leaves_sentinel_dataset (acquired_fresh [cam0])
           [(1, 1)] cam0 6 "xy" false).
  - reflexivity.
  - reflexivity.
  - lia.
  - simpl. lia.
Defined.

(** ** Trimming twice *)

Lemma World_ext (a b : World) :
  queues (self a) = queues (self b) ->
  marker_positions (self a) = marker_positions (self b) ->
  inside_context (self a) = inside_context (self b) ->
  (disk a = None <-> disk b = None) ->
  h5_queues (default empty_h5 (disk a))
  = h5_queues (default empty_h5 (disk b)) ->
  h5_markers (default empty_h5 (disk a))
  = h5_markers (default empty_h5 (disk b)) ->
  (forall name, datasets a !! name = datasets b !! name) ->
  a = b.
Proof.
  unfold datasets.
  destruct a as [[qa ma ia] [[hqa hda hma]|]],
           b as [[qb mb ib] [[hqb hdb hmb]|]]; simpl;
    intros -> -> -> Hnone Hq Hm Hd.
  - subst. f_equal. f_equal. f_equal. apply map_eq. intros name.
    specialize (Hd name). rewrite !lookup_fmap in Hd.
    destruct (hda !! name) as [la|], (hdb !! name) as [lb|];
      simpl in Hd; try discriminate; [|reflexivity].
    injection Hd as Hd. f_equal. now apply dataset_rows_inj.
  - destruct Hnone as [_ Hnone]. now specialize (Hnone eq_refl).
  - destruct Hnone as [Hnone _]. now specialize (Hnone eq_refl).
  - reflexivity.
Qed.

Section TrimmingTwice.

Variables (tag : string) (frame : Z) (prefix : string) (reverse : bool).

Lemma trim_matches_spec q :
  trim_matches tag frame q = true <->
  get_tag q = tag /\ start_frame q <= frame <= end_frame q.
Proof.
  unfold trim_matches.
  rewrite !andb_true_iff, bool_decide_eq_true, Z.geb_le, Z.leb_le. tauto.
Qed.

Lemma trim_record_matches q :
  trim_matches tag frame (trim_record tag frame reverse q)
  = trim_matches tag frame q.
Proof.
  unfold trim_record. destruct (trim_matches tag frame q) eqn:Hm;
    [|exact Hm].
  apply trim_matches_spec in Hm as [Htag Hspan].
  apply trim_matches_spec.
  destruct reverse; (split; [exact Htag | simpl; lia]).
Qed.

Lemma trim_record_idempotent q :
  trim_record tag frame reverse (trim_record tag frame reverse q)
  = trim_record tag frame reverse q.
Proof.
  pose proof (trim_record_matches q) as Hm.
  unfold trim_record at 1. rewrite Hm.
  unfold trim_record. destruct (trim_matches tag frame q); [|reflexivity].
  now destruct reverse.
Qed.

Lemma trim_record_dataset_name q :
  dataset_name (trim_record tag frame reverse q) prefix
  = dataset_name q prefix.
Proof.
  unfold trim_record. destruct (trim_matches tag frame q); [|reflexivity].
  now destruct reverse.
Qed.

Lemma trim_record_erases_nothing q i :
  trim_matches tag frame q = true ->
  erased reverse frame (trim_record tag frame reverse q) i = false.
Proof.
  intros Hm. unfold trim_record. rewrite Hm. unfold erased.
  destruct reverse; simpl.
  - destruct (Z.leb_spec frame (Z.of_nat i)); [|reflexivity].
    destruct (Z.ltb_spec (Z.of_nat i) frame); [lia|reflexivity].
  - destruct (Z.leb_spec frame (Z.of_nat i)); [|reflexivity].
    destruct (Z.ltb_spec (Z.of_nat i) frame); [lia|reflexivity].
Qed.

Lemma trim_dataset_trimmed qs name d :
  trim_dataset tag frame prefix reverse
    (map (trim_record tag frame reverse) qs) name d = d.
Proof.
  unfold trim_dataset. apply list_eq. intros i.
  rewrite list_lookup_imap.
  destruct (d !! i) as [row|]; cbn [fmap option_fmap option_map];
    [|reflexivity].
  replace (existsb _ _) with false; [reflexivity|].
  symmetry. apply existsb_false_iff. intros q' Hq'.
  apply list_elem_of_fmap in Hq' as (q & -> & _).
  rewrite trim_record_matches.
  destruct (trim_matches tag frame q) eqn:Hm; [|reflexivity].
  rewrite trim_record_erases_nothing by assumption.
  apply andb_false_r.
Qed.

Lemma trimmed_span_stored w w' q :
  (disk w' = None <-> disk w = None) ->
  (forall name,
     datasets w' !! name
     = trim_dataset tag frame prefix reverse (queues (self w)) name
       <$> datasets w !! name) ->
  trim_matches tag frame q = true ->
  span_stored w q prefix ->
  span_stored w' (trim_record tag frame reverse q) prefix.
Proof.
  intros Hnone Hds Hm (Hdisk & d & Hd & Hstart & Hend).
  apply trim_matches_spec in Hm as Hspan. destruct Hspan as [_ Hspan].
  split; [tauto|].
  exists (trim_dataset tag frame prefix reverse (queues (self w))
            (dataset_name q prefix) d).
  rewrite trim_record_dataset_name, Hds, Hd.
  split; [reflexivity|]. rewrite trim_dataset_length.
  unfold trim_record. rewrite Hm. destruct reverse; simpl; lia.
Qed.

Lemma trim_trajectory_twice w :
  inside_context (self w) = true ->
  (forall q, q ∈ queues (self w) -> trim_matches tag frame q = true ->
             span_stored w q prefix) ->
  exists w',
    trim_trajectory tag frame prefix reverse w = (w', Return tt) /\
    trim_trajectory tag frame prefix reverse w' = (w', Return tt).
Proof.
  intros Hin Hstored.
  destruct (trim_loop_spec tag frame prefix reverse (queues (self w))
              0%nat w [] Hin eq_refl eq_refl Hstored)
    as (w1 & Hrun1 & Hqs1 & Hin1 & Hmp1 & Hnone1 & Hq1 & Hmk1 & Hds1).
  simpl in Hqs1.
  assert (Hstored1 : forall q, q ∈ queues (self w1) ->
                       trim_matches tag frame q = true ->
                       span_stored w1 q prefix).
  { intros q' Hq' Hm'. rewrite Hqs1 in Hq'.
    apply list_elem_of_fmap in Hq' as (q & -> & Hq).
    rewrite trim_record_matches in Hm'.
    apply (trimmed_span_stored w); auto. }
  destruct (trim_loop_spec tag frame prefix reverse (queues (self w1))
              0%nat w1 [] Hin1 eq_refl eq_refl Hstored1)
    as (w2 & Hrun2 & Hqs2 & Hin2 & Hmp2 & Hnone2 & Hq2 & Hmk2 & Hds2).
  simpl in Hqs2.
  assert (Heq : w2 = w1).
  { apply World_ext; try congruence.
    - rewrite Hqs2, Hqs1, <- list_fmap_compose. apply list_fmap_ext.
      intros i q _. apply trim_record_idempotent.
    - intros name. rewrite Hds2, Hqs1.
      destruct (datasets w1 !! name) as [d|];
        cbn [fmap option_fmap option_map]; [|reflexivity].
      now rewrite trim_dataset_trimmed. }
  subst w2. exists w1. unfold trim_trajectory.
  rewrite !raise_if_outside_context_inside by assumption.
  unfold bind, get. auto.
Qed.

End TrimmingTwice.

(** X15.  Trimming is idempotent: under the conditions in which a trim
    succeeds (the trajectory of every matching record is on disk and covers
    its span), a second [trim_trajectory] with the same tag, frame and
    direction succeeds as well and changes neither the store nor the
    file. *)
Theorem trim_trajectory_is_idempotent (w : World) (tag : string)
    (frame : Z) (prefix : string) (reverse : bool) :
  inside_context (self w) = true ->
  (forall q, q ∈ queues (self w) -> trim_matches tag frame q = true ->
             span_stored w q prefix) ->
  (trim_trajectory tag frame prefix reverse ;;
   trim_trajectory tag frame prefix reverse) w
  = trim_trajectory tag frame prefix reverse w
  /\ snd (trim_trajectory tag frame prefix reverse w) = Return tt.
Proof.
  intros Hin Hstored.
  destruct (trim_trajectory_twice tag frame prefix reverse w Hin Hstored)
    as (w' & Hrun & Hagain).
  unfold bind. rewrite Hrun. cbn [snd]. now rewrite Hagain.
Qed.

Lemma trim_trajectory_is_idempotent_witness :
  (trim_trajectory "z0-m0" 2 "xy" false ;;
   trim_trajectory "z0-m0" 2 "xy" false) two_cameras
  = trim_trajectory "z0-m0" 2 "xy" false two_cameras
  /\ snd (trim_trajectory "z0-m0" 2 "xy" false two_cameras) = Return tt.
Proof.
  apply (trim_trajectory_is_idempotent two_cameras "z0-m0" 2 "xy" false
           eq_refl).
  intros q Hq _. split; [discriminate|].
  apply elem_of_cons in Hq as [->|Hq];
    [|apply list_elem_of_singleton in Hq as ->].
  - exists [(10, 10); (11, 11); (12, 12); (13, 13); (14, 14); (15, 15)].
    split; [vm_compute; reflexivity | simpl; lia].
  - exists [(50, 50); (51, 51); (52, 52); (53, 53); (54, 54); (55, 55)].
    split; [vm_compute; reflexivity | simpl; lia].
Defined.

(** ** Trimming a record whose trajectory is missing *)

Section TrimmingMissing.

Variables (tag : string) (frame : Z) (prefix : string) (reverse : bool).

Lemma trim_loop_skip pre :
  forall idx rest w,
  (forall p, p ∈ pre -> trim_matches tag frame p = false) ->
  trim_loop tag frame prefix reverse idx (pre ++ rest) w
  = trim_loop tag frame prefix reverse (idx + length pre) rest w.
Proof.
  induction pre as [|p pre IH]; intros idx rest w Hnone.
  - simpl. now rewrite Nat.add_0_r.
  - simpl.
    change (bool_decide (get_tag p = tag) && (frame >=? start_frame p)
            && (frame <=? end_frame p)) with (trim_matches tag frame p).
    rewrite (Hnone p) by left. unfold bind at 1. unfold ret at 1.
    rewrite IH by (intros; apply Hnone; now right).
    f_equal. lia.
Qed.

Lemma trim_loop_missing idx q rest w :
  inside_context (self w) = true ->
  trim_matches tag frame q = true ->
  datasets w !! dataset_name q prefix = None ->
  trim_loop tag frame prefix reverse idx (q :: rest) w
  = (w, Raise match disk w with Some _ => KeyError | None => OSError end).
Proof.
  intros Hin Hm Hd. simpl.
  change (bool_decide (get_tag q = tag) && (frame >=? start_frame q)
          && (frame <=? end_frame q)) with (trim_matches tag frame q).
  rewrite Hm. unfold bind at 1. unfold bind at 1.
  now rewrite (load_missing w q prefix false Hin Hd).
Qed.

End TrimmingMissing.

(** X16.  A trim stops at the first matching record whose trajectory is
    not on disk: when no earlier record matches, [trim_trajectory] raises
    [KeyError] ([OSError] when there is no container file) and leaves the
    store, that record's frames included, and the file unchanged; the
    records after it are not visited. *)
Theorem trim_without_trajectory_raises (w : World) (tag : string)
    (frame : Z) (prefix : string) (reverse : bool)
    (pre post : list FlowQueue) (q : FlowQueue) :
  inside_context (self w) = true ->
  queues (self w) = pre ++ q :: post ->
  (forall p, p ∈ pre -> trim_matches tag frame p = false) ->
  trim_matches tag frame q = true ->
  datasets w !! dataset_name q prefix = None ->
  trim_trajectory tag frame prefix reverse w
  = (w, Raise match disk w with Some _ => KeyError | None => OSError end).
Proof.
  intros Hin Hqs Hpre Hm Hd. unfold trim_trajectory.
  rewrite raise_if_outside_context_inside by assumption.
  unfold bind at 1. unfold get at 1. rewrite Hqs.
  rewrite trim_loop_skip by assumption.
  now apply trim_loop_missing.
Qed.

Lemma trim_without_trajectory_raises_witness :
  trim_trajectory "z0-m0" 2 "xy" false (acquired_fresh [cam0; cam1])
  = (acquired_fresh [cam0; cam1], Raise KeyError).
Proof.
  apply (trim_without_trajectory_raises (acquired_fresh [cam0; cam1])
           "z0-m0" 2 "xy" false [] [cam1] cam0).
  - reflexivity.
  - reflexivity.
  - intros p Hp. now apply elem_of_nil in Hp.
  - vm_compute. reflexivity.
  - reflexivity.
Defined.

(** ** The tag of a record *)

Lemma append_cons (c : ascii) (s1 s2 : string) :
  String c s1 +:+ s2 = String c (s1 +:+ s2).
Proof. reflexivity. Qed.

Lemma append_empty_l (s : string) : EmptyString +:+ s = s.
Proof. reflexivity. Qed.

Lemma append_empty_r (s : string) : s +:+ EmptyString = s.
Proof.
  induction s as [|c s IH]; [reflexivity|].
  now rewrite append_cons, IH.
Qed.

Lemma append_last (s1 : string) (c : ascii) (s2 : string) :
  s1 +:+ String c s2 = (s1 +:+ String c EmptyString) +:+ s2.
Proof.
  induction s1 as [|c1 s1 IH]; [reflexivity|].
  now rewrite !append_cons, IH.
Qed.

Lemma dash_free_app s1 s2 :
  dash_free (s1 +:+ s2) = dash_free s1 && dash_free s2.
Proof.
  induction s1 as [|c s1 IH]; [reflexivity|].
  rewrite append_cons. cbn [dash_free]. now rewrite IH, andb_assoc.
Qed.

Lemma pretty_N_char_dash_free (k : N) :
  dash_free (String (pretty_N_char k) EmptyString) = true.
Proof. unfold pretty_N_char. repeat case_match; reflexivity. Qed.

Lemma pretty_N_go_digits (x : N) :
  forall s, exists ds,
    pretty_N_go x s = ds +:+ s /\ dash_free ds = true /\
    ((0 < x)%N -> ds <> EmptyString).
Proof.
  induction (N.lt_wf_0 x) as [x _ IH]. intros s.
  destruct (N.eq_dec x 0%N) as [->|Hpos].
  - exists EmptyString. rewrite pretty_N_go_0. repeat split. lia.
  - rewrite pretty_N_go_step by lia.
    destruct (IH (x `div` 10)%N) with
      (s := String (pretty_N_char (x `mod` 10)) s)
      as (ds & Hgo & Hfree & _).
    { apply N.div_lt; lia. }
    exists (ds +:+ String (pretty_N_char (x `mod` 10)) EmptyString).
    rewrite Hgo. split; [|split].
    + apply append_last.
    + now rewrite dash_free_app, Hfree, pretty_N_char_dash_free.
    + intros _. now destruct ds.
Qed.

Lemma pretty_N_digits (x : N) :
  dash_free (pretty x) = true /\ pretty x <> EmptyString.
Proof.
  unfold pretty, pretty_N. destruct (decide (x = 0%N)) as [->|Hne].
  - now split.
  - destruct (pretty_N_go_digits x EmptyString) as (ds & Hgo & Hfree & Hne').
    rewrite Hgo, append_empty_r. split; [exact Hfree|]. apply Hne'. lia.
Qed.

Lemma split_at_dash ds1 :
  forall ds2 l1 l2,
  dash_free ds1 = true -> dash_free ds2 = true ->
  ds1 +:+ String "-" l1 = ds2 +:+ String "-" l2 ->
  ds1 = ds2 /\ l1 = l2.
Proof.
  induction ds1 as [|c ds1 IH]; intros [|c' ds2] l1 l2 H1 H2;
    rewrite ?append_cons, ?append_empty_l; cbn [dash_free] in *.
  - now intros [= ->].
  - intros [= <- _]. discriminate.
  - intros [= -> _]. discriminate.
  - intros [= -> Hrest].
    apply andb_true_iff in H1 as [_ H1]. apply andb_true_iff in H2 as [_ H2].
    destruct (IH ds2 l1 l2 H1 H2 Hrest) as [-> ->]. now split.
Qed.

Lemma str_of_int_sign (z : Z) :
  exists ds, dash_free ds = true /\ ds <> EmptyString /\
             (str_of_int z = ds \/ str_of_int z = String "-" ds).
Proof.
  unfold str_of_int, pretty, pretty_Z. destruct z as [|p|p].
  - exists "0"%string. repeat split; [discriminate | now left].
  - destruct (pretty_N_digits (N.pos p)) as [Hfree Hne].
    exists (pretty (N.pos p)). repeat split; auto.
  - destruct (pretty_N_digits (N.pos p)) as [Hfree Hne].
    exists (pretty (N.pos p)). repeat split; auto.
Qed.

Lemma str_of_int_dash (z1 z2 : Z) (l1 l2 : string) :
  str_of_int z1 +:+ String "-" l1 = str_of_int z2 +:+ String "-" l2 ->
  z1 = z2 /\ l1 = l2.
Proof.
  intros Heq.
  destruct (str_of_int_sign z1) as (ds1 & Hf1 & Hn1 & Hs1).
  destruct (str_of_int_sign z2) as (ds2 & Hf2 & Hn2 & Hs2).
  assert (Hstr : str_of_int z1 = str_of_int z2 /\ l1 = l2).
  { destruct Hs1 as [Hs1|Hs1], Hs2 as [Hs2|Hs2];
      rewrite Hs1, Hs2 in Heq |- *; rewrite ?append_cons in Heq.
    - now apply split_at_dash.
    - destruct ds1 as [|c ds1]; [easy|].
      rewrite append_cons in Heq. cbn [dash_free] in Hf1.
      injection Heq as -> _. discriminate.
    - destruct ds2 as [|c ds2]; [easy|].
      rewrite append_cons in Heq. cbn [dash_free] in Hf2.
      injection Heq as <- _. discriminate.
    - injection Heq as Heq.
      destruct (split_at_dash ds1 ds2 l1 l2 Hf1 Hf2 Heq) as [-> ->].
      now split. }
  destruct Hstr as [Hstr ->]. split; [|reflexivity].
  unfold str_of_int in Hstr. now apply (inj pretty) in Hstr.
Qed.

(** X17.  The tag identifies the plane and the label of a record and
    nothing else: two records have the same [get_tag()] exactly when they
    have the same [z_index] and the same [label], whatever their cameras,
    points, frames and flags. *)
Theorem get_tag_identifies_plane_and_label (q1 q2 : FlowQueue) :
  get_tag q1 = get_tag q2 <->
  z_index q1 = z_index q2 /\ label q1 = label q2.
Proof.
  unfold get_tag. split.
  - intros Heq. apply String.app_inj in Heq. now apply str_of_int_dash.
  - now intros [-> ->].
Qed.

(** ** The template *)





(** * The cropping script *)

Lemma append_assoc (s1 s2 s3 : string) :
  (s1 +:+ s2) +:+ s3 = s1 +:+ (s2 +:+ s3).
Proof.
  induction s1 as [|c s1 IH]; [reflexivity|].
  now rewrite !append_cons, IH.
Qed.

Lemma crop_video_run (x y width height : Z) (input_path output_path : string)
    (video_path cropped : Z -> string) (i : Z) (sh : Shell) :
  input_path = video_path i -> output_path = cropped i ->
  crop_video (x, y) (width, height) input_path output_path sh
  = (mkShell (selections sh)
       (commands sh
        ++ [crop_command video_path cropped (x, y, width, height) i]),
     Return tt).
Proof.
  intros -> ->. unfold crop_video, modify, crop_command. do 3 f_equal.
  cbv [join String.concat app]. rewrite !append_assoc. reflexivity.
Qed.

Lemma assign_loop_lookup (roi : ROI) (cam_id : list Z) :
  forall (rois : gmap Z (option ROI)) (i : Z),
  i ∈ cam_id \/ rois !! i = Some (Some roi) ->
  assign_loop roi cam_id rois !! i = Some (Some roi).
Proof.
  induction cam_id as [|cid rest IH]; intros rois i Hi; simpl.
  - destruct Hi as [Hi|Hi]; [now apply elem_of_nil in Hi | exact Hi].
  - apply IH. destruct (decide (i = cid)) as [->|Hne].
    + right. apply lookup_insert_eq.
    + rewrite lookup_insert_ne by congruence.
      destruct Hi as [Hi|Hi]; [|now right].
      apply elem_of_cons in Hi as [Hi|Hi]; [contradiction | now left].
Qed.

Lemma crop_loop_run (video_path output_path : Z -> string)
    (rois : gmap Z (option ROI)) (cams : list Z) :
  forall (chosen : list ROI) (sh : Shell),
  (forall (k : nat) r, chosen !! k = Some r ->
     exists cid, cams !! k = Some cid /\ rois !! cid = Some (Some r)) ->
  (forall cid, cams !! length chosen = Some cid -> rois !! cid = Some None) ->
  crop_loop video_path output_path cams rois sh
  = (mkShell (selections sh)
       (commands sh
        ++ zip_with (crop_command video_path output_path) chosen cams),
     if Nat.eqb (length chosen) (length cams)
     then Return tt else Raise TypeError).
Proof.
  induction cams as [|i rest IH]; intros chosen sh Hchosen Hnext.
  - destruct chosen as [|r chosen].
    + cbn [crop_loop length zip_with Nat.eqb]. rewrite app_nil_r.
      now destruct sh.
    + destruct (Hchosen 0%nat r eq_refl) as (cid & Hcid & _). discriminate.
  - destruct chosen as [|r chosen].
    + cbn [crop_loop length zip_with Nat.eqb].
      pose proof (Hnext i eq_refl) as Hroi. unfold ROI in *.
      rewrite Hroi, app_nil_r. now destruct sh.
    + destruct (Hchosen 0%nat r eq_refl) as (cid & [= <-] & Hroi).
      cbn [crop_loop]. unfold ROI in *. rewrite Hroi. destruct r as [[[x y] width] height].
      unfold bind at 1.
      rewrite (crop_video_run x y width height _ _ video_path output_path i)
        by reflexivity.
      rewrite (IH chosen).
      * cbn [selections commands zip_with length Nat.eqb].
        now rewrite <- app_assoc.
      * intros k r' Hk. apply (Hchosen (S k) r' Hk).
      * intros cid Hcid. apply (Hnext cid Hcid).
Qed.

Section Cropping.

Context `{config : Config} `{env : CropEnv}.

Lemma select_loop_commands (video_path : Z -> string) (cam_id : list Z) :
  forall rois (sh sh' : Shell) (o : outcome (gmap Z (option ROI))),
  select_loop video_path cam_id rois sh = (sh', o) ->
  commands sh' = commands sh /\
  ((exists cid, cid ∈ cam_id /\ path_exists (video_path cid) = false) ->
   o = Raise AssertionError).
Proof.
  induction cam_id as [|cid rest IH]; intros rois sh sh' o; simpl.
  - intros [= <- <-]. split; [reflexivity|].
    intros (cid & Hcid & _). now apply elem_of_nil in Hcid.
  - unfold bind at 1. unfold assert.
    destruct (path_exists (video_path cid)) eqn:Hexists.
    + unfold ret at 1. unfold bind at 1. unfold get at 1.
      unfold bind at 1. unfold modify at 1.
      intros Hrest. apply IH in Hrest as [Hcommands Hraise].
      split; [exact Hcommands|].
      intros (c & Hc & Hmissing). apply Hraise. exists c. split; [|exact Hmissing].
      apply elem_of_cons in Hc as [->|Hc]; [congruence | exact Hc].
    + intros [= <- <-]. now split.
Qed.

Lemma select_loop_run (video_path : Z -> string) (cam_id : list Z) :
  forall rois (sh : Shell),
  (forall cid, cid ∈ cam_id -> path_exists (video_path cid) = true) ->
  exists rois',
    select_loop video_path cam_id rois sh
    = (mkShell (selections sh + length cam_id) (commands sh), Return rois') /\
    (forall c, c ∉ cam_id -> rois' !! c = rois !! c) /\
    (NoDup cam_id ->
     forall (k : nat) cid, cam_id !! k = Some cid ->
       rois' !! cid
       = Some (select_roi (selections sh + k) (video_path cid))).
Proof.
  induction cam_id as [|cid rest IH]; intros rois sh Hexists.
  - exists rois. simpl. rewrite Nat.add_0_r. split; [now destruct sh|].
    split; [reflexivity|]. intros _ k c Hk. discriminate.
  - simpl. unfold bind at 1. unfold assert.
    rewrite (Hexists cid) by left. unfold ret at 1.
    unfold bind at 1. unfold get at 1. unfold bind at 1. unfold modify at 1.
    destruct (IH (<[cid := select_roi (selections sh) (video_path cid)]> rois)
                (mkShell (S (selections sh)) (commands sh)))
      as (rois' & Hrun & Hother & Hsel).
    { intros c Hc. apply Hexists. now right. }
    exists rois'. cbn [selections commands] in Hrun. rewrite Hrun.
    split; [do 2 f_equal; lia|]. split.
    + intros c Hc. rewrite Hother by (intros ?; apply Hc; now right).
      apply lookup_insert_ne. intros ->. apply Hc. left.
    + intros Hnodup k c Hk. apply NoDup_cons in Hnodup as [Hnotin Hnodup].
      destruct k as [|k]; simpl in Hk.
      * injection Hk as <-. rewrite Hother by assumption.
        rewrite Nat.add_0_r. apply lookup_insert_eq.
      * rewrite (Hsel Hnodup k c Hk). cbn [selections].
        do 2 f_equal. lia.
Qed.

(** X19.  With a region given on the command line, [process] neither asks
    for a selection nor checks that an input exists: it runs exactly one
    command per camera id, in the order given, and returns; the command of
    camera [i] for the region [(x, y, width, height)] is
    [ffmpeg -y -i <input i> -vf crop=width:height:x:y <output i>], whatever
    [verbose] and [dry] are: a dry run crops all the same. *)
Theorem process_with_roi_crops_every_camera (cam_id : list Z)
    (skip_synch verbose dry : bool) (roi : ROI) (sh : Shell) :
  process cam_id skip_synch (Some roi) verbose dry sh
  = (mkShell (selections sh)
       (commands sh
        ++ map (crop_command
                  (if skip_synch then undistorted_video_path
                   else synchronized_video_path)
                  cropped_video_path roi) cam_id),
     Return tt).
Proof.
  unfold process. unfold bind at 1. unfold ret at 1.
  rewrite (crop_loop_run _ _ _ cam_id (replicate (length cam_id) roi)).
  - rewrite length_replicate, Nat.eqb_refl. do 3 f_equal.
    generalize (crop_command
                  (if skip_synch then undistorted_video_path
                   else synchronized_video_path) cropped_video_path).
    intros f. clear. induction cam_id as [|i rest IH]; simpl; [reflexivity|].
    now rewrite IH.
  - intros k r Hk. apply lookup_replicate in Hk as [-> Hk].
    destruct (lookup_lt_is_Some_2 cam_id k Hk) as [cid Hcid].
    exists cid. split; [exact Hcid|].
    apply assign_loop_lookup. left. now apply list_elem_of_lookup_2 in Hcid.
  - intros cid Hcid. rewrite length_replicate in Hcid.
    apply lookup_lt_Some in Hcid. lia.
Qed.

(** X20.  When no region is given, [process] checks every input before it
    crops anything: if the video of some camera of the list does not exist
    the call raises [AssertionError] and no command has been run. *)
Theorem process_checks_inputs_before_cropping (cam_id : list Z)
    (skip_synch verbose dry : bool) (sh : Shell) :
  (exists cid, cid ∈ cam_id /\
     path_exists ((if skip_synch then undistorted_video_path
                   else synchronized_video_path) cid) = false) ->
  exists sh',
    process cam_id skip_synch None verbose dry sh
    = (sh', Raise AssertionError) /\
    commands sh' = commands sh.
Proof.
  intros Hmissing. unfold process. unfold bind at 1.
  destruct (select_loop _ cam_id ∅ sh) as [sh' o] eqn:Hsel.
  apply select_loop_commands in Hsel as [Hcommands Hraise].
  rewrite (Hraise Hmissing). now exists sh'.
Qed.

(** X21.  When no region is given, the inputs exist and the camera ids are
    distinct, [process] first asks for one selection per camera, then crops
    camera after camera with the region selected for it, and stops with
    [TypeError] at the first camera whose selection was cancelled: the
    cameras before it have been cropped, the ones after it have not. *)
Theorem process_crops_until_cancelled_selection (cam_id : list Z)
    (skip_synch verbose dry : bool) (sh : Shell) (chosen : list ROI) :
  let video_path :=
    if skip_synch then undistorted_video_path else synchronized_video_path in
  NoDup cam_id ->
  (forall cid, cid ∈ cam_id -> path_exists (video_path cid) = true) ->
  (forall (k : nat) r, chosen !! k = Some r ->
     exists cid, cam_id !! k = Some cid /\
       select_roi (selections sh + k) (video_path cid) = Some r) ->
  (forall cid, cam_id !! length chosen = Some cid ->
     select_roi (selections sh + length chosen) (video_path cid) = None) ->
  process cam_id skip_synch None verbose dry sh
  = (mkShell (selections sh + length cam_id)
       (commands sh
        ++ zip_with (crop_command video_path cropped_video_path) chosen
             cam_id),
     if Nat.eqb (length chosen) (length cam_id)
     then Return tt else Raise TypeError).
Proof.
  intros video_path Hnodup Hexists Hchosen Hnext. unfold process.
  fold video_path. unfold bind at 1.
  destruct (select_loop_run video_path cam_id ∅ sh Hexists)
    as (rois & Hrun & _ & Hsel).
  rewrite Hrun.
  rewrite (crop_loop_run video_path cropped_video_path rois cam_id chosen).
  - reflexivity.
  - intros k r Hk. destruct (Hchosen k r Hk) as (cid & Hcid & Hanswer).
    exists cid. split; [exact Hcid|].
    rewrite (Hsel Hnodup k cid Hcid). now rewrite Hanswer.
  - intros cid Hcid. rewrite (Hsel Hnodup _ cid Hcid). f_equal.
    now apply Hnext.
Qed.

End Cropping.

Lemma process_checks_inputs_before_cropping_witness :
  exists sh',
    @process example_config example_env [0; 1; 2] false None false false (mkShell 0 [])
    = (sh', Raise AssertionError) /\
    commands sh' = [].
Proof.
  apply (@process_checks_inputs_before_cropping example_config example_env [0; 1; 2] false
           false false (mkShell 0 [])).
  exists 1. split; [|reflexivity].
  apply elem_of_cons. right. apply elem_of_cons. now left.
Defined.

Lemma process_crops_until_cancelled_selection_witness :
  @process example_config example_env [0; 2; 3] false None false false (mkShell 0 [])
  = (mkShell 3
       ["ffmpeg -y -i synchronized/cam0.mp4 -vf crop=300:400:10:20 cropped/cam0.mp4"],
     Raise TypeError).
Proof.
  apply (@process_crops_until_cancelled_selection example_config example_env [0; 2; 3] false
           false false (mkShell 0 []) [(10, 20, 300, 400)]).
  - repeat constructor; intros Hin;
      repeat (apply elem_of_cons in Hin as [Hin|Hin]; [discriminate|]);
      now apply elem_of_nil in Hin.
  - intros cid Hcid.
    repeat (apply elem_of_cons in Hcid as [->|Hcid]; [reflexivity|]).
    now apply elem_of_nil in Hcid.
  - intros [|k] r Hk; [|discriminate]. injection Hk as <-.
    exists 0. split; reflexivity.
  - intros cid [= <-]. reflexivity.
Defined.

(** * The undistortion script *)

Lemma read_chunk_spec {A} (n : nat) :
  forall video : list A,
  read_chunk n video
  = (take n video, drop n video, bool_decide (length video < n)%nat).
Proof.
  induction n as [|n IH]; intros video.
  - simpl. now rewrite drop_0.
  - destruct video as [|frame rest]; simpl; [reflexivity|].
    rewrite IH. f_equal. apply bool_decide_ext. lia.
Qed.

Section Undistorting.

Context `{config : Config} `{cv : OpenCV}.

Lemma write_loop_complete (n : nat) (func : Frame -> Frame)
    (frame_width frame_height : nat) (fuel : nat) :
  forall video written : list Frame,
  (1 <= n)%nat ->
  (forall frame, frame ∈ video ->
     frame_shape (func frame) = (frame_height, frame_width)) ->
  (length video < fuel)%nat ->
  write_loop fuel n func frame_width frame_height video written
  = Some (written
          ++ map (fun frame =>
                    cv2_resize (func frame) (frame_width, frame_height))
               video,
          Return tt).
Proof.
  induction fuel as [|fuel IH]; intros video written Hn Hshape Hfuel; [lia|].
  cbn [write_loop]. rewrite read_chunk_spec.
  destruct video as [|frame rest].
  - rewrite take_nil. cbn [write_chunk].
    rewrite bool_decide_eq_true_2 by (simpl; lia).
    now rewrite app_nil_r.
  - destruct n as [|n]; [lia|]. rewrite firstn_cons. cbn [write_chunk].
    rewrite (Hshape frame) by left. cbn [fst snd].
    rewrite !Nat.eqb_refl. cbn [andb].
    destruct (bool_decide (length (frame :: rest) < S n)%nat) eqn:Hdone.
    + apply bool_decide_eq_true_1 in Hdone. simpl in Hdone.
      rewrite take_ge by lia. now rewrite map_map.
    + apply bool_decide_eq_false_1 in Hdone. simpl in Hdone, Hfuel.
      rewrite IH.
      * rewrite <- app_assoc. do 3 f_equal.
        rewrite map_map, <- map_app.
        change (frame :: take n rest) with (take (S n) (frame :: rest)).
        now rewrite take_drop.
      * lia.
      * intros f Hf. apply Hshape.
        now apply (subseteq_drop (S n) (frame :: rest)).
      * rewrite length_drop. simpl. lia.
Qed.

Lemma write_loop_spins (func : Frame -> Frame)
    (frame_width frame_height : nat) (fuel : nat) :
  forall video written : list Frame,
  write_loop fuel 0 func frame_width frame_height video written = None.
Proof.
  induction fuel as [|fuel IH]; intros video written; [reflexivity|].
  cbn [write_loop read_chunk write_chunk]. apply IH.
Qed.

Lemma camera_loop_keeps (fuel : nat) (cv2_rotation : option Z) (dry : bool)
    (processes chunksize : Z) (cam_id : list Z) :
  forall (files files' : gmap string File) (o : outcome unit),
  camera_loop fuel cv2_rotation dry processes chunksize false cam_id files
  = Some (files', o) ->
  forall path file, files !! path = Some file -> files' !! path = Some file.
Proof.
  induction cam_id as [|cid rest IH]; intros files files' o.
  - intros [= <- _]. auto.
  - cbn [camera_loop].
    destruct (bool_decide (is_Some (files !! undistorted_video_path cid)))
      eqn:Hexists; [apply IH|].
    apply bool_decide_eq_false_1 in Hexists.
    assert (Hfresh : forall (file' : File) path file,
               files !! path = Some file ->
               <[undistorted_video_path cid := file']> files !! path
               = Some file).
    { intros file' path file Hpath. rewrite lookup_insert_ne; [exact Hpath|].
      intros <-. apply Hexists. eauto. }
    destruct dry; [apply IH|].
    destruct (files !! raw_video_path cid) as [[width height frames| ]|];
      [|apply IH|apply IH].
    destruct (if bool_decide (cv2_rotation = Some ROTATE_90_CLOCKWISE)
                 || bool_decide
                      (cv2_rotation = Some ROTATE_90_COUNTERCLOCKWISE)
              then (height, width) else (width, height))
      as [frame_width frame_height].
    destruct (processes <? 1).
    + intros [= <- _] path file Hpath. now apply Hfresh.
    + destruct (write_loop _ _ _ _ _ _ _) as [[written [e|[]]]|];
        [| |discriminate].
      * intros [= <- _] path file Hpath. rewrite insert_insert_eq.
        now apply Hfresh.
      * intros Hrest path file Hpath. apply (IH _ _ _ Hrest).
        rewrite insert_insert_eq. now apply Hfresh.
Qed.

Lemma camera_loop_dry (fuel : nat) (cv2_rotation : option Z)
    (processes chunksize : Z) (overwrite : bool) (cam_id : list Z) :
  forall files : gmap string File,
  exists files',
    camera_loop fuel cv2_rotation true processes chunksize overwrite cam_id
      files
    = Some (files', Return tt) /\
    forall path,
      files' !! path
      = if overwrite
           && bool_decide (path ∈ map undistorted_video_path cam_id)
        then None else files !! path.
Proof.
  induction cam_id as [|cid rest IH]; intros files.
  - exists files. split; [reflexivity|]. intros path.
    rewrite bool_decide_eq_false_2; [now rewrite andb_false_r|].
    apply not_elem_of_nil.
  - cbn [camera_loop].
    destruct (bool_decide (is_Some (files !! undistorted_video_path cid)))
      eqn:Hexists; [destruct overwrite|].
    + destruct (IH (delete (undistorted_video_path cid) files))
        as (files' & Hrun & Hfiles).
      exists files'. split; [exact Hrun|]. intros path. rewrite Hfiles.
      cbn [andb map].
      destruct (decide (path = undistorted_video_path cid)) as [->|Hne].
      * rewrite lookup_delete_eq.
        rewrite (bool_decide_eq_true_2 (_ ∈ _ :: _)) by left.
        now destruct (bool_decide (_ ∈ _)).
      * rewrite lookup_delete_ne by congruence.
        replace (bool_decide (path ∈ _ :: _))
          with (bool_decide (path ∈ map undistorted_video_path rest));
          [reflexivity|].
        apply bool_decide_ext. rewrite elem_of_cons. tauto.
    + destruct (IH files) as (files' & Hrun & Hfiles).
      exists files'. split; [exact Hrun|]. intros path. now rewrite Hfiles.
    + apply bool_decide_eq_false_1 in Hexists.
      destruct (IH files) as (files' & Hrun & Hfiles).
      exists files'. split; [exact Hrun|]. intros path. rewrite Hfiles.
      destruct overwrite; [|reflexivity]. cbn [andb map].
      destruct (decide (path = undistorted_video_path cid)) as [->|Hne].
      * rewrite (bool_decide_eq_true_2 (_ ∈ _ :: _)) by left.
        destruct (bool_decide (_ ∈ _)); [reflexivity|].
        destruct (files !! undistorted_video_path cid) eqn:Hfile;
          [|reflexivity].
        exfalso. apply Hexists. eauto.
      * replace (bool_decide (path ∈ _ :: _))
          with (bool_decide (path ∈ map undistorted_video_path rest));
          [reflexivity|].
        apply bool_decide_ext. rewrite elem_of_cons. tauto.
Qed.

(** X22.  The output of the script does not depend on how the frames are
    cut into chunks: for a camera whose output does not exist yet and whose
    raw video opens, with at least one process and a chunk size of at least
    one, and when every processed frame has the expected shape, the loop
    ends (any fuel above the number of frames is enough) and the output
    file holds the processed and resized frames of the video, all of them,
    each once and in order; nothing else is changed. *)
Theorem undistort_writes_every_frame_in_order (fuel : nat) (cid : Z)
    (rotate : option string) (output_fps : Z) (verbose overwrite : bool)
    (processes chunksize : Z) (files : gmap string File)
    (width height : nat) (frames : list Frame) :
  let cv2_rotation :=
    match rotate with Some name => cv2_getattr name | None => None end in
  let size :=
    if bool_decide (cv2_rotation = Some ROTATE_90_CLOCKWISE)
       || bool_decide (cv2_rotation = Some ROTATE_90_COUNTERCLOCKWISE)
    then (height, width) else (width, height) in
  let func frame := process_frame frame fisheye_configuration cv2_rotation in
  files !! undistorted_video_path cid = None ->
  files !! raw_video_path cid = Some (VideoFile width height frames) ->
  1 <= processes -> 1 <= chunksize ->
  (forall frame, frame ∈ frames ->
     frame_shape (func frame) = (snd size, fst size)) ->
  (length frames < fuel)%nat ->
  undistort_and_rotate fuel [cid] rotate output_fps verbose false processes
    chunksize overwrite files
  = Some (<[undistorted_video_path cid :=
              VideoFile (fst size) (snd size)
                (map (fun frame => cv2_resize (func frame) size) frames)]>
            files,
          Return tt).
Proof.
  intros cv2_rotation size func Hsave Hraw Hprocesses Hchunk Hshape Hfuel.
  unfold undistort_and_rotate. fold cv2_rotation. cbn [camera_loop].
  rewrite Hsave.
  rewrite bool_decide_eq_false_2 by (intros [? ?]; discriminate).
  rewrite Hraw. fold size. destruct size as [frame_width frame_height] eqn:Hsize.
  destruct (Z.ltb_spec processes 1); [lia|].
  fold func.
  rewrite (write_loop_complete _ func frame_width frame_height fuel frames []).
  - cbn [app]. now rewrite insert_insert_eq.
  - nia.
  - exact Hshape.
  - exact Hfuel.
Qed.

(** X23.  With a chunk size below one the script never ends: once a camera
    whose output does not exist yet and whose raw video opens is reached,
    no frame is ever read and the [while] loop runs for ever, whatever the
    video holds (no amount of fuel lets the call return). *)
Theorem undistort_hangs_on_chunksize_below_one (fuel : nat) (cid : Z)
    (rest : list Z) (rotate : option string) (output_fps : Z)
    (verbose overwrite : bool) (processes chunksize : Z)
    (files : gmap string File) (width height : nat) (frames : list Frame) :
  files !! undistorted_video_path cid = None ->
  files !! raw_video_path cid = Some (VideoFile width height frames) ->
  1 <= processes -> chunksize <= 0 ->
  undistort_and_rotate fuel (cid :: rest) rotate output_fps verbose false
    processes chunksize overwrite files
  = None.
Proof.
  intros Hsave Hraw Hprocesses Hchunk.
  unfold undistort_and_rotate. cbn [camera_loop].
  rewrite Hsave.
  rewrite bool_decide_eq_false_2 by (intros [? ?]; discriminate).
  rewrite Hraw.
  destruct (if _ || _ then (height, width) else (width, height))
    as [frame_width frame_height].
  destruct (Z.ltb_spec processes 1); [lia|].
  replace (Z.to_nat (chunksize * processes)) with 0%nat by nia.
  now rewrite write_loop_spins.
Qed.

(** X24.  Without [--overwrite] the script changes no file that exists:
    whatever the other options, and whether the run ends normally or with
    an exception, every path that held a file before the run holds the
    same file after it. *)
Theorem undistort_without_overwrite_keeps_files (fuel : nat)
    (cam_id : list Z) (rotate : option string) (output_fps : Z)
    (verbose dry : bool) (processes chunksize : Z)
    (files files' : gmap string File) (o : outcome unit) :
  undistort_and_rotate fuel cam_id rotate output_fps verbose dry processes
    chunksize false files
  = Some (files', o) ->
  forall path file, files !! path = Some file -> files' !! path = Some file.
Proof.
  unfold undistort_and_rotate. apply camera_loop_keeps.
Qed.

(** X25.  A dry run writes no video and always ends normally, but it is
    not free of effects: with [--overwrite] it removes the output file of
    every camera of the list that exists; without it nothing changes. *)
Theorem undistort_dry_run_removes_outputs (fuel : nat) (cam_id : list Z)
    (rotate : option string) (output_fps : Z) (verbose : bool)
    (processes chunksize : Z) (overwrite : bool)
    (files : gmap string File) :
  exists files',
    undistort_and_rotate fuel cam_id rotate output_fps verbose true processes
      chunksize overwrite files
    = Some (files', Return tt) /\
    (forall path,
       files' !! path
       = if overwrite
            && bool_decide (path ∈ map undistorted_video_path cam_id)
         then None else files !! path) /\
    (overwrite = false -> files' = files).
Proof.
  unfold undistort_and_rotate.
  destruct (camera_loop_dry fuel
              match rotate with Some name => cv2_getattr name | None => None end
              processes chunksize overwrite cam_id files)
    as (files' & Hrun & Hfiles).
  exists files'. split; [exact Hrun|]. split; [exact Hfiles|].
  intros ->. apply map_eq. intros path. now rewrite Hfiles.
Qed.

End Undistorting.

Lemma undistort_writes_every_frame_in_order_witness :
  @undistort_and_rotate example_config example_cv 4 [0] None 60 false false
    2 1 false example_files
  = Some (<["undistorted/cam0.mp4" :=
              @VideoFile example_cv 4 3 example_frames]>
            example_files,
          Return tt).
Proof.
  apply (@undistort_writes_every_frame_in_order example_config example_cv 4 0
           None 60 false false 2 1 example_files 4%nat 3%nat
           example_frames).
  - reflexivity.
  - reflexivity.
  - lia.
  - lia.
  - intros frame Hframe.
    repeat (apply elem_of_cons in Hframe as [->|Hframe]; [reflexivity|]).
    now apply elem_of_nil in Hframe.
  - simpl. lia.
Defined.

Lemma undistort_hangs_on_chunksize_below_one_witness :
  @undistort_and_rotate example_config example_cv 1000 [0; 1] None 60 false
    false 2 0 false example_files
  = None.
Proof.
  apply (@undistort_hangs_on_chunksize_below_one example_config example_cv
           1000 0 [1] None 60 false false 2 0 example_files 4%nat 3%nat
           example_frames).
  - reflexivity.
  - reflexivity.
  - lia.
  - lia.
Defined.

Lemma undistort_without_overwrite_keeps_files_witness :
  exists files' o,
    @undistort_and_rotate example_config example_cv 4 [0] None 60 false false
      2 1 false (<["undistorted/cam0.mp4" := OtherFile]> example_files)
    = Some (files', o) /\
    files' !! "undistorted/cam0.mp4" = Some OtherFile.
Proof.
  exists (<["undistorted/cam0.mp4" := OtherFile]> example_files), (Return tt).
  split; [reflexivity|].
  apply (@undistort_without_overwrite_keeps_files example_config example_cv
           4 [0] None 60 false false 2 1
           (<["undistorted/cam0.mp4" := OtherFile]> example_files)
           (<["undistorted/cam0.mp4" := OtherFile]> example_files)
           (Return tt)); reflexivity.
Defined.

(** * The search path of the visualisation script *)

Lemma has_slash_app (s1 s2 : string) :
  has_slash (s1 +:+ s2) = has_slash s1 || has_slash s2.
Proof.
  induction s1 as [|c s1 IH]; [reflexivity|].
  rewrite append_cons. cbn [has_slash]. now rewrite IH, orb_assoc.
Qed.

Lemma all_slashes_app (s1 s2 : string) :
  all_slashes (s1 +:+ s2) = all_slashes s1 && all_slashes s2.
Proof.
  induction s1 as [|c s1 IH]; [reflexivity|].
  rewrite append_cons. cbn [all_slashes]. now rewrite IH, andb_assoc.
Qed.

Lemma component_not_all_slashes (c : string) :
  component c -> all_slashes c = false.
Proof.
  intros [Hne Hslash]. destruct c as [|a c]; [contradiction|].
  cbn [has_slash all_slashes] in *.
  apply orb_false_iff in Hslash as [-> _]. reflexivity.
Qed.

Lemma split_slash_component (c : string) :
  has_slash c = false -> split_slash c = [c].
Proof.
  induction c as [|a c IH]; [reflexivity|]. cbn [has_slash split_slash].
  intros Hslash. apply orb_false_iff in Hslash as [-> Hslash].
  now rewrite (IH Hslash).
Qed.

Lemma split_slash_app (c s : string) :
  has_slash c = false ->
  split_slash (c +:+ String "/" s) = c :: split_slash s.
Proof.
  induction c as [|a c IH]; [reflexivity|]. cbn [has_slash].
  intros Hslash. apply orb_false_iff in Hslash as [Ha Hslash].
  rewrite append_cons. cbn [split_slash]. now rewrite Ha, (IH Hslash).
Qed.

Lemma split_slash_join (components : list string) :
  components <> [] ->
  Forall component components ->
  split_slash (join "/" components) = components.
Proof.
  induction components as [|c [|c' rest] IH]; intros Hne Hall;
    [contradiction| |].
  - apply Forall_cons in Hall as [[_ Hc] _].
    now apply split_slash_component.
  - apply Forall_cons in Hall as [[_ Hc] Hall].
    change (join "/" (c :: c' :: rest))
      with (c +:+ String "/" (join "/" (c' :: rest))).
    rewrite split_slash_app by assumption. now rewrite IH.
Qed.

Lemma join_snoc (components : list string) (c : string) :
  components <> [] ->
  join "/" (components ++ [c]) = join "/" components +:+ String "/" c.
Proof.
  induction components as [|a [|b rest] IH]; intros Hne; [contradiction| |].
  - reflexivity.
  - change (join "/" ((a :: b :: rest) ++ [c]))
      with (a +:+ String "/" (join "/" ((b :: rest) ++ [c]))).
    rewrite IH by discriminate.
    change (join "/" (a :: b :: rest))
      with (a +:+ String "/" (join "/" (b :: rest))).
    rewrite append_assoc. now rewrite append_cons.
Qed.

Lemma absolute_snoc (components : list string) (c : string) :
  exists p,
    absolute (components ++ [c]) = p +:+ String "/" c /\
    (components = [] -> p = EmptyString) /\
    (components <> [] -> p = absolute components).
Proof.
  destruct components as [|a rest].
  - exists EmptyString. repeat split. intros Hne. contradiction.
  - exists (absolute (a :: rest)). split; [|split; [discriminate|reflexivity]].
    unfold absolute. rewrite join_snoc by discriminate.
    now rewrite !append_cons.
Qed.

Lemma up_to_last_slash_app (p c : string) :
  has_slash c = false ->
  up_to_last_slash (p +:+ String "/" c) = p +:+ String "/" EmptyString.
Proof.
  intros Hc. induction p as [|a p IH].
  - rewrite !append_empty_l. cbn [up_to_last_slash]. now rewrite Hc.
  - rewrite !append_cons. cbn [up_to_last_slash].
    rewrite has_slash_app. cbn [has_slash]. rewrite Ascii.eqb_refl.
    rewrite orb_true_r, IH. reflexivity.
Qed.

Lemma rstrip_slash_last (s : string) :
  rstrip_slash (s +:+ String "/" EmptyString) = rstrip_slash s.
Proof.
  induction s as [|a s IH]; [reflexivity|].
  rewrite append_cons. cbn [rstrip_slash]. now rewrite IH.
Qed.

Lemma rstrip_slash_component (c : string) :
  has_slash c = false -> rstrip_slash c = c.
Proof.
  induction c as [|a c IH]; [reflexivity|]. cbn [has_slash rstrip_slash].
  intros Hslash. apply orb_false_iff in Hslash as [Ha Hslash].
  rewrite (IH Hslash), Ha. now destruct c.
Qed.

Lemma rstrip_slash_app (s c : string) :
  component c -> rstrip_slash (s +:+ c) = s +:+ c.
Proof.
  intros [Hne Hslash]. induction s as [|a s IH].
  - now apply rstrip_slash_component.
  - rewrite append_cons. cbn [rstrip_slash]. rewrite IH.
    destruct (s +:+ c) eqn:Happ; [|reflexivity].
    destruct s; [|discriminate]. now rewrite append_empty_l in Happ.
Qed.

Lemma rstrip_slash_absolute (components : list string) :
  components <> [] -> Forall component components ->
  rstrip_slash (absolute components) = absolute components.
Proof.
  intros Hne Hall.
  destruct (exists_last Hne) as (front & c & ->).
  apply Forall_app in Hall as [_ Hc]. apply Forall_cons in Hc as [Hc _].
  destruct (absolute_snoc front c) as (p & -> & _).
  change (p +:+ String "/" c) with (p +:+ (String "/" EmptyString +:+ c)).
  rewrite <- append_assoc. now apply rstrip_slash_app.
Qed.

Lemma dirname_absolute (components : list string) (c : string) :
  Forall component components -> component c ->
  dirname (absolute (components ++ [c])) = absolute components.
Proof.
  intros Hall Hc. unfold dirname.
  destruct (absolute_snoc components c) as (p & -> & Hnil & Hcons).
  rewrite up_to_last_slash_app by apply Hc.
  destruct components as [|a rest].
  - rewrite (Hnil eq_refl). reflexivity.
  - rewrite (Hcons ltac:(discriminate)).
    rewrite bool_decide_eq_false_2 by discriminate.
    rewrite all_slashes_app.
    assert (Hstart : all_slashes (absolute (a :: rest)) = false).
    { apply Forall_cons in Hall as [Ha _]. unfold absolute.
      rewrite append_cons, append_empty_l. cbn [all_slashes].
      destruct rest as [|b rest].
      - change (join "/" [a]) with a.
        now rewrite (component_not_all_slashes a Ha).
      - change (join "/" (a :: b :: rest))
          with (a +:+ String "/" (join "/" (b :: rest))).
        now rewrite all_slashes_app, (component_not_all_slashes a Ha). }
    rewrite Hstart. cbn [negb andb].
    rewrite rstrip_slash_last. now apply rstrip_slash_absolute.
Qed.

Lemma climb_skip (parent_folder : string) (post : list string) :
  forall (front directories : list string),
  Forall component (front ++ post) ->
  parent_folder ∉ post ->
  climb parent_folder (rev post ++ directories) (absolute (front ++ post))
  = climb parent_folder directories (absolute front).
Proof.
  induction post as [|c post IH] using rev_ind;
    intros front directories Hall Hnotin.
  - now rewrite app_nil_r.
  - rewrite rev_unit. cbn [app climb].
    rewrite bool_decide_eq_false_2
      by (intros ->; apply Hnotin; apply elem_of_app; right; left).
    rewrite app_assoc in Hall |- *.
    apply Forall_app in Hall as [Hall Hc]. apply Forall_cons in Hc as [Hc _].
    rewrite dirname_absolute by assumption.
    apply IH; [exact Hall|].
    intros Hin. apply Hnotin. apply elem_of_app. now left.
Qed.

Lemma climb_absolute (parent_folder : string) (components : list string) :
  components <> [] -> Forall component components ->
  let path :=
    climb parent_folder (rev (split_slash (absolute components)))
      (absolute components) in
  (parent_folder ∉ components -> path = "/") /\
  (forall front post,
     components = front ++ parent_folder :: post -> parent_folder ∉ post ->
     path = absolute (front ++ [parent_folder])).
Proof.
  intros Hne Hall path.
  assert (Hsplit : split_slash (absolute components)
                   = EmptyString :: components).
  { unfold absolute. rewrite append_cons, append_empty_l.
    cbn [split_slash]. rewrite Ascii.eqb_refl.
    now rewrite split_slash_join. }
  subst path. rewrite Hsplit. cbn [rev]. split.
  - intros Hnotin.
    pose proof (climb_skip parent_folder components [] [EmptyString]
                  Hall Hnotin) as Hskip.
    rewrite app_nil_l in Hskip. rewrite Hskip.
    cbn [climb]. now destruct (bool_decide _).
  - intros front post -> Hnotin.
    rewrite rev_app_distr. cbn [rev]. rewrite <- !app_assoc. cbn [app].
    replace (front ++ parent_folder :: post)
      with ((front ++ [parent_folder]) ++ post)
      by (now rewrite <- app_assoc).
    rewrite climb_skip; [|now rewrite <- app_assoc|assumption].
    cbn [climb]. now rewrite bool_decide_eq_true_2.
Qed.

(** X26.  For a script at the absolute path [/c1/.../cn],
    [include_parent_folders] adds one entry to [sys.path] per folder name,
    in order, and changes nothing else of it: the entry for a folder name
    that occurs among the components is the path up to and including its
    last occurrence, and the entry for a name that does not occur is the
    root [/]. *)
Theorem include_parent_folders_adds_ancestors (components : list string)
    (parent_folders sys_path : list string) :
  components <> [] -> Forall component components ->
  exists added,
    include_parent_folders (absolute components) parent_folders sys_path
    = (sys_path ++ added, Return tt) /\
    Forall2
      (fun parent_folder path =>
         (parent_folder ∉ components -> path = "/") /\
         (forall front post,
            components = front ++ parent_folder :: post ->
            parent_folder ∉ post ->
            path = absolute (front ++ [parent_folder])))
      parent_folders added.
Proof.
  intros Hne Hall. revert sys_path.
  induction parent_folders as [|parent_folder rest IH]; intros sys_path.
  - exists []. split; [now rewrite app_nil_r | constructor].
  - cbn [include_parent_folders]. unfold bind at 1. unfold modify at 1.
    destruct (IH (sys_path
                  ++ [climb parent_folder
                        (rev (split_slash (absolute components)))
                        (absolute components)]))
      as (added & Hrun & Hadded).
    exists (climb parent_folder (rev (split_slash (absolute components)))
              (absolute components) :: added).
    split.
    + rewrite Hrun. now rewrite <- app_assoc.
    + constructor; [|exact Hadded].
      now apply climb_absolute.
Qed.

Lemma include_parent_folders_adds_ancestors_witness :
  let components :=
    ["home"; "me"; "Smoothing"; "script"; "visualize_smoothing.py"] in
  exists added,
    include_parent_folders
      "/home/me/Smoothing/script/visualize_smoothing.py"
      ["elastica-python"; "Smoothing"] ["/usr/lib/python3"]
    = (["/usr/lib/python3"] ++ added, Return tt) /\
    Forall2
      (fun parent_folder path =>
         (parent_folder ∉ components -> path = "/") /\
         (forall front post,
            components = front ++ parent_folder :: post ->
            parent_folder ∉ post ->
            path = absolute (front ++ [parent_folder])))
      ["elastica-python"; "Smoothing"] added.
Proof.
  intros components.
  apply (include_parent_folders_adds_ancestors components
           ["elastica-python"; "Smoothing"] ["/usr/lib/python3"]).
  - discriminate.
  - repeat constructor; discriminate.
Defined.

(** * Walking the work list camera by camera *)

Lemma bucket_cons {A} (x : A) (g : Z -> list A) (c0 : Z) (cams : list Z) :
  NoDup cams -> c0 ∈ cams ->
  concat (map (fun c => if c0 =? c then x :: g c else g c) cams)
  ≡ₚ x :: concat (map g cams).
Proof.
  induction cams as [|c cs IH]; intros Hnodup Hin.
  - now apply elem_of_nil in Hin.
  - apply NoDup_cons in Hnodup as [Hnotin Hnodup]. cbn [map concat].
    destruct (Z.eqb_spec c0 c) as [->|Hne].
    + replace (map (fun c' => if c =? c' then x :: g c' else g c') cs)
        with (map g cs); [reflexivity|].
      apply map_ext_in. intros c' Hc'.
      destruct (Z.eqb_spec c c') as [->|]; [|reflexivity].
      exfalso. apply Hnotin. now apply list_elem_of_In.
    + apply elem_of_cons in Hin as [Hin|Hin]; [contradiction|].
      rewrite (IH Hnodup Hin). symmetry. apply Permutation_middle.
Qed.

Lemma bucket_perm (l : list FlowQueue) (cams : list Z) :
  NoDup cams -> (forall q, q ∈ l -> camera q ∈ cams) ->
  concat (map (fun c => List.filter (fun q => camera q =? c) l) cams) ≡ₚ l.
Proof.
  intros Hnodup. induction l as [|x l IH]; intros Hcams.
  - cbn [List.filter]. clear. induction cams as [|c cs IH]; [reflexivity|].
    exact IH.
  - cbn [List.filter].
    rewrite (bucket_cons x (fun c => List.filter (fun q => camera q =? c) l)
               (camera x) cams Hnodup) by (apply Hcams; left).
    constructor. apply IH. intros q Hq. apply Hcams. now right.
Qed.

Lemma filter_selected_camera (c : Z) s f t (qs : list FlowQueue) :
  List.filter (selected (Some c) s f t) qs
  = List.filter (fun q => camera q =? c)
      (List.filter (selected None s f t) qs).
Proof.
  induction qs as [|q qs IH]; [reflexivity|]. cbn [List.filter].
  assert (Hsel : selected (Some c) s f t q
                 = (camera q =? c) && selected None s f t q).
  { unfold selected. cbn [andb]. now rewrite !andb_assoc. }
  rewrite Hsel.
  destruct (selected None s f t q); cbn [List.filter].
  - rewrite andb_true_r. destruct (camera q =? c); now rewrite IH.
  - rewrite andb_false_r. exact IH.
Qed.

(** X27.  Walking the work list camera by camera misses nothing and
    repeats nothing: inside the context, the results of [get_flow_queues]
    for the cameras that [iter_cameras] returns, put one after the other,
    are a rearrangement of the result of the query without a camera filter
    (the other filters being the same), each camera's records keeping their
    order. *)
Theorem every_selected_record_is_visited_once (w : World)
    (start_frame_ : option Z) (force_run_all : bool) (tag_ : option string) :
  inside_context (self w) = true ->
  exists (cams : list Z) (every : list FlowQueue)
         (per : Z -> list FlowQueue),
    iter_cameras w = (w, Return cams) /\
    get_flow_queues None start_frame_ force_run_all tag_ w
    = (w, Return every) /\
    (forall c,
       get_flow_queues (Some c) start_frame_ force_run_all tag_ w
       = (w, Return (per c)) /\
       per c = List.filter (fun q => camera q =? c) every) /\
    concat (map per cams) ≡ₚ every.
Proof.
  intros Hin.
  exists (merge_sort Z.le (remove_dups (map camera (queues (self w))))),
         (List.filter (selected None start_frame_ force_run_all tag_)
            (queues (self w))),
         (fun c => List.filter
                     (selected (Some c) start_frame_ force_run_all tag_)
                     (queues (self w))).
  split; [|split; [|split]].
  - unfold iter_cameras.
    now rewrite raise_if_outside_context_inside by assumption.
  - now apply get_flow_queues_run.
  - intros c. split; [now apply get_flow_queues_run|].
    apply filter_selected_camera.
  - erewrite map_ext by (intros c; apply filter_selected_camera).
    apply bucket_perm.
    + rewrite merge_sort_Permutation. apply NoDup_remove_dups.
    + intros q Hq. rewrite merge_sort_Permutation, elem_of_remove_dups.
      apply list_elem_of_fmap. exists q. split; [reflexivity|].
      apply list_elem_of_In in Hq. apply filter_In in Hq as [Hq _].
      now apply list_elem_of_In.
Qed.

Lemma every_selected_record_is_visited_once_witness :
  let a := mkFlowQueue (1, 1) 0 10 2 0 "m0" false in
  let b := mkFlowQueue (5, 5) 0 10 0 0 "m0" false in
  let c := mkFlowQueue (7, 7) 0 10 2 1 "m1" false in
  let w := acquired_fresh [a; b; c] in
  exists (cams : list Z) (every : list FlowQueue)
         (per : Z -> list FlowQueue),
    iter_cameras w = (w, Return cams) /\
    get_flow_queues None None false None w = (w, Return every) /\
    (forall cam,
       get_flow_queues (Some cam) None false None w = (w, Return (per cam)) /\
       per cam = List.filter (fun q => camera q =? cam) every) /\
    concat (map per cams) ≡ₚ every.
Proof.
  intros a b c w.
  exact (every_selected_record_is_visited_once w None false None eq_refl).
Defined.

(** * The flag behind the immutable fields *)

Lemma to_object_initialized (q : FlowQueue) :
  to_object q !! "__initialized__" = Some (VBool true).
Proof. unfold to_object. apply lookup_insert_eq. Qed.

(** X28.  The protection of [point], [camera], [z_index] and [label] is
    only as strong as the flag [__initialized__], which is an ordinary
    attribute: on a constructed record a direct assignment of a well-typed
    value to such a field raises [AttributeError], but clearing the flag,
    assigning, and setting the flag again all succeed, and leave the record
    with the new value in the field and protected as before. *)
Theorem static_fields_follow_the_flag (q : FlowQueue) (name : string)
    (v : value) :
  name ∈ static_variables ->
  type_check name v = None ->
  snd (setattr name v (to_object q)) = Raise AttributeError /\
  (setattr "__initialized__" (VBool false) ;;
   setattr name v ;;
   setattr "__initialized__" (VBool true)) (to_object q)
  = (<[name := v]> (to_object q), Return tt) /\
  forall v', type_check name v' = None ->
    snd (setattr name v' (<[name := v]> (to_object q)))
    = Raise AttributeError.
Proof.
  intros Hstatic Hv.
  assert (Hname : name <> "__initialized__").
  { intros ->. unfold static_variables in Hstatic.
    repeat (apply elem_of_cons in Hstatic as [Hstatic|Hstatic];
            [discriminate|]).
    now apply elem_of_nil in Hstatic. }
  assert (Hdirect : forall v', type_check name v' = None ->
            snd (setattr name v' (<[name := v]> (to_object q)))
            = Raise AttributeError).
  { intros v' Hv'. rewrite setattr_accepted by assumption. cbn [snd].
    unfold getattr. rewrite !lookup_insert_ne by congruence.
    rewrite to_object_initialized. cbn [truthy].
    now rewrite bool_decide_eq_true_2. }
  split; [|split; [|exact Hdirect]].
  - rewrite setattr_accepted by assumption. cbn [snd].
    unfold getattr. rewrite lookup_insert_ne by congruence.
    rewrite to_object_initialized. cbn [truthy].
    now rewrite bool_decide_eq_true_2.
  - unfold bind at 1.
    rewrite (setattr_accepted "__initialized__" (VBool false))
      by reflexivity.
    unfold getattr at 1. rewrite lookup_insert_eq. cbn [truthy andb].
    unfold bind at 1. rewrite setattr_accepted by assumption.
    unfold getattr at 1. rewrite lookup_insert_ne by congruence.
    rewrite lookup_insert_eq. cbn [truthy andb].
    rewrite (setattr_accepted "__initialized__" (VBool true))
      by reflexivity.
    unfold getattr at 1. rewrite lookup_insert_eq. cbn [truthy].
    rewrite bool_decide_eq_false_2.
    + cbn [andb]. f_equal. apply map_eq. intros k.
      destruct (decide (k = "__initialized__")) as [->|Hk].
      * rewrite lookup_insert_eq, lookup_insert_ne by congruence.
        now rewrite to_object_initialized.
      * rewrite lookup_insert_ne by congruence.
        destruct (decide (k = name)) as [->|Hk'].
        -- now rewrite !lookup_insert_eq.
        -- now rewrite !lookup_insert_ne by congruence.
    + unfold static_variables. intros Hin.
      repeat (apply elem_of_cons in Hin as [Hin|Hin]; [discriminate|]).
      now apply elem_of_nil in Hin.
Qed.

Lemma static_fields_follow_the_flag_witness :
  snd (setattr "camera" (VInt 7) (to_object cam0)) = Raise AttributeError /\
  (setattr "__initialized__" (VBool false) ;;
   setattr "camera" (VInt 7) ;;
   setattr "__initialized__" (VBool true)) (to_object cam0)
  = (<["camera" := VInt 7]> (to_object cam0), Return tt) /\
  forall v', type_check "camera" v' = None ->
    snd (setattr "camera" v' (<["camera" := VInt 7]> (to_object cam0)))
    = Raise AttributeError.
Proof.
  apply (static_fields_follow_the_flag cam0 "camera" (VInt 7)).
  - unfold static_variables. apply elem_of_cons. right.
    apply elem_of_cons. now left.
  - reflexivity.
Defined.
